(** * Crown and Capture: rules engine, combat resolution, store and AI

    A shallow embedding of the TypeScript sources

      - [lib/types/game.types.ts], [lib/types/abilities.types.ts]  (data)
      - [lib/game/ChessRules.ts]      (move generation, check, mate)
      - [lib/game/ChessAI.ts]         (search and evaluation)
      - [lib/game/AbilitySystem.ts]   (abilities and status effects)
      - [lib/store/gameStore.ts]      (movePiece, useAbility, endTurn)

    Numbers are JavaScript numbers that hold integers everywhere except
    in the AI's evaluation, where one division occurs; they are [Z] here
    and [Q] in the evaluation.  Objects that the source mutates in place
    (pieces, their stats, abilities, status effects, the rows of a grid)
    live in an explicit heap and are passed around by location. *)

From Stdlib Require Import ZArith QArith Qround Lia Bool Sorted.
From stdpp Require Import base tactics option list strings.

Local Open Scope Z_scope.

(** ** game.types.ts *)

Inductive PieceType := PAWN | KNIGHT | BISHOP | ROOK | QUEEN | KING.

Inductive Team := WHITE | BLACK.

Inductive GameState :=
  MENU | PLAYING | PAUSED | ABILITY_TARGETING | ANIMATING | GAME_OVER.

#[global] Instance PieceType_eq_dec : EqDecision PieceType.
Proof. solve_decision. Defined.

#[global] Instance Team_eq_dec : EqDecision Team.
Proof. solve_decision. Defined.

#[global] Instance GameState_eq_dec : EqDecision GameState.
Proof. solve_decision. Defined.

(** [Position]: the source's fields [x] and [y] are [px] and [py]. *)
Record Position := mkPos { px : Z; py : Z }.

#[global] Instance Position_eq_dec : EqDecision Position.
Proof. solve_decision. Defined.

Record PieceStats := mkStats {
  maxHp : Z;
  currentHp : Z;
  maxMana : Z;
  currentMana : Z;
  attackPower : Z;
  defense : Z;
  speed : Z;
  magicPower : Z;
  criticalChance : Z;
  criticalDamage : Z;
  tempHp : option Z;
  tempHpTurns : option Z
}.

(** A location in one of the heap's stores. *)
Abbreviation loc := nat.

(** [Piece].  The field [stats] is a reference in the source; the record
    is parametrised by what stands for it: a location for the objects of
    the heap, the stats themselves for a snapshot.  [abilities] is an
    array that is never updated (only the ability objects in it are), so
    it is the list of their locations; [statusEffects] is the location of
    an array of status-effect objects.  Experience, skill points and
    equipment are read by nothing modelled here and are left out. *)
Record PieceOf (S : Type) := mkPiece {
  id : string;
  type : PieceType;
  team : Team;
  position : Position;
  stats : S;
  hasMoved : bool;
  isAlive : bool;
  level : Z;
  abilities : list loc;
  statusEffects : loc
}.

Arguments mkPiece {S}.
Arguments id {S}.
Arguments type {S}.
Arguments team {S}.
Arguments position {S}.
Arguments stats {S}.
Arguments hasMoved {S}.
Arguments isAlive {S}.
Arguments level {S}.
Arguments abilities {S}.
Arguments statusEffects {S}.

(** A grid of pieces held by value: what [ChessRules] and [ChessAI] read.
    Rows first: [board[y][x]]. *)
Abbreviation BoardOf S := (list (list (option (PieceOf S)))).

Definition isValidPosition (pos : Position) : bool :=
  (0 <=? px pos) && (px pos <? 8) && (0 <=? py pos) && (py pos <? 8).

Definition positionsEqual (pos1 pos2 : Position) : bool :=
  (px pos1 =? px pos2) && (py pos1 =? py pos2).

(** The 64 squares in the order of the source's nested loops
    [for y in 0..7: for x in 0..7]. *)
Definition indices : list Z := [0; 1; 2; 3; 4; 5; 6; 7].

Definition squares : list Position :=
  flat_map (fun yy => map (fun xx => mkPos xx yy) indices) indices.

(** ** ChessRules.ts *)

Module ChessRules.
Section Rules.

Context {S : Type}.

Abbreviation Piece := (PieceOf S).
Abbreviation Board := (BoardOf S).

(** [board[pos.y][pos.x]], [None] where the source reads [null] or
    [undefined].  Every read of the source is inside the grid except the
    reads of [getCastlingMoves] in row [king.position.y]. *)
Definition cell (board : Board) (pos : Position) : option Piece :=
  if (0 <=? px pos) && (0 <=? py pos)
  then row ← board !! Z.to_nat (py pos); mjoin (row !! Z.to_nat (px pos))
  else None.

(** [board[pos.y][pos.x] = v] on a copy of the grid. *)
Definition setCell (board : Board) (pos : Position) (v : option Piece) : Board :=
  if (0 <=? px pos) && (0 <=? py pos)
  then alter (fun row => <[Z.to_nat (px pos) := v]> row) (Z.to_nat (py pos)) board
  else board.

(** [{ ...piece, position: to }] *)
Definition withPosition (piece : Piece) (to : Position) : Piece :=
  mkPiece (id piece) (type piece) (team piece) to (stats piece)
    (hasMoved piece) (isAlive piece) (level piece) (abilities piece)
    (statusEffects piece).

(** [{ ...piece, position: to, hasMoved: true }] *)
Definition movedTo (piece : Piece) (to : Position) : Piece :=
  mkPiece (id piece) (type piece) (team piece) to (stats piece)
    true (isAlive piece) (level piece) (abilities piece)
    (statusEffects piece).

(** [!targetPiece || targetPiece.team !== piece.team] *)
Definition emptyOrEnemy (board : Board) (piece : Piece) (pos : Position) : bool :=
  match cell board pos with
  | None => true
  | Some targetPiece => bool_decide (team targetPiece ≠ team piece)
  end.

(** [targetPiece && targetPiece.team !== piece.team] *)
Definition enemyAt (board : Board) (piece : Piece) (pos : Position) : bool :=
  match cell board pos with
  | None => false
  | Some targetPiece => bool_decide (team targetPiece ≠ team piece)
  end.

Definition isEmpty (board : Board) (pos : Position) : bool :=
  match cell board pos with None => true | Some _ => false end.

Definition getPawnMoves (piece : Piece) (board : Board) : list Position :=
  let x := px (position piece) in
  let y := py (position piece) in
  let direction := if bool_decide (team piece = WHITE) then -1 else 1 in
  let startRow := if bool_decide (team piece = WHITE) then 6 else 1 in
  let oneForward := mkPos x (y + direction) in
  let twoForward := mkPos x (y + direction * 2) in
  let forward :=
    if isValidPosition oneForward && isEmpty board oneForward
    then oneForward ::
         (if (y =? startRow)
          then (if isValidPosition twoForward && isEmpty board twoForward
                then [twoForward] else [])
          else [])
    else [] in
  let captureLeft := mkPos (x - 1) (y + direction) in
  let captureRight := mkPos (x + 1) (y + direction) in
  forward ++
  filter (fun pos => isValidPosition pos && enemyAt board piece pos = true)
    [captureLeft; captureRight].

Definition getKnightMoves (piece : Piece) (board : Board) : list Position :=
  let x := px (position piece) in
  let y := py (position piece) in
  let knightMoves :=
    [ mkPos (x + 2) (y + 1); mkPos (x + 2) (y - 1);
      mkPos (x - 2) (y + 1); mkPos (x - 2) (y - 1);
      mkPos (x + 1) (y + 2); mkPos (x + 1) (y - 2);
      mkPos (x - 1) (y + 2); mkPos (x - 1) (y - 2) ] in
  filter (fun pos => isValidPosition pos && emptyOrEnemy board piece pos = true)
    knightMoves.

(** The body of [for (let i = 1; i < 8; i++)] in one direction; [steps]
    is the list of the values of [i] still to come.  [break] ends the
    recursion. *)
Fixpoint castRay (piece : Piece) (board : Board) (dx dy : Z) (steps : list Z)
  : list Position :=
  match steps with
  | [] => []
  | i :: rest =>
      let pos := mkPos (px (position piece) + dx * i)
                       (py (position piece) + dy * i) in
      if negb (isValidPosition pos) then []
      else match cell board pos with
           | None => pos :: castRay piece board dx dy rest
           | Some targetPiece =>
               if bool_decide (team targetPiece ≠ team piece) then [pos] else []
           end
  end.

Definition raySteps : list Z := [1; 2; 3; 4; 5; 6; 7].

Definition getDiagonalMoves (piece : Piece) (board : Board) : list Position :=
  flat_map (fun d => castRay piece board (fst d) (snd d) raySteps)
    [(1, 1); (1, -1); (-1, 1); (-1, -1)].

Definition getStraightMoves (piece : Piece) (board : Board) : list Position :=
  flat_map (fun d => castRay piece board (fst d) (snd d) raySteps)
    [(0, 1); (0, -1); (1, 0); (-1, 0)].

Definition getBishopMoves (piece : Piece) (board : Board) : list Position :=
  getDiagonalMoves piece board.

Definition getRookMoves (piece : Piece) (board : Board) : list Position :=
  getStraightMoves piece board.

Definition getQueenMoves (piece : Piece) (board : Board) : list Position :=
  getStraightMoves piece board ++ getDiagonalMoves piece board.

(** The offsets of the loops [for dx in -1..1: for dy in -1..1] without
    [(0, 0)], in loop order. *)
Definition kingOffsets : list (Z * Z) :=
  [(-1, -1); (-1, 0); (-1, 1); (0, -1); (0, 1); (1, -1); (1, 0); (1, 1)].

Definition getBasicKingMoves (piece : Piece) (board : Board) : list Position :=
  filter (fun pos => isValidPosition pos && emptyOrEnemy board piece pos = true)
    (map (fun d => mkPos (px (position piece) + fst d) (py (position piece) + snd d))
       kingOffsets).

Definition getRawValidMoves (piece : Piece) (board : Board) : list Position :=
  let validMoves :=
    match type piece with
    | PAWN => getPawnMoves piece board
    | KNIGHT => getKnightMoves piece board
    | BISHOP => getBishopMoves piece board
    | ROOK => getRookMoves piece board
    | QUEEN => getQueenMoves piece board
    | KING => getBasicKingMoves piece board
    end in
  filter (fun pos => isValidPosition pos = true) validMoves.

(** The first square, in loop order, that holds a king of [t]. *)
Definition isKingOf (t : Team) (board : Board) (pos : Position) : bool :=
  match cell board pos with
  | Some piece => bool_decide (type piece = KING) && bool_decide (team piece = t)
  | None => false
  end.

Definition findKing (t : Team) (board : Board) : option Position :=
  List.find (isKingOf t board) squares.

(** [piece && piece.team !== team && piece.isAlive] and one of its raw
    moves is the king's square. *)
Definition attacks (t : Team) (board : Board) (kingPosition pos : Position) : bool :=
  match cell board pos with
  | Some piece =>
      bool_decide (team piece ≠ t) && isAlive piece &&
      existsb (fun move => positionsEqual move kingPosition)
        (getRawValidMoves piece board)
  | None => false
  end.

Definition isKingInCheck (t : Team) (board : Board) : bool :=
  match findKing t board with
  | None => false
  | Some kingPosition => existsb (attacks t board kingPosition) squares
  end.

(** The scratch copy of [wouldMoveResultInCheck]. *)
Definition simulateMove (piece : Piece) (to : Position) (board : Board) : Board :=
  setCell (setCell board to (Some (withPosition piece to))) (position piece) None.

Definition wouldMoveResultInCheck (piece : Piece) (to : Position) (board : Board)
  : bool :=
  isKingInCheck (team piece) (simulateMove piece to board).

Definition rookFor (king : Piece) (board : Board) (corner : Position) : bool :=
  match cell board corner with
  | Some rook =>
      bool_decide (type rook = ROOK) && bool_decide (team rook = team king) &&
      negb (hasMoved rook)
  | None => false
  end.

Definition getCastlingMoves (king : Piece) (board : Board) : list Position :=
  let y := py (position king) in
  (if rookFor king board (mkPos 7 y) &&
      (isEmpty board (mkPos 5 y) && isEmpty board (mkPos 6 y)) &&
      (negb (wouldMoveResultInCheck king (mkPos 5 y) board) &&
       negb (wouldMoveResultInCheck king (mkPos 6 y) board))
   then [mkPos 6 y] else []) ++
  (if rookFor king board (mkPos 0 y) &&
      (isEmpty board (mkPos 1 y) && isEmpty board (mkPos 2 y) &&
       isEmpty board (mkPos 3 y)) &&
      (negb (wouldMoveResultInCheck king (mkPos 3 y) board) &&
       negb (wouldMoveResultInCheck king (mkPos 2 y) board))
   then [mkPos 2 y] else []).

Definition getKingMoves (piece : Piece) (board : Board) : list Position :=
  getBasicKingMoves piece board ++
  (if negb (hasMoved piece) && negb (isKingInCheck (team piece) board)
   then getCastlingMoves piece board else []).

Definition getValidMoves (piece : Piece) (board : Board) : list Position :=
  let validMoves :=
    match type piece with
    | PAWN => getPawnMoves piece board
    | KNIGHT => getKnightMoves piece board
    | BISHOP => getBishopMoves piece board
    | ROOK => getRookMoves piece board
    | QUEEN => getQueenMoves piece board
    | KING => getKingMoves piece board
    end in
  filter (fun pos =>
            isValidPosition pos && negb (wouldMoveResultInCheck piece pos board) = true)
    validMoves.

Definition isMoveValid (piece : Piece) (to : Position) (board : Board) : bool :=
  existsb (fun move => positionsEqual move to) (getValidMoves piece board).

Definition isCastlingMove (king : Piece) (to : Position) : bool :=
  bool_decide (type king = KING) &&
  (Z.abs (px to - px (position king)) =? 2).

(** [executeCastling] on a grid held by value: the rook is a fresh copy
    with its position and [hasMoved] set. *)
Definition executeCastling (king : Piece) (to : Position) (board : Board) : Board :=
  let isKingside := px (position king) <? px to in
  let rookFromX := if isKingside then 7 else 0 in
  let rookToX := if isKingside then 5 else 3 in
  let y := py (position king) in
  match cell board (mkPos rookFromX y) with
  | Some rook =>
      setCell (setCell board (mkPos rookToX y) (Some (movedTo rook (mkPos rookToX y))))
        (mkPos rookFromX y) None
  | None => board
  end.

(** A living piece of [t] on [pos] with at least one legal move. *)
Definition canMove (t : Team) (board : Board) (pos : Position) : bool :=
  match cell board pos with
  | Some piece =>
      bool_decide (team piece = t) && isAlive piece &&
      (0 <? Z.of_nat (length (getValidMoves piece board)))
  | None => false
  end.

Definition isCheckmate (t : Team) (board : Board) : bool :=
  if negb (isKingInCheck t board) then false
  else negb (existsb (canMove t board) squares).

Definition isStalemate (t : Team) (board : Board) : bool :=
  if isKingInCheck t board then false
  else negb (existsb (canMove t board) squares).

Definition isOnDiagonal (pos1 pos2 : Position) : bool :=
  let dx := Z.abs (px pos1 - px pos2) in
  let dy := Z.abs (py pos1 - py pos2) in
  (dx =? dy) && (0 <? dx).

Definition isOnStraightLine (pos1 pos2 : Position) : bool :=
  ((px pos1 =? px pos2) && negb (py pos1 =? py pos2)) ||
  ((py pos1 =? py pos2) && negb (px pos1 =? px pos2)).

(** *** The grids of a game

    Three properties of every grid that [createInitialBoard] builds and
    the moves keep: it has 8 rows of 8 cells; the [position] of a piece
    is the square it stands on; a team has at most one king.  They are
    boolean so that they can be evaluated on a given grid. *)
Definition wellFormed (board : Board) : bool :=
  (length board =? 8)%nat && forallb (fun row => (length row =? 8)%nat) board.

Definition consistent (board : Board) : bool :=
  forallb (fun pos => match cell board pos with
                      | Some piece => positionsEqual (position piece) pos
                      | None => true
                      end) squares.

Definition oneKing (t : Team) (board : Board) : bool :=
  forallb (fun pos1 =>
    forallb (fun pos2 =>
      negb (isKingOf t board pos1 && isKingOf t board pos2)
      || positionsEqual pos1 pos2) squares) squares.

End Rules.
End ChessRules.

(** ** ChessAI.ts *)

(** A JavaScript number that may be infinite: the bounds [alpha] and
    [beta] and the running best score start at [-Infinity]/[Infinity].
    Every finite double is a rational, so a score is a [Q]. *)
Inductive Num := NegInfinity | Finite (q : Q) | Infinity.

Definition num_le (a b : Num) : bool :=
  match a, b with
  | NegInfinity, _ => true
  | _, Infinity => true
  | Finite p, Finite q => Qle_bool p q
  | _, _ => false
  end.

Definition num_lt (a b : Num) : bool := negb (num_le b a).

Definition num_max (a b : Num) : Num := if num_le a b then b else a.

Definition num_min (a b : Num) : Num := if num_le a b then a else b.

Module ChessAI.

Abbreviation Piece := (PieceOf PieceStats).
Abbreviation Board := (BoardOf PieceStats).

Import ChessRules.

Record AIMove := mkAIMove {
  from : Position;
  to : Position;
  score : Q;
  piece : Piece
}.

Record BoardEvaluation := mkEvaluation {
  eval_score : Q;
  isGameOver : bool;
  winner : option Team
}.

(** The object's two fields; [difficulty] is the value of the enum
    [AIDifficulty] (EASY = 1, MEDIUM = 3, HARD = 5, EXPERT = 7). *)
Record ChessAI := mkAI {
  difficulty : nat;
  aiTeam : Team
}.

Definition EASY : nat := 1.
Definition MEDIUM : nat := 3.
Definition HARD : nat := 5.
Definition EXPERT : nat := 7.

Definition PIECE_VALUES (t : PieceType) : Z :=
  match t with
  | PAWN => 100
  | KNIGHT => 320
  | BISHOP => 330
  | ROOK => 500
  | QUEEN => 900
  | KING => 20000
  end.

Definition POSITION_BONUSES (t : PieceType) : option (list (list Z)) :=
  match t with
  | PAWN => Some
      [ [0;  0;  0;  0;  0;  0;  0;  0];
        [50; 50; 50; 50; 50; 50; 50; 50];
        [10; 10; 20; 30; 30; 20; 10; 10];
        [5;  5; 10; 25; 25; 10;  5;  5];
        [0;  0;  0; 20; 20;  0;  0;  0];
        [5; -5;-10;  0;  0;-10; -5;  5];
        [5; 10; 10;-20;-20; 10; 10;  5];
        [0;  0;  0;  0;  0;  0;  0;  0] ]
  | KNIGHT => Some
      [ [-50;-40;-30;-30;-30;-30;-40;-50];
        [-40;-20;  0;  0;  0;  0;-20;-40];
        [-30;  0; 10; 15; 15; 10;  0;-30];
        [-30;  5; 15; 20; 20; 15;  5;-30];
        [-30;  0; 15; 20; 20; 15;  0;-30];
        [-30;  5; 10; 15; 15; 10;  5;-30];
        [-40;-20;  0;  5;  5;  0;-20;-40];
        [-50;-40;-30;-30;-30;-30;-40;-50] ]
  | _ => None
  end.

Definition opposite (t : Team) : Team :=
  match t with WHITE => BLACK | BLACK => WHITE end.

(** [getAllPossibleMoves(board, team)]; the moves of a piece follow each
    other in the order of [getValidMoves], pieces in loop order. *)
Definition getAllPossibleMoves (board : Board) (t : Team) : list AIMove :=
  flat_map (fun pos =>
    match cell board pos with
    | Some p =>
        if bool_decide (team p = t) && isAlive p
        then map (fun dest => mkAIMove (position p) dest 0%Q p)
               (getValidMoves p board)
        else []
    | None => []
    end) squares.

Definition makeMove (board : Board) (move : AIMove) : Board :=
  match cell board (from move) with
  | Some p =>
      let newBoard :=
        if isCastlingMove p (to move)
        then executeCastling p (to move) board else board in
      setCell (setCell newBoard (to move) (Some (movedTo p (to move))))
        (from move) None
  | None => board
  end.

(** [bonusTable[adjustedY]?.[x] || 0] *)
Definition getPositionBonus (p : Piece) (x y : Z) : Z :=
  match POSITION_BONUSES (type p) with
  | None => 0
  | Some bonusTable =>
      let adjustedY := if bool_decide (team p = WHITE) then 7 - y else y in
      default 0 (row ← bonusTable !! Z.to_nat adjustedY; row !! Z.to_nat x)
  end.

Definition evaluateKingSafety (self : ChessAI) (board : Board) : Z :=
  fold_left (fun acc pos =>
    match cell board pos with
    | Some p =>
        if bool_decide (type p = KING)
        then let safetyScore := if isKingInCheck (team p) board then -50 else 10 in
             if bool_decide (team p = aiTeam self)
             then acc + safetyScore else acc - safetyScore
        else acc
    | None => acc
    end) squares 0.

(** [whitePawns[x]] or [blackPawns[x]]: the pawns of [t] in file [x]. *)
Definition isPawnOf (board : Board) (t : Team) (pos : Position) : bool :=
  match cell board pos with
  | Some p => bool_decide (type p = PAWN) && bool_decide (team p = t)
  | None => false
  end.

Definition pawnsInFile (board : Board) (t : Team) (x : Z) : Z :=
  Z.of_nat (length (filter (fun y => isPawnOf board t (mkPos x y) = true) indices)).

Definition evaluatePawnStructure (self : ChessAI) (board : Board) : Z :=
  let sc := fold_left (fun acc x =>
    let w := pawnsInFile board WHITE x in
    let b := pawnsInFile board BLACK x in
    let acc1 := if 1 <? w then acc - 10 * (w - 1) else acc in
    if 1 <? b then acc1 + 10 * (b - 1) else acc1) indices 0 in
  if bool_decide (aiTeam self = WHITE) then sc else - sc.

Definition evaluateControl (self : ChessAI) (board : Board) : Z :=
  let whiteMoves := Z.of_nat (length (getAllPossibleMoves board WHITE)) in
  let blackMoves := Z.of_nat (length (getAllPossibleMoves board BLACK)) in
  let mobilityScore := (whiteMoves - blackMoves) * 2 in
  if bool_decide (aiTeam self = WHITE) then mobilityScore else - mobilityScore.

(** The material loop of [evaluateBoard]: the running score and the two
    king flags.  [hpRatio] is the one division of the engine; it is exact
    here and rounded in the source. *)
Definition materialStep (acc : Q * bool * bool) (pos : Position) (board : Board)
  : Q * bool * bool :=
  let '(sc, whiteKing, blackKing) := acc in
  match cell board pos with
  | Some p =>
      if isAlive p then
        let totalValue := PIECE_VALUES (type p) + getPositionBonus p (px pos) (py pos) in
        let hpRatio := (inject_Z (currentHp (stats p)) / inject_Z (maxHp (stats p)))%Q in
        let statBonus :=
          (inject_Z (attackPower (stats p) + defense (stats p)) * hpRatio)%Q in
        if bool_decide (team p = WHITE)
        then ((sc + inject_Z totalValue + statBonus)%Q,
              whiteKing || bool_decide (type p = KING), blackKing)
        else ((sc - inject_Z totalValue - statBonus)%Q,
              whiteKing, blackKing || bool_decide (type p = KING))
      else acc
  | None => acc
  end.

Definition evaluateBoard (self : ChessAI) (board : Board) : BoardEvaluation :=
  let '(material, whiteKing, blackKing) :=
    fold_left (fun acc pos => materialStep acc pos board) squares (0%Q, false, false) in
  let '(sc, over, win) :=
    if negb whiteKing then (material, true, Some BLACK)
    else if negb blackKing then (material, true, Some WHITE)
    else if isCheckmate WHITE board then ((material - 50000)%Q, true, Some BLACK)
    else if isCheckmate BLACK board then ((material + 50000)%Q, true, Some WHITE)
    else if isStalemate WHITE board || isStalemate BLACK board
         then (0%Q, true, None)
    else (material, false, None) in
  let sc := if bool_decide (aiTeam self = BLACK) then (- sc)%Q else sc in
  let sc := (sc + inject_Z (evaluateKingSafety self board)
                + inject_Z (evaluatePawnStructure self board)
                + inject_Z (evaluateControl self board))%Q in
  mkEvaluation sc over win.

(** The division of [evaluateBoard] is by a positive number on every
    square: where [maxHp] is 0 the source computes with [NaN] or an
    infinity. *)
Definition positiveMaxHp (board : Board) : bool :=
  forallb (fun pos => match cell board pos with
                      | Some p => 0 <? maxHp (stats p)
                      | None => true
                      end) squares.

(** A grid given by the pieces on it, each put on the square of its
    [position]; for writing down the grids of examples. *)
Definition emptyBoard : Board := replicate 8 (replicate 8 None).

Definition boardOf (pieces : list Piece) : Board :=
  fold_left (fun b p => setCell b (position p) (Some p)) pieces emptyBoard.

(** A piece as [createPiece] makes it, with the default stats of its type
    and given hit points. *)
Definition pieceAt (t : PieceType) (tm : Team) (x y hp : Z) : Piece :=
  mkPiece "" t tm (mkPos x y)
    (match t with
     | PAWN => mkStats 50 hp 100 100 20 5 3 5 5 50 None None
     | KNIGHT => mkStats 75 hp 100 100 30 8 6 8 15 75 None None
     | BISHOP => mkStats 70 hp 100 100 25 6 4 20 10 60 None None
     | ROOK => mkStats 100 hp 100 100 35 12 2 5 8 80 None None
     | QUEEN => mkStats 120 hp 100 100 40 10 5 25 20 90 None None
     | KING => mkStats 150 hp 100 100 30 15 3 15 12 70 None None
     end)
    false true 1 [] 0.

Definition withScore (move : AIMove) (s : Q) : AIMove :=
  mkAIMove (from move) (to move) s (piece move).

(** [minimax].  [depth] counts down to 0, so it is the structural
    argument.  The two loops are written out with their [break]; the
    recursive call is made and bound to [childMove] as in the source. *)
Fixpoint minimax (self : ChessAI) (depth : nat) (board : Board)
    (alpha beta : Num) (maximizing : bool) {struct depth} : option AIMove :=
  match depth with
  | O => None
  | Datatypes.S depth' =>
      let currentTeam := if maximizing then aiTeam self else opposite (aiTeam self) in
      let moves := getAllPossibleMoves board currentTeam in
      if maximizing then
        (fix loop (moves : list AIMove) (alpha : Num) (maxScore : Num)
                  (bestMove : option AIMove) {struct moves} : option AIMove :=
           match moves with
           | [] => bestMove
           | move :: rest =>
               let newBoard := makeMove board move in
               let childMove := minimax self depth' newBoard alpha beta false in
               let sc := eval_score (evaluateBoard self newBoard) in
               let better := num_lt maxScore (Finite sc) in
               let maxScore := if better then Finite sc else maxScore in
               let bestMove := if better then Some (withScore move sc) else bestMove in
               let alpha := num_max alpha (Finite sc) in
               if num_le beta alpha then bestMove
               else loop rest alpha maxScore bestMove
           end) moves alpha NegInfinity None
      else
        (fix loop (moves : list AIMove) (beta : Num) (minScore : Num)
                  (bestMove : option AIMove) {struct moves} : option AIMove :=
           match moves with
           | [] => bestMove
           | move :: rest =>
               let newBoard := makeMove board move in
               let childMove := minimax self depth' newBoard alpha beta true in
               let sc := eval_score (evaluateBoard self newBoard) in
               let better := num_lt (Finite sc) minScore in
               let minScore := if better then Finite sc else minScore in
               let bestMove := if better then Some (withScore move sc) else bestMove in
               let beta := num_min beta (Finite sc) in
               if num_le beta alpha then bestMove
               else loop rest beta minScore bestMove
           end) moves beta Infinity None
  end.

(** The iterative deepening of [getBestMove].  [clock] holds the values
    [Date.now() - startTime] read by the successive loop tests; the test
    reads the clock only when [depth <= this.difficulty]. *)
Fixpoint deepen (self : ChessAI) (board : Board) (clock : list Z)
    (depth fuel : nat) (bestMove : option AIMove) : option AIMove :=
  match fuel, clock with
  | Datatypes.S fuel', elapsed :: clock' =>
      if elapsed <? 5000 then
        let result := minimax self depth board NegInfinity Infinity true in
        let bestMove := match result with Some r => Some r | None => bestMove end in
        deepen self board clock' (Datatypes.S depth) fuel' bestMove
      else bestMove
  | _, _ => bestMove
  end.

(** [getBestMove]; [random] holds the values of the two calls of
    [Math.random()], as a rational in [0, 1). *)
Definition getBestMove (self : ChessAI) (board : Board) (clock : list Z)
    (random : Q * Q) : option AIMove :=
  let bestMove := deepen self board clock 1 (difficulty self) None in
  match bestMove with
  | Some _ =>
      if (difficulty self <=? MEDIUM)%nat then
        let allMoves := getAllPossibleMoves board (aiTeam self) in
        if (0 <? length allMoves)%nat && negb (Qle_bool (3 # 10) (fst random))
        then
          let k := Qfloor (snd random * inject_Z (Z.of_nat (length allMoves))) in
          match allMoves !! Z.to_nat k with
          | Some randomMove => Some randomMove
          | None => None
          end
        else bestMove
      else bestMove
  | None => None
  end.

(** *** The search as the specification words it

    For comparison with [minimax]: the value of a position searched
    [depth] plies deep is its static evaluation at a leaf (no depth left,
    or no move), and otherwise the maximum (the AI to move) or the
    minimum (the opponent to move) of the values of the positions after
    each move.  The score of a candidate move of the AI at the root of a
    search of depth [d + 1] is [backedUpValue self d] of the position
    after it, with the opponent to move. *)
Definition Qmax' (a b : Q) : Q := if Qle_bool a b then b else a.

Definition Qmin' (a b : Q) : Q := if Qle_bool a b then a else b.

Fixpoint backedUpValue (self : ChessAI) (depth : nat) (board : Board)
    (maximizing : bool) : Q :=
  match depth with
  | O => eval_score (evaluateBoard self board)
  | Datatypes.S depth' =>
      let currentTeam := if maximizing then aiTeam self else opposite (aiTeam self) in
      match getAllPossibleMoves board currentTeam with
      | [] => eval_score (evaluateBoard self board)
      | move :: rest =>
          fold_left
            (fun best m =>
               let v := backedUpValue self depth' (makeMove board m) (negb maximizing) in
               if maximizing then Qmax' best v else Qmin' best v)
            rest
            (backedUpValue self depth' (makeMove board move) (negb maximizing))
      end
  end.

(** A position with Black (the side [startAIGame] gives the AI) to move:
    the black queen on d7 can take the white pawn on d4, which the pawn
    on c3 defends. *)
Definition defendedPawn : Board :=
  boardOf [ pieceAt KING BLACK 4 0 150; pieceAt QUEEN BLACK 3 1 120;
            pieceAt PAWN WHITE 3 4 50; pieceAt PAWN WHITE 2 5 50;
            pieceAt KING WHITE 4 7 150 ].

(** A position in which White may castle on the king's side. *)
Definition castlingReady : Board :=
  boardOf [ pieceAt KING BLACK 4 0 150; pieceAt KING WHITE 4 7 150;
            pieceAt ROOK WHITE 7 7 100 ].

(** A middle game with a piece of every type: the white queen on d4 faces
    the black rook on d7 along an open file, and the white pawn on e2 can
    take the black pawn on f3. *)
Definition skirmish : Board :=
  boardOf [ pieceAt KING BLACK 4 0 150; pieceAt ROOK BLACK 3 1 100;
            pieceAt PAWN BLACK 5 5 50; pieceAt QUEEN WHITE 3 4 120;
            pieceAt PAWN WHITE 4 6 50; pieceAt BISHOP WHITE 2 7 70;
            pieceAt KING WHITE 4 7 150; pieceAt KNIGHT WHITE 6 7 75 ].

End ChessAI.

(** ** abilities.types.ts *)

Inductive AbilityType := ACTIVE | PASSIVE | ULTIMATE.

Inductive TargetType := SELF | ALLY | ENEMY | EMPTY_SQUARE | ANY_SQUARE | AOE.

Inductive StatusEffectType := BUFF | DEBUFF | DOT | HOT.

(** The tag [type] of an [AbilityEffect]. *)
Inductive EffectKind :=
  damageEffect | healEffect | buffEffect | debuffEffect | teleportEffect
| summonEffect | transformEffect.

#[global] Instance TargetType_eq_dec : EqDecision TargetType.
Proof. solve_decision. Defined.

#[global] Instance StatusEffectType_eq_dec : EqDecision StatusEffectType.
Proof. solve_decision. Defined.

#[global] Instance EffectKind_eq_dec : EqDecision EffectKind.
Proof. solve_decision. Defined.

(** [StatusEffect]; the source's [id], [name], [type] are prefixed.  The
    optional callbacks [onApply], [onRemove], [onTurnStart], [onTurnEnd]
    are set by no status effect of the repository and are absent here;
    [description] and [icon] are display data. *)
Record StatusEffect := mkStatusEffect {
  effectId : string;
  effectName : string;
  effectType : StatusEffectType;
  duration : Z;
  value : Z;
  stackable : bool
}.

(** [AbilityEffect]; [type] is [kind], [value] is [amount]. *)
Record AbilityEffect := mkEffect {
  kind : EffectKind;
  amount : option Z;
  statusEffect : option StatusEffect;
  areaOfEffect : option Z
}.

(** [Ability]; the functions [canTarget] and [execute] are constant in
    every ability of the repository and called by nothing. *)
Record Ability := mkAbility {
  abilityId : string;
  abilityName : string;
  abilityType : AbilityType;
  manaCost : Z;
  cooldown : Z;
  currentCooldown : option Z;
  range : Z;
  targetType : TargetType;
  effects : list AbilityEffect;
  levelRequirement : Z
}.

(** ** The heap

    One store per kind of object the source updates in place.  A location
    is an index into its store; allocation appends.  A grid is the list
    of the locations of its rows (the outer array is never updated, its
    rows are). *)
Record Heap := mkHeap {
  rowsH : list (list (option loc));
  piecesH : list (PieceOf loc);
  statsH : list PieceStats;
  abilitiesH : list Ability;
  effectArraysH : list (list loc);
  effectsH : list StatusEffect
}.

Abbreviation Grid := (list loc).

(** Access to one store of the heap. *)
Record Lens (A : Type) := mkLens {
  view : Heap -> list A;
  over : (list A -> list A) -> Heap -> Heap
}.

Arguments mkLens {A}.
Arguments view {A}.
Arguments over {A}.

Definition rowsL : Lens (list (option loc)) :=
  mkLens rowsH (fun f h =>
    mkHeap (f (rowsH h)) (piecesH h) (statsH h) (abilitiesH h)
      (effectArraysH h) (effectsH h)).

Definition piecesL : Lens (PieceOf loc) :=
  mkLens piecesH (fun f h =>
    mkHeap (rowsH h) (f (piecesH h)) (statsH h) (abilitiesH h)
      (effectArraysH h) (effectsH h)).

Definition statsL : Lens PieceStats :=
  mkLens statsH (fun f h =>
    mkHeap (rowsH h) (piecesH h) (f (statsH h)) (abilitiesH h)
      (effectArraysH h) (effectsH h)).

Definition abilitiesL : Lens Ability :=
  mkLens abilitiesH (fun f h =>
    mkHeap (rowsH h) (piecesH h) (statsH h) (f (abilitiesH h))
      (effectArraysH h) (effectsH h)).

Definition effectArraysL : Lens (list loc) :=
  mkLens effectArraysH (fun f h =>
    mkHeap (rowsH h) (piecesH h) (statsH h) (abilitiesH h)
      (f (effectArraysH h)) (effectsH h)).

Definition effectsL : Lens StatusEffect :=
  mkLens effectsH (fun f h =>
    mkHeap (rowsH h) (piecesH h) (statsH h) (abilitiesH h)
      (effectArraysH h) (f (effectsH h))).

(** Code that reads and updates the heap.  [None]: the source throws a
    [TypeError] (a row that does not exist is indexed), or the call leaves
    the fragment modelled here (a write outside the columns of a row,
    which in JavaScript grows the array; a grid with fewer than 8 rows
    handed to the rules). *)
Definition M (A : Type) : Type := Heap -> option (A * Heap).

Definition ret {A} (a : A) : M A := fun h => Some (a, h).

Definition bind {A B} (m : M A) (k : A -> M B) : M B :=
  fun h => match m h with
           | Some (a, h') => k a h'
           | None => None
           end.

Definition throw {A} : M A := fun _ => None.

Declare Scope heap_scope.
Delimit Scope heap_scope with heap.
Notation "x <- m ;; k" := (bind m (fun x => k))
  (at level 100, m at next level, right associativity) : heap_scope.
Notation "m ;;; k" := (bind m (fun _ => k))
  (at level 100, right associativity) : heap_scope.

Local Open Scope heap_scope.

Definition load {A} (L : Lens A) (l : loc) : M A :=
  fun h => match view L h !! l with
           | Some v => Some (v, h)
           | None => None
           end.

Definition store {A} (L : Lens A) (l : loc) (v : A) : M unit :=
  fun h => match view L h !! l with
           | Some _ => Some (tt, over L (fun s => <[l := v]> s) h)
           | None => None
           end.

Definition alloc {A} (L : Lens A) (v : A) : M loc :=
  fun h => Some (length (view L h), over L (fun s => s ++ [v]) h).

Fixpoint mapM {A B} (f : A -> M B) (l : list A) : M (list B) :=
  match l with
  | [] => ret []
  | a :: rest => b <- f a ;; bs <- mapM f rest ;; ret (b :: bs)
  end.

(** A loop whose body updates an accumulator. *)
Fixpoint foldM {A B} (f : B -> A -> M B) (l : list A) (acc : B) : M B :=
  match l with
  | [] => ret acc
  | a :: rest => acc' <- f acc a ;; foldM f rest acc'
  end.

(** [board[pos.y]]: the row, or a [TypeError] when read further. *)
Definition rowOf (board : Grid) (pos : Position) : M loc :=
  if 0 <=? py pos
  then match board !! Z.to_nat (py pos) with
       | Some r => ret r
       | None => throw
       end
  else throw.

(** [board[pos.y][pos.x]] *)
Definition readCell (board : Grid) (pos : Position) : M (option loc) :=
  r <- rowOf board pos ;;
  row <- load rowsL r ;;
  ret (if 0 <=? px pos then mjoin (row !! Z.to_nat (px pos)) else None).

(** [board[pos.y][pos.x] = v] *)
Definition writeCell (board : Grid) (pos : Position) (v : option loc) : M unit :=
  r <- rowOf board pos ;;
  row <- load rowsL r ;;
  if (0 <=? px pos) && (px pos <? Z.of_nat (length row))
  then store rowsL r (<[Z.to_nat (px pos) := v]> row)
  else throw.

(** [board.map((row) => [...row])] *)
Definition copyBoard (board : Grid) : M Grid :=
  mapM (fun r => row <- load rowsL r ;; alloc rowsL row) board.

(** What the rules read of a grid: its pieces, one level deep. *)
Definition derefRow (row : list (option loc)) : M (list (option (PieceOf loc))) :=
  mapM (fun c => match c with
                 | Some l => p <- load piecesL l ;; ret (Some p)
                 | None => ret None
                 end) row.

Definition derefBoard (board : Grid) : M (BoardOf loc) :=
  if (length board <? 8)%nat then throw
  else mapM (fun r => row <- load rowsL r ;; derefRow row) board.

(** A piece together with its stats, as the AI's evaluation reads it. *)
Definition snapshotPiece (l : loc) : M (PieceOf PieceStats) :=
  p <- load piecesL l ;;
  s <- load statsL (stats p) ;;
  ret (mkPiece (id p) (type p) (team p) (position p) s (hasMoved p)
         (isAlive p) (level p) (abilities p) (statusEffects p)).

Definition snapshotBoard (board : Grid) : M (BoardOf PieceStats) :=
  if (length board <? 8)%nat then throw
  else mapM (fun r =>
         row <- load rowsL r ;;
         mapM (fun c => match c with
                        | Some l => p <- snapshotPiece l ;; ret (Some p)
                        | None => ret None
                        end) row) board.

(** Field updates of the objects. *)
Definition setCurrentHp (s : PieceStats) (hp : Z) : PieceStats :=
  mkStats (maxHp s) hp (maxMana s) (currentMana s) (attackPower s) (defense s)
    (speed s) (magicPower s) (criticalChance s) (criticalDamage s)
    (tempHp s) (tempHpTurns s).

Definition setCurrentMana (s : PieceStats) (mana : Z) : PieceStats :=
  mkStats (maxHp s) (currentHp s) (maxMana s) mana (attackPower s) (defense s)
    (speed s) (magicPower s) (criticalChance s) (criticalDamage s)
    (tempHp s) (tempHpTurns s).

Definition setTempHp (s : PieceStats) (hp turns : option Z) : PieceStats :=
  mkStats (maxHp s) (currentHp s) (maxMana s) (currentMana s) (attackPower s)
    (defense s) (speed s) (magicPower s) (criticalChance s) (criticalDamage s)
    hp turns.

Definition setIsAlive {S} (p : PieceOf S) (b : bool) : PieceOf S :=
  mkPiece (id p) (type p) (team p) (position p) (stats p) (hasMoved p) b
    (level p) (abilities p) (statusEffects p).

Definition setStats {S T} (p : PieceOf S) (s : T) : PieceOf T :=
  mkPiece (id p) (type p) (team p) (position p) s (hasMoved p) (isAlive p)
    (level p) (abilities p) (statusEffects p).

Definition setStatusEffects {S} (p : PieceOf S) (arr : loc) : PieceOf S :=
  mkPiece (id p) (type p) (team p) (position p) (stats p) (hasMoved p)
    (isAlive p) (level p) (abilities p) arr.

Definition setCurrentCooldown (a : Ability) (c : option Z) : Ability :=
  mkAbility (abilityId a) (abilityName a) (abilityType a) (manaCost a)
    (cooldown a) c (range a) (targetType a) (effects a) (levelRequirement a).

Definition setDuration (e : StatusEffect) (d : Z) : StatusEffect :=
  mkStatusEffect (effectId e) (effectName e) (effectType e) d (value e)
    (stackable e).

(** ** AbilitySystem.ts *)

(** The messages are template strings; each template is a constructor
    that holds what the template interpolates. *)
Inductive Message :=
| Text (s : string)
| Used (caster : PieceType) (ability : string)
| WasDefeated (target : PieceType)
| TookDamage (target : PieceType) (actualDamage : Z)
| RecoveredHp (target : PieceType) (actualHeal : Z)
| AffectedBy (target : PieceType) (effect : string)
| Teleported (caster : PieceType)
| TakesDamageFrom (piece : PieceType) (v : Z) (effect : string)
| DefeatedBy (piece : PieceType) (effect : string)
| RecoversFrom (piece : PieceType) (healed : Z) (effect : string)
| WornOff (effect : string) (piece : PieceType).

Module AbilitySystem.

Record CanUse := mkCanUse { canUse : bool; reason : option string }.

Definition canUseAbility (piece : PieceOf PieceStats) (ability : Ability) : CanUse :=
  if negb (isAlive piece) then mkCanUse false (Some "Piece is not alive"%string)
  else if currentMana (stats piece) <? manaCost ability
       then mkCanUse false (Some "Not enough mana"%string)
  else if match currentCooldown ability with
          | Some c => negb (c =? 0) && (0 <? c)
          | None => false
          end
       then mkCanUse false (Some "Ability is on cooldown"%string)
  else if level piece <? levelRequirement ability
       then mkCanUse false (Some "Level requirement not met"%string)
  else mkCanUse true None.

Definition getDistance (pos1 pos2 : Position) : Z :=
  Z.max (Z.abs (px pos1 - px pos2)) (Z.abs (py pos1 - py pos2)).

Definition isValidTarget {S} (caster : PieceOf S) (ability : Ability)
    (targetPos : Position) (board : BoardOf S) : bool :=
  if negb (isValidPosition targetPos) then false
  else if range ability <? getDistance (position caster) targetPos then false
  else
    let targetPiece := ChessRules.cell board targetPos in
    match targetType ability with
    | SELF => positionsEqual (position caster) targetPos
    | ALLY =>
        match targetPiece with
        | Some t => bool_decide (team t = team caster) && isAlive t
        | None => false
        end
    | ENEMY =>
        match targetPiece with
        | Some t => bool_decide (team t ≠ team caster) && isAlive t
        | None => false
        end
    | EMPTY_SQUARE => match targetPiece with None => true | Some _ => false end
    | ANY_SQUARE => true
    | AOE => true
    end.

Definition getValidTargets {S} (caster : PieceOf S) (ability : Ability)
    (board : BoardOf S) : list Position :=
  filter (fun targetPos => isValidTarget caster ability targetPos board = true)
    squares.

Record AbilityResult := mkResult {
  success : bool;
  board : Grid;
  messages : list Message;
  affectedPieces : list loc
}.

(** The two arrays [messages] and [affectedPieces] that the effect
    handlers append to. *)
Abbreviation Out := (list Message * list loc)%type.

Definition say (out : Out) (m : Message) : Out := (fst out ++ [m], snd out).

Definition affect (out : Out) (l : loc) : Out := (fst out, snd out ++ [l]).

(** The offsets [-radius .. radius] of [getAOETargets]. *)
Definition around (radius : Z) : list Z := seqZ (- radius) (2 * radius + 1).

Definition getAOETargets (centerPos : Position) (radius : Z) (board : Grid)
  : M (list loc) :=
  foldM (fun targets pos =>
           if isValidPosition pos
           then c <- readCell board pos ;;
                ret (match c with Some p => targets ++ [p] | None => targets end)
           else ret targets)
    (flat_map (fun dy => map (fun dx => mkPos (px centerPos + dx) (py centerPos + dy))
                           (around radius)) (around radius))
    [].

(** [effect.areaOfEffect ? getAOETargets(..) : [board[..]].filter(Boolean)] *)
Definition targetsOf (effect : AbilityEffect) (targetPos : Position) (board : Grid)
  : M (list loc) :=
  match areaOfEffect effect with
  | Some radius =>
      if radius =? 0
      then c <- readCell board targetPos ;; ret (option_list c)
      else getAOETargets targetPos radius board
  | None => c <- readCell board targetPos ;; ret (option_list c)
  end.

Definition executeDamageEffect (caster : loc) (effect : AbilityEffect)
    (targetPos : Position) (board : Grid) (out : Out) : M Out :=
  targets <- targetsOf effect targetPos board ;;
  foldM (fun out target =>
    t <- load piecesL target ;;
    c <- load piecesL caster ;;
    if bool_decide (team t = team c) then ret out
    else
      let dmg := default 0 (amount effect) in
      ts <- load statsL (stats t) ;;
      let actualDamage := Z.max 1 (dmg - defense ts) in
      store statsL (stats t)
        (setCurrentHp ts (Z.max 0 (currentHp ts - actualDamage))) ;;;
      ts <- load statsL (stats t) ;;
      out <- (if currentHp ts <=? 0
              then t <- load piecesL target ;;
                   store piecesL target (setIsAlive t false) ;;;
                   writeCell board (position t) None ;;;
                   ret (say out (WasDefeated (type t)))
              else ret (say out (TookDamage (type t) actualDamage))) ;;
      ret (affect out target))
    targets out.

Definition executeHealEffect (caster : loc) (effect : AbilityEffect)
    (targetPos : Position) (board : Grid) (out : Out) : M Out :=
  targets <- targetsOf effect targetPos board ;;
  foldM (fun out target =>
    t <- load piecesL target ;;
    c <- load piecesL caster ;;
    if bool_decide (team t ≠ team c) then ret out
    else
      let healAmount := default 0 (amount effect) in
      ts <- load statsL (stats t) ;;
      let oldHp := currentHp ts in
      store statsL (stats t)
        (setCurrentHp ts (Z.min (maxHp ts) (currentHp ts + healAmount))) ;;;
      ts <- load statsL (stats t) ;;
      let actualHeal := currentHp ts - oldHp in
      if 0 <? actualHeal
      then ret (affect (say out (RecoveredHp (type t) actualHeal)) target)
      else ret out)
    targets out.

(** [target.statusEffects.filter((se) => se.id !== id)] builds a new array. *)
Definition withoutEffect (arr : loc) (eid : string) : M loc :=
  es <- load effectArraysL arr ;;
  kept <- foldM (fun kept e =>
                   se <- load effectsL e ;;
                   ret (if bool_decide (effectId se ≠ eid) then kept ++ [e] else kept))
            es [] ;;
  alloc effectArraysL kept.

Definition executeStatusEffect (caster : loc) (effect : AbilityEffect)
    (targetPos : Position) (board : Grid) (out : Out) : M Out :=
  targets <- targetsOf effect targetPos board ;;
  foldM (fun out target =>
    t <- load piecesL target ;;
    c <- load piecesL caster ;;
    let isBuffForAlly :=
      bool_decide (kind effect = buffEffect) && bool_decide (team t = team c) in
    let isDebuffForEnemy :=
      bool_decide (kind effect = debuffEffect) && bool_decide (team t ≠ team c) in
    if negb isBuffForAlly && negb isDebuffForEnemy then ret out
    else
      match statusEffect effect with
      | Some se =>
          (if negb (stackable se)
           then t <- load piecesL target ;;
                arr <- withoutEffect (statusEffects t) (effectId se) ;;
                store piecesL target (setStatusEffects t arr)
           else ret tt) ;;;
          e <- alloc effectsL se ;;
          t <- load piecesL target ;;
          es <- load effectArraysL (statusEffects t) ;;
          store effectArraysL (statusEffects t) (es ++ [e]) ;;;
          ret (affect (say out (AffectedBy (type t) (effectName se))) target)
      | None => ret out
      end)
    targets out.

Definition executeTeleportEffect (caster : loc) (effect : AbilityEffect)
    (targetPos : Position) (board : Grid) (out : Out) : M Out :=
  c <- load piecesL caster ;;
  writeCell board (position c) None ;;;
  store piecesL caster (ChessRules.withPosition c targetPos) ;;;
  writeCell board targetPos (Some caster) ;;;
  c <- load piecesL caster ;;
  ret (affect (say out (Teleported (type c))) caster).

Definition executeEffect (caster : loc) (targetPos : Position) (newBoard : Grid)
    (out : Out) (effect : AbilityEffect) : M Out :=
  match kind effect with
  | damageEffect => executeDamageEffect caster effect targetPos newBoard out
  | healEffect => executeHealEffect caster effect targetPos newBoard out
  | buffEffect | debuffEffect =>
      executeStatusEffect caster effect targetPos newBoard out
  | teleportEffect => executeTeleportEffect caster effect targetPos newBoard out
  | summonEffect | transformEffect => ret out
  end.

Definition executeAbility (caster : loc) (ability : loc) (targetPos : Position)
    (board : Grid) : M AbilityResult :=
  newBoard <- copyBoard board ;;
  c <- snapshotPiece caster ;;
  a <- load abilitiesL ability ;;
  let canUseCheck := canUseAbility c a in
  if negb (canUse canUseCheck)
  then ret (mkResult false board
              [Text (default "Cannot use ability"%string (reason canUseCheck))] [])
  else
    c <- load piecesL caster ;;
    s <- load statsL (stats c) ;;
    a <- load abilitiesL ability ;;
    store statsL (stats c) (setCurrentMana s (currentMana s - manaCost a)) ;;;
    a <- load abilitiesL ability ;;
    store abilitiesL ability (setCurrentCooldown a (Some (cooldown a))) ;;;
    a <- load abilitiesL ability ;;
    out <- foldM (executeEffect caster targetPos newBoard) (effects a) ([], []) ;;
    c <- load piecesL caster ;;
    a <- load abilitiesL ability ;;
    ret (mkResult true newBoard
           (Used (type c) (abilityName a) :: fst out) (snd out)).

(** One call of the callback that [processStatusEffects] hands to
    [filter]: the messages so far and the effects kept so far. *)
Definition processEffect (piece : loc) (acc : list Message * list loc) (e : loc)
  : M (list Message * list loc) :=
  let '(msgs, kept) := acc in
  eff <- load effectsL e ;;
  p <- load piecesL piece ;;
  msgs <-
    (match effectType eff with
     | DOT =>
         s <- load statsL (stats p) ;;
         store statsL (stats p) (setCurrentHp s (Z.max 0 (currentHp s - value eff))) ;;;
         let msgs := msgs ++ [TakesDamageFrom (type p) (value eff) (effectName eff)] in
         s <- load statsL (stats p) ;;
         if currentHp s <=? 0
         then p <- load piecesL piece ;;
              store piecesL piece (setIsAlive p false) ;;;
              ret (msgs ++ [DefeatedBy (type p) (effectName eff)])
         else ret msgs
     | HOT =>
         s <- load statsL (stats p) ;;
         let oldHp := currentHp s in
         store statsL (stats p)
           (setCurrentHp s (Z.min (maxHp s) (currentHp s + value eff))) ;;;
         s <- load statsL (stats p) ;;
         let healed := currentHp s - oldHp in
         ret (if 0 <? healed
              then msgs ++ [RecoversFrom (type p) healed (effectName eff)]
              else msgs)
     | _ => ret msgs
     end) ;;
  eff <- load effectsL e ;;
  store effectsL e (setDuration eff (duration eff - 1)) ;;;
  eff <- load effectsL e ;;
  if duration eff <=? 0
  then p <- load piecesL piece ;;
       ret (msgs ++ [WornOff (effectName eff) (type p)], kept)
  else ret (msgs, kept ++ [e]).

Definition processStatusEffects (piece : loc) : M (list Message) :=
  p <- load piecesL piece ;;
  es <- load effectArraysL (statusEffects p) ;;
  r <- foldM (processEffect piece) es ([], []) ;;
  arr <- alloc effectArraysL (snd r) ;;
  p <- load piecesL piece ;;
  store piecesL piece (setStatusEffects p arr) ;;;
  ret (fst r).

(** [piece.abilities.filter((ability) => canUseAbility(piece, ability).canUse)] *)
Definition getAvailableAbilities (piece : loc) : M (list loc) :=
  p <- load piecesL piece ;;
  foldM (fun kept ability =>
           c <- snapshotPiece piece ;;
           a <- load abilitiesL ability ;;
           ret (if canUse (canUseAbility c a) then kept ++ [ability] else kept))
    (abilities p) [].

Definition reduceCooldowns (piece : loc) : M unit :=
  p <- load piecesL piece ;;
  foldM (fun _ ability =>
           a <- load abilitiesL ability ;;
           match currentCooldown a with
           | Some c =>
               if negb (c =? 0) && (0 <? c)
               then store abilitiesL ability (setCurrentCooldown a (Some (c - 1)))
               else ret tt
           | None => ret tt
           end)
    (abilities p) tt.

End AbilitySystem.

(** ** gameStore.ts *)

Module GameStore.

Import ChessRules.

(** [Move]; [piece] and [capturedPiece] are the locations of the shallow
    copies [{ ...piece }], which share the stats of the originals. *)
Record Move := mkMove {
  from : Position;
  to : Position;
  piece : loc;
  capturedPiece : option loc;
  damage : option Z;
  timestamp : Z
}.

(** The state held by the store.  The maps [pieceStats], [abilities] and
    [cooldowns], [gameMode], [timeRemaining] and the list of visual
    effects are read by nothing modelled here. *)
Record GameStore := mkStore {
  board : Grid;
  currentTurn : Team;
  selectedPiece : option Position;
  validMoves : list Position;
  highlightedSquares : list Position;
  gameState : GameState;
  winner : option Team;
  moveHistory : list Move;
  turnCount : Z;
  ai : option ChessAI.ChessAI;
  isAIThinking : bool
}.

Definition DEFAULT_PIECE_STATS (t : PieceType) : PieceStats :=
  match t with
  | PAWN => mkStats 50 50 100 100 20 5 3 5 5 50 None None
  | KNIGHT => mkStats 75 75 100 100 30 8 6 8 15 75 None None
  | BISHOP => mkStats 70 70 100 100 25 6 4 20 10 60 None None
  | ROOK => mkStats 100 100 100 100 35 12 2 5 8 80 None None
  | QUEEN => mkStats 120 120 100 100 40 10 5 25 20 90 None None
  | KING => mkStats 150 150 100 100 30 15 3 15 12 70 None None
  end.

(** [PIECE_ABILITIES]: the twelve ability objects are created once, when
    the module is loaded, and every piece of a type shares the two of its
    type.  They are the first twelve objects of the ability store. *)
Definition shieldWall : StatusEffect :=
  mkStatusEffect "shield_wall" "Shield Wall" BUFF 3 2 false.

Definition battleCry : StatusEffect :=
  mkStatusEffect "battle_cry" "Battle Cry" BUFF 4 5 false.

Definition fortressMode : StatusEffect :=
  mkStatusEffect "fortress_mode" "Fortress Mode" BUFF 5 10 false.

Definition mindControl : StatusEffect :=
  mkStatusEffect "mind_control" "Mind Control" DEBUFF 2 0 false.

Definition royalInspiration : StatusEffect :=
  mkStatusEffect "royal_inspiration" "Royal Inspiration" BUFF 5 3 false.

Definition abilityObjects : list Ability :=
  [ mkAbility "pawn_charge" "Shield Wall" ACTIVE 20 5 None 0 SELF
      [mkEffect buffEffect None (Some shieldWall) None] 1;
    mkAbility "pawn_heal" "Field Medic" ACTIVE 15 3 None 1 ALLY
      [mkEffect healEffect (Some 25) None None] 3;
    mkAbility "knight_leap" "Lightning Strike" ACTIVE 30 4 None 5 EMPTY_SQUARE
      [mkEffect teleportEffect None None None;
       mkEffect damageEffect (Some 40) None (Some 1)] 1;
    mkAbility "knight_rally" "Battle Cry" ACTIVE 40 6 None 2 AOE
      [mkEffect buffEffect None (Some battleCry) (Some 2)] 5;
    mkAbility "bishop_heal" "Divine Light" ACTIVE 35 4 None 8 ALLY
      [mkEffect healEffect (Some 50) None None] 1;
    mkAbility "bishop_smite" "Holy Smite" ACTIVE 45 5 None 8 ENEMY
      [mkEffect damageEffect (Some 60) None None] 4;
    mkAbility "rook_barrage" "Artillery Barrage" ACTIVE 40 5 None 8 ANY_SQUARE
      [mkEffect damageEffect (Some 35) None None] 1;
    mkAbility "rook_fortress" "Mobile Fortress" ACTIVE 50 8 None 0 SELF
      [mkEffect buffEffect None (Some fortressMode) None] 6;
    mkAbility "queen_teleport" "Royal Decree" ACTIVE 50 6 None 8 ALLY
      [mkEffect teleportEffect None None None] 1;
    mkAbility "queen_dominate" "Mind Control" ULTIMATE 80 10 None 5 ENEMY
      [mkEffect debuffEffect None (Some mindControl) None] 8;
    mkAbility "king_inspire" "Royal Inspiration" ACTIVE 60 8 None 0 AOE
      [mkEffect buffEffect None (Some royalInspiration) (Some 8)] 1;
    mkAbility "king_sanctuary" "Divine Sanctuary" ULTIMATE 100 12 None 3 EMPTY_SQUARE
      [mkEffect healEffect (Some 15) None (Some 1)] 10 ].

Definition PIECE_ABILITIES (t : PieceType) : list loc :=
  match t with
  | PAWN => [0; 1]
  | KNIGHT => [2; 3]
  | BISHOP => [4; 5]
  | ROOK => [6; 7]
  | QUEEN => [8; 9]
  | KING => [10; 11]
  end%nat.

(** The heap when the modules have been loaded. *)
Definition loadedHeap : Heap := mkHeap [] [] [] abilityObjects [] [].

Definition createPiece (i : string) (t : PieceType) (tm : Team) (pos : Position)
  : M loc :=
  s <- alloc statsL (DEFAULT_PIECE_STATS t) ;;
  es <- alloc effectArraysL [] ;;
  alloc piecesL (mkPiece i t tm pos s false true 1 (PIECE_ABILITIES t) es).

Definition typeName (t : PieceType) : string :=
  match t with
  | PAWN => "pawn" | KNIGHT => "knight" | BISHOP => "bishop"
  | ROOK => "rook" | QUEEN => "queen" | KING => "king"
  end.

Definition digit (x : Z) : string :=
  match x with
  | 0 => "0" | 1 => "1" | 2 => "2" | 3 => "3"
  | 4 => "4" | 5 => "5" | 6 => "6" | _ => "7"
  end.

Definition pieceOrder : list PieceType :=
  [ROOK; KNIGHT; BISHOP; QUEEN; KING; BISHOP; KNIGHT; ROOK].

Definition createInitialBoard : M Grid :=
  board <- mapM (fun _ => alloc rowsL (replicate 8 None)) indices ;;
  foldM (fun _ x =>
           b <- createPiece ("black-pawn-" +:+ digit x) PAWN BLACK (mkPos x 1) ;;
           writeCell board (mkPos x 1) (Some b) ;;;
           w <- createPiece ("white-pawn-" +:+ digit x) PAWN WHITE (mkPos x 6) ;;
           writeCell board (mkPos x 6) (Some w))
    indices tt ;;;
  foldM (fun _ xt =>
           let '(x, t) := xt in
           b <- createPiece ("black-" +:+ typeName t +:+ "-" +:+ digit x) t BLACK
                  (mkPos x 0) ;;
           writeCell board (mkPos x 0) (Some b) ;;;
           w <- createPiece ("white-" +:+ typeName t +:+ "-" +:+ digit x) t WHITE
                  (mkPos x 7) ;;
           writeCell board (mkPos x 7) (Some w))
    (zip indices pieceOrder) tt ;;;
  ret board.

Definition initialStore (b : Grid) : GameStore :=
  mkStore b WHITE None [] [] MENU None [] 1 None false.

Definition selectPiece (pos : Position) (state : GameStore) : M GameStore :=
  c <- readCell (board state) pos ;;
  let cleared :=
    mkStore (board state) (currentTurn state) None [] [] (gameState state)
      (winner state) (moveHistory state) (turnCount state) (ai state)
      (isAIThinking state) in
  match c with
  | None => ret cleared
  | Some l =>
      p <- load piecesL l ;;
      if bool_decide (team p ≠ currentTurn state) || negb (isAlive p)
      then ret cleared
      else
        b <- derefBoard (board state) ;;
        let moves := getValidMoves p b in
        ret (mkStore (board state) (currentTurn state) (Some pos) moves moves
               (gameState state) (winner state) (moveHistory state)
               (turnCount state) (ai state) (isAIThinking state))
  end.

(** [executeCastling] on the copied grid of [movePiece]: the rook is a
    new object, the shallow copy of the old one. *)
Definition executeCastling (king : loc) (to : Position) (board : Grid) : M unit :=
  k <- load piecesL king ;;
  let isKingside := px (position k) <? px to in
  let rookFromX := if isKingside then 7 else 0 in
  let rookToX := if isKingside then 5 else 3 in
  let y := py (position k) in
  c <- readCell board (mkPos rookFromX y) ;;
  match c with
  | Some rook =>
      r <- load piecesL rook ;;
      r' <- alloc piecesL (movedTo r (mkPos rookToX y)) ;;
      writeCell board (mkPos rookToX y) (Some r') ;;;
      writeCell board (mkPos rookFromX y) None
  | None => ret tt
  end.

(** The mana regeneration of [endTurn], for one cell. *)
Definition regenerate (newTurn : Team) (c : option loc) : M (option loc) :=
  match c with
  | Some l =>
      p <- load piecesL l ;;
      if bool_decide (team p = newTurn) && isAlive p
      then s <- load statsL (stats p) ;;
           let newMana := Z.min (maxMana s) (currentMana s + 10) in
           s' <- alloc statsL (setCurrentMana s newMana) ;;
           p' <- alloc piecesL (setStats p s') ;;
           ret (Some p')
      else ret (Some l)
  | None => ret None
  end.

(** The temporary-HP countdown of [endTurn], for one cell. *)
Definition tickTempHp (c : option loc) : M (option loc) :=
  match c with
  | Some l =>
      p <- load piecesL l ;;
      s <- load statsL (stats p) ;;
      match tempHpTurns s with
      | Some turns =>
          if negb (turns =? 0) && (0 <? turns)
          then
            let newTempHpTurns := turns - 1 in
            s' <- alloc statsL
                    (if newTempHpTurns <=? 0 then setTempHp s None None
                     else setTempHp s (tempHp s) (Some newTempHpTurns)) ;;
            p' <- alloc piecesL (setStats p s') ;;
            ret (Some p')
          else ret (Some l)
      | None => ret (Some l)
      end
  | None => ret None
  end.

(** [board.map((row) => row.map(f))] *)
Definition mapBoard (f : option loc -> M (option loc)) (board : Grid) : M Grid :=
  mapM (fun r => row <- load rowsL r ;; row' <- mapM f row ;; alloc rowsL row') board.

Definition endTurn (state : GameStore) : M GameStore :=
  let newTurn := ChessAI.opposite (currentTurn state) in
  newBoard <- mapBoard (regenerate newTurn) (board state) ;;
  updatedBoard <- mapBoard tickTempHp newBoard ;;
  ret (mkStore updatedBoard newTurn None [] [] (gameState state) (winner state)
         (moveHistory state) (turnCount state + 1) (ai state)
         (isAIThinking state)).

(** The capture of [movePiece]: the damage recorded in the move. *)
Definition capture (attacker : loc) (targetPiece : option loc) (to : Position)
    (newBoard : Grid) : M (option Z) :=
  match targetPiece with
  | Some target =>
      p <- load piecesL attacker ;;
      ps <- load statsL (stats p) ;;
      let dmg := attackPower ps in
      t <- load piecesL target ;;
      ts <- load statsL (stats t) ;;
      let newHp := currentHp ts - dmg in
      if newHp <=? 0
      then store piecesL target (setIsAlive t false) ;;;
           writeCell newBoard to None ;;;
           ret (Some dmg)
      else store statsL (stats t) (setCurrentHp ts newHp) ;;;
           ret (Some dmg)
  | None => ret None
  end.

(** [movePiece(from, to)]; [now] is the value of [Date.now()].  Sounds,
    visual effects and the timer that starts the AI's reply are outside
    the store's state and left out. *)
Definition movePiece (from to : Position) (now : Z) (state : GameStore)
  : M GameStore :=
  c <- readCell (board state) from ;;
  match c with
  | None => ret state
  | Some pl =>
      p <- load piecesL pl ;;
      b <- derefBoard (board state) ;;
      if negb (isMoveValid p to b) then ret state
      else
        newBoard <- copyBoard (board state) ;;
        targetPiece <- readCell newBoard to ;;
        (if isCastlingMove p to then executeCastling pl to newBoard else ret tt) ;;;
        p <- load piecesL pl ;;
        pieceCopy <- alloc piecesL p ;;
        capturedCopy <- (match targetPiece with
                         | Some tl => t <- load piecesL tl ;;
                                      cp <- alloc piecesL t ;; ret (Some cp)
                         | None => ret None
                         end) ;;
        dmg <- capture pl targetPiece to newBoard ;;
        let move := mkMove from to pieceCopy capturedCopy dmg now in
        p <- load piecesL pl ;;
        store piecesL pl (movedTo p to) ;;;
        writeCell newBoard to (Some pl) ;;;
        writeCell newBoard from None ;;;
        b' <- derefBoard newBoard ;;
        let opposingTeam := ChessAI.opposite (currentTurn state) in
        let win := if isCheckmate opposingTeam b'
                   then Some (currentTurn state) else None in
        endTurn
          (mkStore newBoard (currentTurn state) None [] []
             (match win with Some _ => GAME_OVER | None => gameState state end)
             win (moveHistory state ++ [move]) (turnCount state)
             (ai state) (isAIThinking state))
  end.

(** The search for the caster in [useAbility]: [break] leaves the inner
    loop only, so the piece found in a later row replaces the one found
    in an earlier row. *)
Definition findCaster (pieceId : string) (board : Grid) : M (option loc) :=
  foldM (fun caster y =>
           r <- foldM (fun found x =>
                         match found with
                         | inl l => ret (inl l)
                         | inr prev =>
                             c <- readCell board (mkPos x y) ;;
                             match c with
                             | Some l =>
                                 p <- load piecesL l ;;
                                 ret (if bool_decide (id p = pieceId)
                                      then inl l else inr prev)
                             | None => ret (inr prev)
                             end
                         end) indices (inr caster) ;;
           ret (match r with inl l => Some l | inr prev => prev end))
    indices None.

(** [caster.abilities.find((a) => a.id === abilityId)] *)
Fixpoint findAbility (abilityId' : string) (l : list loc) : M (option loc) :=
  match l with
  | [] => ret None
  | a :: rest =>
      ab <- load abilitiesL a ;;
      if bool_decide (abilityId ab = abilityId') then ret (Some a)
      else findAbility abilityId' rest
  end.

Definition useAbility (pieceId abilityId' : string) (target : option Position)
    (state : GameStore) : M GameStore :=
  caster <- findCaster pieceId (board state) ;;
  match caster with
  | None => ret state
  | Some cl =>
      c <- load piecesL cl ;;
      if bool_decide (team c ≠ currentTurn state) then ret state
      else
        ability <- findAbility abilityId' (abilities c) ;;
        match ability with
        | None => ret state
        | Some al =>
            a <- load abilitiesL al ;;
            match target with
            | None =>
                if bool_decide (targetType a ≠ SELF)
                then
                  b <- derefBoard (board state) ;;
                  let validTargets := AbilitySystem.getValidTargets c a b in
                  ret (mkStore (board state) (currentTurn state)
                         (Some (position c)) (validMoves state) validTargets
                         ABILITY_TARGETING (winner state) (moveHistory state)
                         (turnCount state) (ai state) (isAIThinking state))
                else
                  result <- AbilitySystem.executeAbility cl al (position c)
                              (board state) ;;
                  ret (if AbilitySystem.success result
                       then mkStore (AbilitySystem.board result)
                              (currentTurn state) None [] [] PLAYING
                              (winner state) (moveHistory state)
                              (turnCount state) (ai state) (isAIThinking state)
                       else state)
            | Some targetPos =>
                result <- AbilitySystem.executeAbility cl al targetPos
                            (board state) ;;
                ret (if AbilitySystem.success result
                     then mkStore (AbilitySystem.board result)
                            (currentTurn state) None [] [] PLAYING
                            (winner state) (moveHistory state)
                            (turnCount state) (ai state) (isAIThinking state)
                     else state)
            end
        end
  end.

End GameStore.

(** ** The bounds of the resources

    [inBounds]: the invariant of a piece's stats.  [resourcesOk] adds to
    it, for every object of the heap, that the magnitudes the operations
    subtract or add are not negative: the attack power of a piece, the
    mana cost of an ability, the value of an effect of an ability and of
    a status effect.  Every object that [createInitialBoard] and
    [PIECE_ABILITIES] create satisfies them. *)
Definition inBounds (s : PieceStats) : bool :=
  (0 <=? currentHp s) && (currentHp s <=? maxHp s) &&
  (0 <=? currentMana s) && (currentMana s <=? maxMana s).

Definition saneStats (s : PieceStats) : bool := inBounds s && (0 <=? attackPower s).

Definition saneEffect (e : StatusEffect) : bool := 0 <=? value e.

Definition saneAbilityEffect (e : AbilityEffect) : bool :=
  match amount e with Some v => 0 <=? v | None => true end &&
  match statusEffect e with Some se => saneEffect se | None => true end.

Definition saneAbility (a : Ability) : bool :=
  (0 <=? manaCost a) && forallb saneAbilityEffect (effects a).

Definition allInBounds (h : Heap) : bool := forallb inBounds (statsH h).

Definition resourcesOk (h : Heap) : bool :=
  forallb saneStats (statsH h) && forallb saneAbility (abilitiesH h) &&
  forallb saneEffect (effectsH h).

(** The operations that change hit points or mana. *)
Inductive Operation :=
| MovePiece (from to : Position) (now : Z)
| UseAbility (pieceId abilityId : string) (target : option Position)
| ExecuteAbility (caster ability : loc) (targetPos : Position) (board : Grid)
| ProcessStatusEffects (piece : loc)
| EndTurn.

Definition perform (op : Operation) (state : GameStore.GameStore)
  : M GameStore.GameStore :=
  match op with
  | MovePiece from to now => GameStore.movePiece from to now state
  | UseAbility pieceId abilityId target =>
      GameStore.useAbility pieceId abilityId target state
  | ExecuteAbility caster ability targetPos board =>
      _ <- AbilitySystem.executeAbility caster ability targetPos board ;; ret state
  | ProcessStatusEffects piece =>
      _ <- AbilitySystem.processStatusEffects piece ;; ret state
  | EndTurn => GameStore.endTurn state
  end.

(** [m] keeps the property [P] of the heap, whenever it returns. *)
Definition preserves {A} (P : Heap -> Prop) (m : M A) : Prop :=
  forall h r h', P h -> m h = Some (r, h') -> P h'.

(** ** What an operation leaves as it is *)

(** The mana of every stats object of [S0] is the same in [S]. *)
Definition sameMana (S0 S : list PieceStats) : Prop :=
  forall l s0, S0 !! l = Some s0 ->
               exists s1, S !! l = Some s1 /\ currentMana s1 = currentMana s0.

(** The effect [e] has more than one turn left in the store [E]. *)
Definition outlasts (E : list StatusEffect) (e : loc) : bool :=
  match E !! e with
  | Some eff => 1 <? duration eff
  | None => false
  end.

(** Every object of [h] is in [h'] as it was; new objects may follow. *)
Definition extends (h h' : Heap) : Prop :=
  prefix (rowsH h) (rowsH h') /\ prefix (piecesH h) (piecesH h') /\
  prefix (statsH h) (statsH h') /\ prefix (abilitiesH h) (abilitiesH h') /\
  prefix (effectArraysH h) (effectArraysH h') /\
  prefix (effectsH h) (effectsH h').

(** The object [pl] is the piece [p], whose life flag may have changed,
    and the stats object of [p] is there. *)
Definition stillPiece (pl : loc) (p : PieceOf loc) (h : Heap) : Prop :=
  exists p1 s1,
    piecesH h !! pl = Some p1 /\ setIsAlive p1 true = setIsAlive p true /\
    statsH h !! stats p = Some s1.

(** The cell [pos] of the grid holds the piece object [l], whose [id] is
    [pieceId]. *)
Definition holdsId (board : Grid) (h : Heap) (pieceId : string)
    (pos : Position) (l : loc) : Prop :=
  readCell board pos h = Some (Some l, h) /\
  exists p, piecesH h !! l = Some p /\ id p = pieceId.

(** ** Games for the examples

    [newGame]: the store and the heap when a game starts ([resetGame] on
    a freshly loaded module).  [play]: the moves of a list made one after
    the other by [movePiece], at time 0. *)
Definition newGame : option (GameStore.GameStore * Heap) :=
  match GameStore.createInitialBoard GameStore.loadedHeap with
  | Some (b, h) =>
      Some (GameStore.mkStore b WHITE None [] [] PLAYING None [] 1 None false, h)
  | None => None
  end.

Definition after {A} (start : option (GameStore.GameStore * Heap))
    (f : GameStore.GameStore -> M A) : option (A * Heap) :=
  match start with
  | Some (state, h) => f state h
  | None => None
  end.

Definition play (moves : list (Position * Position))
    (start : option (GameStore.GameStore * Heap))
  : option (GameStore.GameStore * Heap) :=
  fold_left (fun st m => after st (GameStore.movePiece (fst m) (snd m) 0)) moves start.

(** What [f] returns when run on the store and heap of [start]. *)
Definition observe {A} (start : option (GameStore.GameStore * Heap))
    (f : GameStore.GameStore -> M A) : option A :=
  fst <$> after start f.

(** The grid of a store with its pieces' stats read from the heap. *)
Definition gridOf (st : option (GameStore.GameStore * Heap))
  : option (BoardOf PieceStats) :=
  match st with
  | Some (state, h) => fst <$> snapshotBoard (GameStore.board state) h
  | None => None
  end.

(** The squares of a grid on which the piece object [l] stands. *)
Definition squaresOf (l : loc) (board : Grid) : M (list Position) :=
  foldM (fun found pos =>
           c <- readCell board pos ;;
           ret (if bool_decide (c = Some l) then found ++ [pos] else found))
    squares [].

(** The status effects of a piece, read from the heap. *)
Definition effectsOf (l : loc) : M (list StatusEffect) :=
  p <- load piecesL l ;;
  es <- load effectArraysL (statusEffects p) ;;
  mapM (load effectsL) es.

(** The piece object with a given [id] on the grid of a store, with its
    stats and its status effects. *)
Definition pieceNamed (pieceId : string) (state : GameStore.GameStore)
  : M (option (PieceOf PieceStats * list StatusEffect)) :=
  c <- GameStore.findCaster pieceId (GameStore.board state) ;;
  match c with
  | Some l => p <- snapshotPiece l ;; es <- effectsOf l ;; ret (Some (p, es))
  | None => ret None
  end.

(** The game 1. e4 e5 2. Qh5 a6, in which the white queen on h5 can take
    the pawn on e5, and the game 1. e4 d5, in which the white pawn on e4
    can take the pawn on d5. *)
Definition queenAttacks : option (GameStore.GameStore * Heap) :=
  Eval vm_compute in
    play [ (mkPos 4 6, mkPos 4 4); (mkPos 4 1, mkPos 4 3);
           (mkPos 3 7, mkPos 7 3); (mkPos 0 1, mkPos 0 2) ] newGame.

Definition pawnAttacks : option (GameStore.GameStore * Heap) :=
  Eval vm_compute in
    play [ (mkPos 4 6, mkPos 4 4); (mkPos 3 1, mkPos 3 3) ] newGame.

(** The game at its start, and the same with the pawn on a2 (piece 1,
    stats 1) down to 10 mana. *)
Definition atStart : option (GameStore.GameStore * Heap) :=
  Eval vm_compute in newGame.

Definition lowMana : option (GameStore.GameStore * Heap) :=
  Eval vm_compute in
    after newGame (fun st =>
      s <- load statsL 1 ;; store statsL 1 (setCurrentMana s 10) ;;; ret st).

(** The game after White's pawn on a2 has cast Shield Wall on itself: the
    pawn carries a status effect of 3 turns, and the ability is cooling
    down. *)
Definition shielded : option (GameStore.GameStore * Heap) :=
  Eval vm_compute in
    after newGame (GameStore.useAbility "white-pawn-0" "pawn_charge" None).


(** * Properties of the rules engine *)

Section RulesFacts.

Context {S : Type}.

Import ChessRules.

Implicit Types (board b : BoardOf S) (piece p king : PieceOf S) (pos to : Position).

Lemma isValidPosition_spec pos :
  isValidPosition pos = true <-> 0 <= px pos < 8 /\ 0 <= py pos < 8.
Proof. unfold isValidPosition. rewrite !andb_true_iff. lia. Qed.

Lemma positionsEqual_spec pos1 pos2 : positionsEqual pos1 pos2 = true <-> pos1 = pos2.
Proof.
  unfold positionsEqual. rewrite andb_true_iff, !Z.eqb_eq.
  destruct pos1, pos2; simpl. split; [intros [-> ->]; reflexivity | intros [= -> ->]; auto].
Qed.

Lemma indices_spec z : In z indices <-> 0 <= z < 8.
Proof.
  unfold indices; simpl. split; [intuition lia |].
  intros H. assert (z = 0 \/ z = 1 \/ z = 2 \/ z = 3 \/ z = 4 \/ z = 5 \/ z = 6 \/ z = 7) by lia.
  intuition auto.
Qed.

Lemma squares_spec pos : In pos squares <-> isValidPosition pos = true.
Proof.
  rewrite isValidPosition_spec. unfold squares. rewrite in_flat_map. split.
  - intros (yy & Hy & Hin). apply in_map_iff in Hin as (xx & <- & Hx).
    apply indices_spec in Hy, Hx. simpl. lia.
  - intros [Hx Hy]. exists (py pos). split; [apply indices_spec; lia |].
    apply in_map_iff. exists (px pos). split; [destruct pos; reflexivity |].
    apply indices_spec; lia.
Qed.

Lemma existsb_false_iff {A} (f : A -> bool) (l : list A) :
  existsb f l = false <-> forall a, In a l -> f a = false.
Proof.
  induction l as [|a l IH]; simpl.
  - split; [intros _ ? [] | reflexivity].
  - rewrite orb_false_iff, IH. split.
    + intros [Ha Hl] a' [<- | Hin]; auto.
    + intros H. split; [apply H; auto | intros a' Hin; apply H; auto].
Qed.

Lemma existsb_positionsEqual pos (l : list Position) :
  existsb (fun move => positionsEqual move pos) l = true <-> In pos l.
Proof.
  rewrite existsb_exists. split.
  - intros (m & Hin & Heq). apply positionsEqual_spec in Heq. congruence.
  - intros Hin. exists pos. split; [assumption | apply positionsEqual_spec; reflexivity].
Qed.

Lemma canMove_false t b pos :
  canMove t b pos = false <->
  forall p, cell b pos = Some p -> team p = t -> isAlive p = true ->
            getValidMoves p b = [].
Proof.
  unfold canMove. destruct (cell b pos) as [p|].
  - split.
    + intros H q [= <-] Ht Ha.
      rewrite bool_decide_eq_true_2 in H by assumption. rewrite Ha in H. simpl in H.
      destruct (getValidMoves p b); [reflexivity | discriminate].
    + intros H. destruct (bool_decide_reflect (team p = t)) as [Ht|]; [|reflexivity].
      destruct (isAlive p) eqn:Ha; [|reflexivity].
      rewrite (H p eq_refl Ht Ha). reflexivity.
  - split; [intros _ p [=] | reflexivity].
Qed.

Lemma no_legal_move_spec t b :
  existsb (canMove t b) squares = false <->
  forall pos p, isValidPosition pos = true -> cell b pos = Some p ->
                team p = t -> isAlive p = true -> getValidMoves p b = [].
Proof.
  rewrite existsb_false_iff. split.
  - intros H pos p Hv. apply canMove_false, H, squares_spec, Hv.
  - intros H pos Hin. apply canMove_false. intros p. apply H, squares_spec, Hin.
Qed.

(** C7.  [isCheckmate] is true exactly when the team's king is in check
    and no living piece of the team on the grid has a legal move, and
    [isStalemate] is true exactly when the king is not in check and no
    living piece of the team has a legal move.  A legal move is a square
    returned by [getValidMoves], which filters out self-check. *)
Theorem checkmate_stalemate_spec (t : Team) (b : BoardOf S) :
  (isCheckmate t b = true <->
     isKingInCheck t b = true /\
     forall pos p, isValidPosition pos = true -> cell b pos = Some p ->
                   team p = t -> isAlive p = true -> getValidMoves p b = []) /\
  (isStalemate t b = true <->
     isKingInCheck t b = false /\
     forall pos p, isValidPosition pos = true -> cell b pos = Some p ->
                   team p = t -> isAlive p = true -> getValidMoves p b = []).
Proof.
  unfold isCheckmate, isStalemate. rewrite <- no_legal_move_spec.
  destruct (isKingInCheck t b); simpl; rewrite ?negb_true_iff; intuition congruence.
Qed.

Lemma In_filter_iff {A} (P : A -> Prop) `{!forall a, Decision (P a)} (l : list A) a :
  In a (filter P l) <-> P a /\ In a l.
Proof. rewrite <- !list_elem_of_In. apply list_elem_of_filter. Qed.

Lemma basicKingMoves_near p b pos :
  In pos (getBasicKingMoves p b) ->
  Z.abs (px pos - px (position p)) <= 1 /\ Z.abs (py pos - py (position p)) <= 1.
Proof.
  unfold getBasicKingMoves. rewrite In_filter_iff. intros [_ Hin].
  apply in_map_iff in Hin as (d & <- & Hd). simpl.
  unfold kingOffsets in Hd. simpl in Hd.
  repeat (destruct Hd as [<- | Hd]; [simpl; lia |]). destruct Hd.
Qed.

Lemma rookFor_spec king b corner :
  rookFor king b corner = true <->
  exists rook, cell b corner = Some rook /\ type rook = ROOK /\
               team rook = team king /\ hasMoved rook = false.
Proof.
  unfold rookFor. destruct (cell b corner) as [rook|].
  - rewrite !andb_true_iff, !bool_decide_eq_true, negb_true_iff. split.
    + intros [[? ?] ?]. exists rook. auto.
    + intros (r & [= <-] & ? & ? & ?). auto.
  - split; [discriminate | intros (r & [=] & _)].
Qed.

Lemma isEmpty_spec b pos : isEmpty b pos = true <-> cell b pos = None.
Proof. unfold isEmpty. destruct (cell b pos); split; congruence. Qed.

Lemma In_getCastlingMoves king b pos :
  let y := py (position king) in
  In pos (getCastlingMoves king b) <->
  (pos = mkPos 6 y /\
   (exists rook, cell b (mkPos 7 y) = Some rook /\ type rook = ROOK /\
                 team rook = team king /\ hasMoved rook = false) /\
   (cell b (mkPos 5 y) = None /\ cell b (mkPos 6 y) = None) /\
   isKingInCheck (team king) (simulateMove king (mkPos 5 y) b) = false /\
   isKingInCheck (team king) (simulateMove king (mkPos 6 y) b) = false) \/
  (pos = mkPos 2 y /\
   (exists rook, cell b (mkPos 0 y) = Some rook /\ type rook = ROOK /\
                 team rook = team king /\ hasMoved rook = false) /\
   (cell b (mkPos 1 y) = None /\ cell b (mkPos 2 y) = None /\
    cell b (mkPos 3 y) = None) /\
   isKingInCheck (team king) (simulateMove king (mkPos 3 y) b) = false /\
   isKingInCheck (team king) (simulateMove king (mkPos 2 y) b) = false).
Proof.
  intros y. unfold getCastlingMoves, wouldMoveResultInCheck.
  cbv zeta. fold y. rewrite in_app_iff, <- !rookFor_spec, <- !isEmpty_spec.
  assert (Hk : forall (c : bool) (q : Position) (P : Prop),
             (c = true <-> P) -> (In pos (if c then [q] else []) <-> pos = q /\ P)).
  { intros c q P Hc. destruct c; simpl; intuition (try discriminate; auto). }
  rewrite (Hk _ (mkPos 6 y)
             (rookFor king b (mkPos 7 y) = true /\
              (isEmpty b (mkPos 5 y) = true /\ isEmpty b (mkPos 6 y) = true) /\
              isKingInCheck (team king) (simulateMove king (mkPos 5 y) b) = false /\
              isKingInCheck (team king) (simulateMove king (mkPos 6 y) b) = false)).
  2:{ rewrite !andb_true_iff, !negb_true_iff. tauto. }
  rewrite (Hk _ (mkPos 2 y)
             (rookFor king b (mkPos 0 y) = true /\
              (isEmpty b (mkPos 1 y) = true /\ isEmpty b (mkPos 2 y) = true /\
               isEmpty b (mkPos 3 y) = true) /\
              isKingInCheck (team king) (simulateMove king (mkPos 3 y) b) = false /\
              isKingInCheck (team king) (simulateMove king (mkPos 2 y) b) = false)).
  2:{ rewrite !andb_true_iff, !negb_true_iff. tauto. }
  tauto.
Qed.

Lemma In_getKingMoves king b pos :
  In pos (getKingMoves king b) <->
  In pos (getBasicKingMoves king b) \/
  (hasMoved king = false /\ isKingInCheck (team king) b = false /\
   In pos (getCastlingMoves king b)).
Proof.
  unfold getKingMoves. rewrite in_app_iff.
  destruct (hasMoved king), (isKingInCheck (team king) b); simpl;
    intuition (try discriminate; auto).
Qed.

(** C8.  For a king on its home file (x = 4): the square two files
    towards the rook of a side is among the king's moves exactly when the
    king has not moved, is not in check, the corner of that side holds a
    rook of its team that has not moved, the squares between them are
    empty, and the king is in check neither on the square it crosses nor
    on the square it lands on, each tested on the grid on which the king
    has been put on that square. *)
Theorem castling_destination_spec (king : PieceOf S) (b : BoardOf S) (y : Z) :
  type king = KING -> position king = mkPos 4 y -> 0 <= y < 8 ->
  (In (mkPos 6 y) (getValidMoves king b) <->
     hasMoved king = false /\
     isKingInCheck (team king) b = false /\
     (exists rook, cell b (mkPos 7 y) = Some rook /\ type rook = ROOK /\
                   team rook = team king /\ hasMoved rook = false) /\
     (cell b (mkPos 5 y) = None /\ cell b (mkPos 6 y) = None) /\
     isKingInCheck (team king) (simulateMove king (mkPos 5 y) b) = false /\
     isKingInCheck (team king) (simulateMove king (mkPos 6 y) b) = false) /\
  (In (mkPos 2 y) (getValidMoves king b) <->
     hasMoved king = false /\
     isKingInCheck (team king) b = false /\
     (exists rook, cell b (mkPos 0 y) = Some rook /\ type rook = ROOK /\
                   team rook = team king /\ hasMoved rook = false) /\
     (cell b (mkPos 1 y) = None /\ cell b (mkPos 2 y) = None /\
      cell b (mkPos 3 y) = None) /\
     isKingInCheck (team king) (simulateMove king (mkPos 3 y) b) = false /\
     isKingInCheck (team king) (simulateMove king (mkPos 2 y) b) = false).
Proof.
  intros Hk Hpos Hy.
  assert (Hfar : forall x, Z.abs (x - 4) = 2 -> ~ In (mkPos x y) (getBasicKingMoves king b)).
  { intros x Hx Hin. apply basicKingMoves_near in Hin. rewrite Hpos in Hin. simpl in Hin. lia. }
  pose proof (In_getCastlingMoves king b) as Hc.
  rewrite Hpos in Hc. simpl in Hc.
  unfold getValidMoves. rewrite Hk.
  split; rewrite In_filter_iff, andb_true_iff, negb_true_iff, isValidPosition_spec,
           In_getKingMoves, Hc; unfold wouldMoveResultInCheck; simpl.
  - split.
    + intros [[_ He] [Hin | (Hm & Hck & [[_ Hopen] | [[=] _]])]].
      * exfalso. revert Hin. apply Hfar. reflexivity.
      * tauto.
    + intros (Hm & Hck & Hr & He & H5 & H6).
      split; [split; [lia | assumption] |]. right. split; [assumption |].
      split; [assumption |]. left. tauto.
  - split.
    + intros [[_ He] [Hin | (Hm & Hck & [[[=] _] | [_ Hopen]])]].
      * exfalso. revert Hin. apply Hfar. reflexivity.
      * tauto.
    + intros (Hm & Hck & Hr & He & H3 & H2).
      split; [split; [lia | assumption] |]. right. split; [assumption |].
      split; [assumption |]. right. tauto.
Qed.

End RulesFacts.

(** * Grids: reading a cell after an update *)

Section GridFacts.

Context {S : Type}.

Import ChessRules.

Implicit Types (board b : BoardOf S) (piece p king : PieceOf S) (pos to : Position).

Lemma wellFormed_spec b :
  wellFormed b = true <-> length b = 8%nat /\ forall row, In row b -> length row = 8%nat.
Proof.
  unfold wellFormed. rewrite andb_true_iff, Nat.eqb_eq, forallb_forall.
  split; intros [H1 H2]; (split; [assumption |]); intros row Hin;
    specialize (H2 row Hin); [apply Nat.eqb_eq | apply Nat.eqb_eq]; assumption.
Qed.

Lemma cell_Some_lookup b pos v :
  cell b pos = Some v <->
  0 <= px pos /\ 0 <= py pos /\
  exists row, b !! Z.to_nat (py pos) = Some row /\ row !! Z.to_nat (px pos) = Some (Some v).
Proof.
  unfold cell. destruct (0 <=? px pos) eqn:Hx, (0 <=? py pos) eqn:Hy; simpl;
    try (split; [discriminate | lia]).
  apply Z.leb_le in Hx, Hy. destruct (b !! Z.to_nat (py pos)) as [row|]; simpl.
  - destruct (row !! Z.to_nat (px pos)) as [[w|]|] eqn:Hr; simpl.
    + split; [intros [= ->]; eauto 6 | intros (_ & _ & r & [= <-] & Hr'); congruence].
    + split; [discriminate | intros (_ & _ & r & [= <-] & Hr'); congruence].
    + split; [discriminate | intros (_ & _ & r & [= <-] & Hr'); congruence].
  - split; [discriminate | intros (_ & _ & r & [=] & _)].
Qed.

Lemma setCell_wellFormed b pos v : wellFormed b = true -> wellFormed (setCell b pos v) = true.
Proof.
  rewrite !wellFormed_spec. intros [H1 H2]. unfold setCell.
  destruct ((0 <=? px pos) && (0 <=? py pos)); [| auto].
  split; [rewrite length_alter; assumption |].
  intros row Hin. apply list_elem_of_In, list_elem_of_lookup in Hin as [i Hi].
  destruct (decide (i = Z.to_nat (py pos))) as [-> | Hne].
  - rewrite list_lookup_alter_eq in Hi.
    destruct (b !! Z.to_nat (py pos)) as [r|] eqn:Hr; [| discriminate].
    injection Hi as <-. rewrite length_insert. apply H2.
    apply list_elem_of_In, list_elem_of_lookup. eauto.
  - rewrite list_lookup_alter_ne in Hi by congruence.
    apply H2, list_elem_of_In, list_elem_of_lookup. eauto.
Qed.

Lemma cell_setCell_same b pos v :
  wellFormed b = true -> isValidPosition pos = true -> cell (setCell b pos v) pos = v.
Proof.
  rewrite wellFormed_spec, isValidPosition_spec. intros [H1 H2] [Hx Hy].
  unfold cell, setCell.
  replace ((0 <=? px pos) && (0 <=? py pos)) with true
    by (symmetry; apply andb_true_iff; split; apply Z.leb_le; lia).
  rewrite list_lookup_alter_eq.
  destruct (b !! Z.to_nat (py pos)) as [row|] eqn:Hr.
  - simpl. rewrite list_lookup_insert_eq; [reflexivity |].
    rewrite (H2 row) by (apply list_elem_of_In, list_elem_of_lookup; eauto). lia.
  - apply lookup_ge_None in Hr. lia.
Qed.

Lemma cell_setCell_other b pos pos' v :
  pos <> pos' -> cell (setCell b pos v) pos' = cell b pos'.
Proof.
  intros Hne. unfold cell, setCell.
  destruct ((0 <=? px pos') && (0 <=? py pos')) eqn:Hv'; [| reflexivity].
  destruct ((0 <=? px pos) && (0 <=? py pos)) eqn:Hv; [| reflexivity].
  apply andb_true_iff in Hv as [Hx Hy], Hv' as [Hx' Hy'].
  apply Z.leb_le in Hx, Hy, Hx', Hy'.
  destruct (decide (Z.to_nat (py pos) = Z.to_nat (py pos'))) as [Heq | Hny].
  - rewrite <- Heq, list_lookup_alter_eq.
    destruct (b !! Z.to_nat (py pos)) as [row|]; [| reflexivity]. simpl.
    rewrite list_lookup_insert_ne; [reflexivity |].
    intros Hxx. apply Hne. destruct pos, pos'; simpl in *. f_equal; lia.
  - rewrite list_lookup_alter_ne by assumption. reflexivity.
Qed.

Lemma cell_setCell b pos pos' v :
  wellFormed b = true -> isValidPosition pos = true ->
  cell (setCell b pos v) pos' = if decide (pos = pos') then v else cell b pos'.
Proof.
  intros Hw Hv. destruct (decide (pos = pos')) as [<- | Hne].
  - apply cell_setCell_same; assumption.
  - apply cell_setCell_other; assumption.
Qed.

Lemma consistent_spec b :
  consistent b = true <->
  forall pos p, isValidPosition pos = true -> cell b pos = Some p -> position p = pos.
Proof.
  unfold consistent. rewrite forallb_forall. split.
  - intros H pos p Hv Hc. specialize (H pos (proj2 (squares_spec pos) Hv)).
    rewrite Hc in H. apply positionsEqual_spec in H. assumption.
  - intros H pos Hin. destruct (cell b pos) as [p|] eqn:Hc; [| reflexivity].
    apply positionsEqual_spec, H; [apply squares_spec|]; assumption.
Qed.

Lemma cell_Some_valid b pos v :
  wellFormed b = true -> cell b pos = Some v -> isValidPosition pos = true.
Proof.
  rewrite wellFormed_spec, cell_Some_lookup, isValidPosition_spec.
  intros [H1 H2] (Hx & Hy & row & Hr & Hc).
  pose proof (lookup_lt_Some _ _ _ Hr) as Hlt.
  pose proof (lookup_lt_Some _ _ _ Hc) as Hlt'.
  rewrite (H2 row) in Hlt' by (apply list_elem_of_In, list_elem_of_lookup; eauto).
  lia.
Qed.

Lemma isKingOf_spec t b pos :
  isKingOf t b pos = true <-> exists p, cell b pos = Some p /\ type p = KING /\ team p = t.
Proof.
  unfold isKingOf. destruct (cell b pos) as [p|].
  - rewrite andb_true_iff, !bool_decide_eq_true. split.
    + intros [? ?]. eauto.
    + intros (q & [= <-] & ? & ?). auto.
  - split; [discriminate | intros (q & [=] & _)].
Qed.

Lemma oneKing_spec t b :
  oneKing t b = true <->
  forall pos1 pos2, isValidPosition pos1 = true -> isValidPosition pos2 = true ->
                    isKingOf t b pos1 = true -> isKingOf t b pos2 = true -> pos1 = pos2.
Proof.
  unfold oneKing. rewrite forallb_forall. split.
  - intros H pos1 pos2 Hv1 Hv2 Hk1 Hk2.
    specialize (H pos1 (proj2 (squares_spec pos1) Hv1)).
    rewrite forallb_forall in H.
    specialize (H pos2 (proj2 (squares_spec pos2) Hv2)).
    rewrite Hk1, Hk2 in H. simpl in H. apply positionsEqual_spec, H.
  - intros H pos1 Hin1. apply forallb_forall. intros pos2 Hin2.
    destruct (isKingOf t b pos1) eqn:Hk1, (isKingOf t b pos2) eqn:Hk2; try reflexivity.
    simpl. apply positionsEqual_spec, H; try assumption; apply squares_spec; assumption.
Qed.

Lemma findKing_unique t b k :
  isValidPosition k = true -> isKingOf t b k = true ->
  (forall pos, isValidPosition pos = true -> isKingOf t b pos = true -> pos = k) ->
  findKing t b = Some k.
Proof.
  intros Hv Hk Hu. unfold findKing.
  destruct (List.find (isKingOf t b) squares) as [k'|] eqn:Hf.
  - apply find_some in Hf as [Hin Hk']. f_equal. apply Hu; [apply squares_spec |]; assumption.
  - exfalso. pose proof (find_none _ _ Hf k (proj2 (squares_spec k) Hv)). congruence.
Qed.

End GridFacts.

(** * What a raw move depends on *)

Section RawMoves.

Context {S : Type}.

Import ChessRules.

Implicit Types (board b : BoardOf S) (piece p e king : PieceOf S) (pos to k : Position).

Local Abbreviation step p dx dy i :=
  (mkPos (px (position p) + dx * i) (py (position p) + dy * i)).

Lemma emptyOrEnemy_spec b p pos :
  emptyOrEnemy b p pos = true <->
  cell b pos = None \/ exists q, cell b pos = Some q /\ team q <> team p.
Proof.
  unfold emptyOrEnemy. destruct (cell b pos) as [q|].
  - rewrite bool_decide_eq_true. split.
    + intros H. right. eauto.
    + intros [[=] | (q' & [= <-] & H)]. assumption.
  - split; auto.
Qed.

Lemma enemyAt_spec b p pos :
  enemyAt b p pos = true <-> exists q, cell b pos = Some q /\ team q <> team p.
Proof.
  unfold enemyAt. destruct (cell b pos) as [q|].
  - rewrite bool_decide_eq_true. split.
    + intros H. eauto.
    + intros (q' & [= <-] & H). assumption.
  - split; [discriminate | intros (q & [=] & _)].
Qed.

(** A ray reaches a square exactly when the squares before it are on the
    grid and empty and the square itself is on the grid and empty or held
    by the other team. *)
Lemma castRay_spec p b dx dy (steps : list Z) pos :
  StronglySorted Z.lt steps ->
  In pos (castRay p b dx dy steps) <->
  exists i, In i steps /\ pos = step p dx dy i /\
            isValidPosition pos = true /\ emptyOrEnemy b p pos = true /\
            forall j, In j steps -> j < i ->
                      isValidPosition (step p dx dy j) = true /\
                      cell b (step p dx dy j) = None.
Proof.
  induction steps as [|i0 rest IH]; intros Hs.
  - simpl. split; [intros [] | intros (i & [] & _)].
  - apply StronglySorted_inv in Hs as [Hrest Hlt]. rewrite List.Forall_forall in Hlt.
    simpl castRay.
    destruct (isValidPosition (step p dx dy i0)) eqn:Hv; simpl.
    2:{ split; [intros [] |]. intros (i & [<- | Hin] & -> & Hvi & _ & Hbefore).
        - congruence.
        - destruct (Hbefore i0 (or_introl eq_refl) (Hlt i Hin)). congruence. }
    destruct (cell b (step p dx dy i0)) as [t|] eqn:Hc.
    + split.
      * intros Hin. exists i0.
        destruct (bool_decide_reflect (team t <> team p)) as [Hne|]; [| destruct Hin].
        destruct Hin as [<- | []].
        split; [left; reflexivity |]. split; [reflexivity |]. split; [assumption |].
        split; [apply emptyOrEnemy_spec; right; eauto |].
        intros j [<- | Hj] Hji; [lia | specialize (Hlt j Hj); lia].
      * intros (i & [<- | Hin] & -> & Hvi & He & Hbefore).
        -- apply emptyOrEnemy_spec in He as [He | (q & Hq & Hne)]; [congruence |].
           rewrite Hc in Hq. injection Hq as <-.
           rewrite bool_decide_eq_true_2 by assumption. left. reflexivity.
        -- destruct (Hbefore i0 (or_introl eq_refl) (Hlt i Hin)). congruence.
    + simpl. rewrite (IH Hrest). split.
      * intros [<- | (i & Hin & -> & Hvi & He & Hbefore)].
        -- exists i0. split; [left; reflexivity |]. split; [reflexivity |].
           split; [assumption |]. split; [apply emptyOrEnemy_spec; auto |].
           intros j [<- | Hj] Hji; [lia | specialize (Hlt j Hj); lia].
        -- exists i. split; [right; assumption |]. split; [reflexivity |].
           split; [assumption |]. split; [assumption |].
           intros j [<- | Hj] Hji; [auto | apply Hbefore; assumption].
      * intros (i & [<- | Hin] & -> & Hvi & He & Hbefore).
        -- left. reflexivity.
        -- right. exists i. split; [assumption |]. split; [reflexivity |].
           split; [assumption |]. split; [assumption |].
           intros j Hj Hji. apply Hbefore; [right |]; assumption.
Qed.

Lemma raySteps_sorted : StronglySorted Z.lt raySteps.
Proof. unfold raySteps. repeat (constructor; [| repeat constructor; lia]). constructor. Qed.

Lemma raySteps_spec i : In i raySteps <-> 1 <= i <= 7.
Proof.
  unfold raySteps. simpl. split; [intuition lia |].
  intros H. assert (i = 1 \/ i = 2 \/ i = 3 \/ i = 4 \/ i = 5 \/ i = 6 \/ i = 7) by lia.
  intuition auto.
Qed.

Lemma In_getPawnMoves p b pos :
  In pos (getPawnMoves p b) ->
  cell b pos = None \/
  (isValidPosition pos = true /\ enemyAt b p pos = true /\
   let dir := if bool_decide (team p = WHITE) then -1 else 1 in
   In pos [mkPos (px (position p) - 1) (py (position p) + dir);
           mkPos (px (position p) + 1) (py (position p) + dir)]).
Proof.
  unfold getPawnMoves. cbv zeta. rewrite in_app_iff, In_filter_iff, andb_true_iff.
  intros [Hf | [[Hv He] Hin]]; [left | right; auto].
  repeat match type of Hf with
         | In _ (if ?c then _ else _) => destruct c eqn:?
         | In _ (_ :: _) => destruct Hf as [<- | Hf]
         | In _ [] => destruct Hf
         end;
    repeat match goal with
           | H : _ && _ = true |- _ => apply andb_true_iff in H as [? ?]
           end;
    apply isEmpty_spec; assumption.
Qed.

Lemma captures_In_getPawnMoves p b pos :
  isValidPosition pos = true -> enemyAt b p pos = true ->
  (let dir := if bool_decide (team p = WHITE) then -1 else 1 in
   In pos [mkPos (px (position p) - 1) (py (position p) + dir);
           mkPos (px (position p) + 1) (py (position p) + dir)]) ->
  In pos (getPawnMoves p b).
Proof.
  intros Hv He Hin. unfold getPawnMoves. cbv zeta.
  rewrite in_app_iff, In_filter_iff, andb_true_iff. right. auto.
Qed.

(** A raw move onto an occupied square [k] survives a change of the grid
    that keeps the mover's type, team and position and the team of the
    piece on [k], and that keeps empty every empty square strictly
    between the mover and [k]. *)
Lemma raw_move_transfer e e' b b' k :
  type e = type e' -> team e = team e' -> position e = position e' ->
  (exists q q', cell b k = Some q /\ cell b' k = Some q' /\ team q = team q') ->
  (forall dx dy i j,
      -1 <= dx <= 1 -> -1 <= dy <= 1 -> 1 <= j -> j < i -> i <= 7 ->
      k = step e dx dy i ->
      isValidPosition (step e dx dy j) = true ->
      cell b (step e dx dy j) = None -> cell b' (step e dx dy j) = None) ->
  In k (getRawValidMoves e b) -> In k (getRawValidMoves e' b').
Proof.
  intros Hty Htm Hpos (q & q' & Hq & Hq' & Hqq) Hbetween.
  assert (Hee : emptyOrEnemy b e k = true -> emptyOrEnemy b' e' k = true).
  { unfold emptyOrEnemy. rewrite Hq, Hq', Hqq, Htm. auto. }
  assert (Hen : enemyAt b e k = true -> enemyAt b' e' k = true).
  { unfold enemyAt. rewrite Hq, Hq', Hqq, Htm. auto. }
  assert (Hray : forall dx dy, -1 <= dx <= 1 -> -1 <= dy <= 1 ->
             In k (castRay e b dx dy raySteps) -> In k (castRay e' b' dx dy raySteps)).
  { intros dx dy Hdx Hdy.
    rewrite !castRay_spec by apply raySteps_sorted.
    intros (i & Hi & Hk & Hv & He & Hbefore).
    exists i. rewrite <- Hpos.
    split; [assumption |]. split; [assumption |]. split; [assumption |].
    split; [apply Hee; assumption |].
    intros j Hj Hji. destruct (Hbefore j Hj Hji) as [Hvj Hcj].
    split; [assumption |].
    apply raySteps_spec in Hi, Hj.
    apply (Hbetween dx dy i j); try lia; assumption. }
  unfold getRawValidMoves. rewrite !In_filter_iff. intros [Hv Hin]. split; [assumption |].
  rewrite <- Hty. destruct (type e).
  - apply In_getPawnMoves in Hin as [Hn | (Hv' & He & Hin)]; [congruence |].
    apply captures_In_getPawnMoves; auto. rewrite <- Htm, <- Hpos. assumption.
  - revert Hin. unfold getKnightMoves. cbv zeta.
    rewrite !In_filter_iff, !andb_true_iff, <- Hpos. intuition auto.
  - revert Hin. unfold getBishopMoves, getDiagonalMoves. rewrite !in_flat_map.
    intros ([dx dy] & Hd & Hin). exists (dx, dy). split; [assumption |].
    simpl in *. apply Hray; [| | assumption];
      repeat (destruct Hd as [[= <- <-] | Hd]; [lia |]); destruct Hd.
  - revert Hin. unfold getRookMoves, getStraightMoves. rewrite !in_flat_map.
    intros ([dx dy] & Hd & Hin). exists (dx, dy). split; [assumption |].
    simpl in *. apply Hray; [| | assumption];
      repeat (destruct Hd as [[= <- <-] | Hd]; [lia |]); destruct Hd.
  - revert Hin. unfold getQueenMoves, getStraightMoves, getDiagonalMoves.
    rewrite !in_app_iff, !in_flat_map.
    intros [([dx dy] & Hd & Hin) | ([dx dy] & Hd & Hin)]; [left | right];
      (exists (dx, dy); split; [assumption |]);
      simpl in *; (apply Hray; [| | assumption]);
      repeat (destruct Hd as [[= <- <-] | Hd]; [lia |]); destruct Hd.
  - revert Hin. unfold getBasicKingMoves.
    rewrite !In_filter_iff, !andb_true_iff, <- Hpos. intuition auto.
Qed.

End RawMoves.

(** * Self-check safety of the legal moves *)

Section CheckSafety.

Context {S : Type}.

Import ChessRules.

Implicit Types (board b : BoardOf S) (piece p e king rook : PieceOf S) (pos to k : Position).

Lemma attacks_spec t b k pos :
  attacks t b k pos = true <->
  exists e, cell b pos = Some e /\ team e <> t /\ isAlive e = true /\
            In k (getRawValidMoves e b).
Proof.
  unfold attacks. destruct (cell b pos) as [e|].
  - rewrite !andb_true_iff, bool_decide_eq_true, existsb_positionsEqual. split.
    + intros [[? ?] ?]. eauto 6.
    + intros (e' & [= <-] & ? & ? & ?). auto.
  - split; [discriminate | intros (e & [=] & _)].
Qed.

Lemma isKingInCheck_transfer t b b' k :
  findKing t b = Some k -> findKing t b' = Some k ->
  (forall pos e, isValidPosition pos = true -> cell b pos = Some e -> team e <> t ->
                 isAlive e = true -> In k (getRawValidMoves e b) ->
                 exists e', cell b' pos = Some e' /\ team e' <> t /\
                            isAlive e' = true /\ In k (getRawValidMoves e' b')) ->
  isKingInCheck t b' = false -> isKingInCheck t b = false.
Proof.
  intros Hk Hk' Htr. unfold isKingInCheck. rewrite Hk, Hk', !existsb_false_iff.
  intros Hsafe pos Hin. destruct (attacks t b k pos) eqn:Ha; [| reflexivity].
  apply attacks_spec in Ha as (e & Hc & Hne & Hal & Hmv).
  destruct (Htr pos e (proj1 (squares_spec pos) Hin) Hc Hne Hal Hmv)
    as (e' & Hc' & Hne' & Hal' & Hmv').
  rewrite <- (Hsafe pos Hin). symmetry. apply attacks_spec. eauto 6.
Qed.

Lemma find_ext {A} (f g : A -> bool) (l : list A) :
  (forall a, In a l -> f a = g a) -> List.find f l = List.find g l.
Proof.
  induction l as [|a l IH]; intros H; simpl; [reflexivity |].
  rewrite (H a (or_introl eq_refl)). destruct (g a); [reflexivity |].
  apply IH. intros a' Hin. apply H. right. assumption.
Qed.

(** Two grids whose cells hold pieces of the same type, team, position
    and life are in check together. *)
Lemma isKingInCheck_similar t b b' :
  (forall pos, match cell b pos, cell b' pos with
               | Some e, Some e' =>
                   type e = type e' /\ team e = team e' /\
                   position e = position e' /\ isAlive e = isAlive e'
               | None, None => True
               | _, _ => False
               end) ->
  isKingInCheck t b' = false -> isKingInCheck t b = false.
Proof.
  intros Hsim Hsafe.
  assert (Hking : findKing t b = findKing t b').
  { apply find_ext. intros pos _. unfold isKingOf. specialize (Hsim pos).
    destruct (cell b pos) as [e|], (cell b' pos) as [e'|]; try tauto.
    destruct Hsim as (-> & -> & _). reflexivity. }
  destruct (findKing t b) as [k|] eqn:Hk.
  2:{ unfold isKingInCheck. rewrite Hk. reflexivity. }
  apply (isKingInCheck_transfer t b b' k); auto.
  intros pos e Hv Hc Hne Hal Hmv. pose proof (Hsim pos) as Hp. rewrite Hc in Hp.
  destruct (cell b' pos) as [e'|] eqn:Hc'; [| destruct Hp].
  destruct Hp as (Hty & Htm & Hpo & Hli).
  exists e'. split; [reflexivity |]. split; [congruence |]. split; [congruence |].
  apply (raw_move_transfer e e' b b' k); auto.
  - apply find_some in Hk as [_ Hkk]. apply isKingOf_spec in Hkk as (q & Hq & _).
    pose proof (Hsim k) as Hq'. rewrite Hq in Hq'.
    destruct (cell b' k) as [q'|]; [| destruct Hq'].
    exists q, q'. tauto.
  - intros dx dy i j _ _ _ _ _ _ _ Hn.
    set (sj := mkPos (px (position e) + dx * j) (py (position e) + dy * j)) in *.
    pose proof (Hsim sj) as Hj. rewrite Hn in Hj.
    destruct (cell b' sj); [destruct Hj | reflexivity].
Qed.

(** The grid after castling: king from file 4 to [kTo], rook from the
    corner [rFrom] to [rTo], on a grid where the king stands alone on the
    squares it crosses.  The king is in check on it only if it is in
    check on the scratch grid of [wouldMoveResultInCheck], on which the
    rook has stayed in its corner. *)
Lemma castled_not_in_check b king rook y kTo rFrom rTo :
  wellFormed b = true -> consistent b = true -> oneKing (team king) b = true ->
  0 <= y < 8 ->
  (kTo = 6 /\ rFrom = 7 /\ rTo = 5) \/ (kTo = 2 /\ rFrom = 0 /\ rTo = 3) ->
  cell b (mkPos 4 y) = Some king -> type king = KING ->
  cell b (mkPos rFrom y) = Some rook -> type rook = ROOK -> team rook = team king ->
  cell b (mkPos kTo y) = None -> cell b (mkPos rTo y) = None ->
  isKingInCheck (team king)
    (setCell (setCell b (mkPos kTo y) (Some (withPosition king (mkPos kTo y))))
       (mkPos 4 y) None) = false ->
  isKingInCheck (team king)
    (setCell
       (setCell
          (setCell (setCell b (mkPos rTo y) (Some (movedTo rook (mkPos rTo y))))
             (mkPos rFrom y) None)
          (mkPos kTo y) (Some (movedTo king (mkPos kTo y))))
       (mkPos 4 y) None) = false.
Proof.
  intros Hw Hcons Hone Hy Hside Hking Hkt Hrook Hrt Hrteam HkTo HrTo.
  set (t := team king) in *.
  set (A := setCell (setCell (setCell (setCell b _ _) _ _) _ _) _ _).
  set (B := setCell (setCell b _ _) _ _).
  assert (Hv : forall x, 0 <= x < 8 -> isValidPosition (mkPos x y) = true).
  { intros x Hx. apply isValidPosition_spec. simpl. lia. }
  assert (HA : forall pos, cell A pos =
            if decide (mkPos 4 y = pos) then None
            else if decide (mkPos kTo y = pos) then Some (movedTo king (mkPos kTo y))
            else if decide (mkPos rFrom y = pos) then None
            else if decide (mkPos rTo y = pos) then Some (movedTo rook (mkPos rTo y))
            else cell b pos).
  { intros pos. unfold A.
    rewrite !cell_setCell by (repeat apply setCell_wellFormed; try assumption; apply Hv; lia).
    reflexivity. }
  assert (HB : forall pos, cell B pos =
            if decide (mkPos 4 y = pos) then None
            else if decide (mkPos kTo y = pos) then Some (withPosition king (mkPos kTo y))
            else cell b pos).
  { intros pos. unfold B.
    rewrite !cell_setCell by (repeat apply setCell_wellFormed; try assumption; apply Hv; lia).
    reflexivity. }
  assert (Hsole : forall pos, isValidPosition pos = true -> isKingOf t b pos = true ->
                              pos = mkPos 4 y).
  { intros pos Hvp Hkp. rewrite oneKing_spec in Hone.
    apply Hone; auto; [apply Hv; lia |]. apply isKingOf_spec. eauto. }
  assert (Hne : mkPos 4 y <> mkPos kTo y) by (intros [=]; lia).
  assert (HkA : findKing t A = Some (mkPos kTo y)).
  { apply findKing_unique; [apply Hv; lia | |].
    - apply isKingOf_spec. exists (movedTo king (mkPos kTo y)). rewrite HA.
      rewrite decide_False by assumption. rewrite decide_True by reflexivity. auto.
    - intros pos Hvp Hkp. apply isKingOf_spec in Hkp as (q & Hq & Hqt & Hqm).
      rewrite HA in Hq. repeat case_decide; try congruence.
      + injection Hq as <-. simpl in Hqt. rewrite Hrt in Hqt. discriminate.
      + exfalso. apply H. symmetry. apply Hsole; [assumption |].
        apply isKingOf_spec. eauto. }
  assert (HkB : findKing t B = Some (mkPos kTo y)).
  { apply findKing_unique; [apply Hv; lia | |].
    - apply isKingOf_spec. exists (withPosition king (mkPos kTo y)). rewrite HB.
      rewrite decide_False by assumption. rewrite decide_True by reflexivity. auto.
    - intros pos Hvp Hkp. apply isKingOf_spec in Hkp as (q & Hq & Hqt & Hqm).
      rewrite HB in Hq. repeat case_decide; try congruence.
      exfalso. apply H. symmetry. apply Hsole; [assumption |].
      apply isKingOf_spec. eauto. }
  apply (isKingInCheck_transfer t A B (mkPos kTo y) HkA HkB).
  intros pos e Hvp Hc Het Hal Hmv. rewrite HA in Hc.
  destruct (decide (mkPos 4 y = pos)) as [| Hn4]; [discriminate |].
  destruct (decide (mkPos kTo y = pos)) as [| HnK].
  { injection Hc as <-. simpl in Het. exfalso. apply Het. reflexivity. }
  destruct (decide (mkPos rFrom y = pos)) as [| HnF]; [discriminate |].
  destruct (decide (mkPos rTo y = pos)) as [| HnT].
  { injection Hc as <-. simpl in Het. exfalso. apply Het. assumption. }
  exists e. rewrite HB, !decide_False by assumption.
  split; [assumption |]. split; [assumption |]. split; [assumption |].
  rewrite consistent_spec in Hcons. pose proof (Hcons pos e Hvp Hc) as Hpe.
  apply (raw_move_transfer e e A B (mkPos kTo y)); auto.
  - exists (movedTo king (mkPos kTo y)), (withPosition king (mkPos kTo y)).
    rewrite HA, HB, !(decide_False _ _ Hne), !decide_True by reflexivity. auto.
  - intros dx dy i j Hdx Hdy Hj Hji Hi Hk Hvj Hn. rewrite HA in Hn. rewrite HB.
    destruct (decide (mkPos 4 y = _)) as [| Hj4]; [reflexivity |].
    destruct (decide (mkPos kTo y = _)) as [| HjK]; [discriminate |].
    destruct (decide (mkPos rFrom y = _)) as [HjF | HjF]; [| destruct (decide _); congruence].
    exfalso. rewrite Hpe in Hk, HjF.
    apply isValidPosition_spec in Hvp.
    injection Hk as Hkx Hky. injection HjF as Hjx Hjy.
    assert (dx = -1 \/ dx = 0 \/ dx = 1) as [-> | [-> | ->]] by lia;
      assert (dy = -1 \/ dy = 0 \/ dy = 1) as [-> | [-> | ->]] by lia; lia.
Qed.

End CheckSafety.

Section LegalMoves.

Import ChessRules.

Lemma In_getValidMoves {S} (p : PieceOf S) (b : BoardOf S) to :
  In to (getValidMoves p b) ->
  isValidPosition to = true /\ wouldMoveResultInCheck p to b = false /\
  (type p = KING -> In to (getKingMoves p b)).
Proof.
  unfold getValidMoves. rewrite In_filter_iff, andb_true_iff, negb_true_iff.
  intros [[Hv Hw] Hin]. split; [assumption |]. split; [assumption |].
  intros Hk. rewrite Hk in Hin. assumption.
Qed.

(** C4.  On a grid of a game (8 by 8, every piece standing on the square
    of its [position], at most one king of the mover's team), applying a
    move that [getValidMoves] returns for a piece of the grid, as
    [makeMove] applies it (the piece put on the destination in place of
    any occupant, its origin cleared, the rook brought over when the move
    is a castling), gives a grid on which the mover's king is not in
    check. *)
Theorem legal_move_leaves_king_safe
    (b : BoardOf PieceStats) (piece : PieceOf PieceStats) (to : Position) :
  wellFormed b = true -> consistent b = true -> oneKing (team piece) b = true ->
  cell b (position piece) = Some piece ->
  In to (getValidMoves piece b) ->
  isKingInCheck (team piece)
    (ChessAI.makeMove b (ChessAI.mkAIMove (position piece) to 0 piece)) = false.
Proof.
  intros Hw Hcons Hone Hcell Hin.
  apply In_getValidMoves in Hin as (Hvt & Hsafe & Hking).
  pose proof (cell_Some_valid _ _ _ Hw Hcell) as Hvp.
  unfold ChessAI.makeMove. simpl. rewrite Hcell.
  unfold wouldMoveResultInCheck, simulateMove in Hsafe.
  destruct (isCastlingMove piece to) eqn:Hcast.
  - unfold isCastlingMove in Hcast.
    apply andb_true_iff in Hcast as [Hk Hd].
    apply bool_decide_eq_true in Hk. apply Z.eqb_eq in Hd.
    specialize (Hking Hk). apply In_getKingMoves in Hking as [Hb | (_ & _ & Hc)].
    { apply basicKingMoves_near in Hb. lia. }
    apply isValidPosition_spec in Hvp.
    apply In_getCastlingMoves in Hc. cbv zeta in Hc.
    destruct (position piece) as [x y] eqn:Hpos. simpl in *.
    destruct Hc as [(-> & (rook & Hr & Hrt & Hrm & _) & (H5 & H6) & _ & _)
                   |(-> & (rook & Hr & Hrt & Hrm & _) & (H1 & H2 & H3) & _ & _)];
      simpl in Hd.
    + assert (x = 4) as -> by lia.
      unfold executeCastling. rewrite Hpos. simpl. rewrite Hr.
      apply (castled_not_in_check b piece rook y 6 7 5); auto; lia.
    + assert (x = 4 \/ x = 0) as [-> | ->] by lia.
      * unfold executeCastling. rewrite Hpos. simpl. rewrite Hr.
        apply (castled_not_in_check b piece rook y 2 0 3); auto; lia.
      * rewrite Hcell in Hr. injection Hr as ->. congruence.
  - refine (isKingInCheck_similar _ _ _ _ Hsafe). intros pos.
    rewrite !cell_setCell by (try apply setCell_wellFormed; assumption).
    destruct (decide (position piece = pos)); [exact I |].
    destruct (decide (to = pos)); [simpl; auto |].
    destruct (cell b pos); auto.
Qed.

End LegalMoves.

(** * The search of the AI *)

Section Search.

Import ChessRules ChessAI.

Lemma makeMove_withScore board move s :
  makeMove board (withScore move s) = makeMove board move.
Proof. reflexivity. Qed.

(** The result of [minimax] does not depend on the depth, once it is at
    least 1: the value of the recursive call is not used. *)
Lemma minimax_depth_irrelevant self d board alpha beta maximizing :
  minimax self (Datatypes.S d) board alpha beta maximizing =
  minimax self 1 board alpha beta maximizing.
Proof. reflexivity. Qed.

(** The score of the move that [minimax] returns is the static
    evaluation of the grid right after that move, whatever the depth. *)
Lemma minimax_score_static self d board alpha beta maximizing m :
  minimax self d board alpha beta maximizing = Some m ->
  score m = eval_score (evaluateBoard self (makeMove board m)).
Proof.
  destruct d as [|d]; [discriminate |].
  cbn [minimax]. cbv zeta.
  generalize (getAllPossibleMoves board
                (if maximizing then aiTeam self else opposite (aiTeam self))) as moves.
  pose proof (makeMove_withScore board) as Hmk. revert Hmk.
  generalize (makeMove board) as mk. generalize (evaluateBoard self) as ev.
  intros ev mk Hmk moves.
  assert (Hnew : forall move,
            score (withScore move (eval_score (ev (mk move)))) =
            eval_score (ev (mk (withScore move (eval_score (ev (mk move))))))).
  { intros move. rewrite Hmk. reflexivity. }
  assert (Hnone : forall m' : AIMove, @None AIMove = Some m' ->
                                      score m' = eval_score (ev (mk m')))
    by discriminate.
  revert Hnone. generalize (@None AIMove) as best.
  destruct maximizing.
  - generalize NegInfinity as maxScore. revert alpha.
    induction moves as [|move rest IH]; intros alpha maxScore best Hbest.
    + intros ->. apply Hbest. reflexivity.
    + destruct (num_lt maxScore (Finite (eval_score (ev (mk move))))).
      * destruct (num_le beta (num_max alpha (Finite (eval_score (ev (mk move)))))).
        -- intros [= <-]. apply Hnew.
        -- apply IH. intros m' [= <-]. apply Hnew.
      * destruct (num_le beta (num_max alpha (Finite (eval_score (ev (mk move)))))).
        -- intros ->. apply Hbest. reflexivity.
        -- apply IH. assumption.
  - generalize Infinity as minScore. revert beta.
    induction moves as [|move rest IH]; intros beta minScore best Hbest.
    + intros ->. apply Hbest. reflexivity.
    + destruct (num_lt (Finite (eval_score (ev (mk move)))) minScore).
      * destruct (num_le (num_min beta (Finite (eval_score (ev (mk move))))) alpha).
        -- intros [= <-]. apply Hnew.
        -- apply IH. intros m' [= <-]. apply Hnew.
      * destruct (num_le (num_min beta (Finite (eval_score (ev (mk move))))) alpha).
        -- intros ->. apply Hbest. reflexivity.
        -- apply IH. assumption.
Qed.

(** C3 (the code departs from it).  On the grid [defendedPawn], searched
    two plies deep for Black, [minimax] returns the capture of the
    defended pawn with the score 857, the static evaluation of the grid
    right after the capture.  The backed-up value of that move, the
    minimum over White's replies, is -152 (the queen is taken back); the
    quiet move of the queen to f5 has the backed-up value 701. *)
Theorem minimax_takes_defended_pawn :
  let ai := mkAI 3 BLACK in
  exists m,
    minimax ai 2 defendedPawn NegInfinity Infinity true = Some m /\
    from m = mkPos 3 1 /\ to m = mkPos 3 4 /\
    (score m == 857)%Q /\
    (eval_score (evaluateBoard ai (makeMove defendedPawn m)) == 857)%Q /\
    (backedUpValue ai 1 (makeMove defendedPawn m) false == -152)%Q /\
    (backedUpValue ai 1
       (makeMove defendedPawn
          (mkAIMove (mkPos 3 1) (mkPos 5 3) 0 (pieceAt QUEEN BLACK 3 1 120)))
       false == 701)%Q.
Proof.
  intros ai.
  exists (mkAIMove (mkPos 3 1) (mkPos 3 4) (115695000000 # 135000000)
            (pieceAt QUEEN BLACK 3 1 120)).
  split; [vm_compute; reflexivity |].
  split; [reflexivity |]. split; [reflexivity |].
  split; [vm_compute; reflexivity |].
  split; [vm_compute; reflexivity |].
  split.
  - vm_compute. reflexivity.
  - vm_compute. reflexivity.
Qed.

End Search.

(** * Reasoning about code that updates the heap *)

Section HeapFacts.

Lemma bind_Some {A B} (m : M A) (k : A -> M B) h r :
  bind m k h = Some r <-> exists a h1, m h = Some (a, h1) /\ k a h1 = Some r.
Proof.
  unfold bind. destruct (m h) as [[a h1]|].
  - split; [eauto | intros (a' & h1' & [= <- <-] & H); exact H].
  - split; [discriminate | intros (a' & h1' & [=] & _)].
Qed.

Lemma ret_Some {A} (a : A) h r : ret a h = Some r <-> r = (a, h).
Proof. unfold ret. split; [intros [= <-]; reflexivity | intros ->; reflexivity]. Qed.

Lemma load_Some {A} (L : Lens A) l h r :
  load L l h = Some r <-> exists v, view L h !! l = Some v /\ r = (v, h).
Proof.
  unfold load. destruct (view L h !! l) as [v|].
  - split; [intros [= <-]; eauto | intros (v' & [= <-] & ->); reflexivity].
  - split; [discriminate | intros (v' & [=] & _)].
Qed.

Lemma store_Some {A} (L : Lens A) l (v : A) h r :
  store L l v h = Some r <->
  is_Some (view L h !! l) /\ r = (tt, over L (fun s => <[l := v]> s) h).
Proof.
  unfold store. destruct (view L h !! l) as [w|].
  - split; [intros [= <-]; eauto | intros [_ ->]; reflexivity].
  - split; [discriminate | intros [[w Hw] _]; discriminate].
Qed.

Lemma alloc_Some {A} (L : Lens A) (v : A) h r :
  alloc L v h = Some r <->
  r = (length (view L h), over L (fun s => s ++ [v]) h).
Proof. unfold alloc. split; [intros [= <-]; reflexivity | intros ->; reflexivity]. Qed.

Lemma load_bind_Some {A B} (L : Lens A) l (k : A -> M B) h r :
  bind (load L l) k h = Some r <-> exists v, view L h !! l = Some v /\ k v h = Some r.
Proof.
  rewrite bind_Some. split.
  - intros (a & h1 & H1 & H2). apply load_Some in H1 as (v & Hv & [= -> ->]). eauto.
  - intros (v & Hv & H). exists v, h. split; [apply load_Some; eauto | exact H].
Qed.

Lemma store_bind_Some {A B} (L : Lens A) l (v : A) (k : unit -> M B) h r :
  bind (store L l v) k h = Some r <->
  is_Some (view L h !! l) /\ k tt (over L (fun s => <[l := v]> s) h) = Some r.
Proof.
  rewrite bind_Some. split.
  - intros (a & h1 & H1 & H2). apply store_Some in H1 as (Hv & [= -> ->]). auto.
  - intros (Hv & H). eexists tt, _. split; [apply store_Some; eauto | exact H].
Qed.

Lemma alloc_bind_Some {A B} (L : Lens A) (v : A) (k : loc -> M B) h r :
  bind (alloc L v) k h = Some r <->
  k (length (view L h)) (over L (fun s => s ++ [v]) h) = Some r.
Proof.
  rewrite bind_Some. split.
  - intros (a & h1 & H1 & H2). apply alloc_Some in H1 as [= -> ->]. exact H2.
  - intros H. eexists _, _. split; [apply alloc_Some; reflexivity | exact H].
Qed.

Lemma ret_bind_Some {A B} (a : A) (k : A -> M B) h r :
  bind (ret a) k h = Some r <-> k a h = Some r.
Proof. reflexivity. Qed.

Lemma bind_run {A B} (m : M A) (k : A -> M B) h a h1 :
  m h = Some (a, h1) -> bind m k h = k a h1.
Proof. unfold bind. intros ->. reflexivity. Qed.

Lemma load_run {A} (L : Lens A) l h v :
  view L h !! l = Some v -> load L l h = Some (v, h).
Proof. unfold load. intros ->. reflexivity. Qed.

(** The rows of a grid are allocated. *)
Lemma copyBoard_Some board h :
  Forall (fun r => is_Some (rowsH h !! r)) board ->
  exists newBoard new,
    copyBoard board h =
    Some (newBoard, mkHeap (rowsH h ++ new) (piecesH h) (statsH h) (abilitiesH h)
                      (effectArraysH h) (effectsH h)).
Proof.
  unfold copyBoard. revert h. induction board as [|r board IH]; intros h Hrows.
  - exists [], []. simpl. unfold ret. rewrite app_nil_r. destruct h; reflexivity.
  - apply Forall_cons in Hrows as [[row Hr] Hrest].
    set (h1 := mkHeap (rowsH h ++ [row]) (piecesH h) (statsH h) (abilitiesH h)
                 (effectArraysH h) (effectsH h)).
    destruct (IH h1) as (nb & new & Hnb).
    { apply (Forall_impl _ _ _ Hrest). intros r' [row' Hr']. exists row'.
      simpl. apply lookup_app_l_Some. assumption. }
    exists (length (rowsH h) :: nb), (row :: new).
    cbn [mapM].
    rewrite (bind_run _ _ h (length (rowsH h)) h1).
    2:{ rewrite (bind_run _ _ h row h) by (apply load_run; exact Hr). reflexivity. }
    rewrite (bind_run _ _ _ _ _ Hnb). unfold ret. simpl.
    rewrite <- app_assoc. reflexivity.
Qed.

End HeapFacts.

(** Runs a piece of code backwards: from the fact that it returned to
    what each of its steps read and wrote. *)
Ltac invert_step :=
  match goal with
  | H : bind (load _ _) _ _ = Some _ |- _ =>
      let v := fresh "v" in let Hl := fresh "Hload" in
      apply (proj1 (load_bind_Some _ _ _ _ _)) in H as (v & Hl & H); cbv beta in H
  | H : bind (store _ _ _) _ _ = Some _ |- _ =>
      let Hs := fresh "Hstore" in
      apply (proj1 (store_bind_Some _ _ _ _ _ _)) in H as (Hs & H); cbv beta in H
  | H : bind (alloc _ _) _ _ = Some _ |- _ =>
      apply (proj1 (alloc_bind_Some _ _ _ _ _)) in H; cbv beta in H
  | H : bind (ret _) _ _ = Some _ |- _ =>
      apply (proj1 (ret_bind_Some _ _ _ _)) in H; cbv beta in H
  | H : bind _ _ _ = Some _ |- _ =>
      let a := fresh "a" in let h := fresh "h" in let H1 := fresh "Hrun" in
      apply (proj1 (bind_Some _ _ _ _)) in H as (a & h & H1 & H); cbv beta in H
  | H : ret _ _ = Some _ |- _ => apply (proj1 (ret_Some _ _ _)) in H; simplify_eq
  | H : throw _ = Some _ |- _ => discriminate H
  | H : load _ _ _ = Some _ |- _ =>
      let v := fresh "v" in let Hl := fresh "Hload" in
      apply (proj1 (load_Some _ _ _ _)) in H as (v & Hl & H); simplify_eq
  | H : store _ _ _ _ = Some _ |- _ =>
      let Hs := fresh "Hstore" in
      apply (proj1 (store_Some _ _ _ _ _)) in H as (Hs & H); simplify_eq
  | H : alloc _ _ _ = Some _ |- _ =>
      apply (proj1 (alloc_Some _ _ _ _)) in H; simplify_eq
  end.

Ltac invert_run := repeat invert_step.

Section FailedAbility.

Import AbilitySystem.

Lemma canUseAbility_false (piece : PieceOf PieceStats) (ability : Ability) :
  canUse (canUseAbility piece ability) = false <->
  isAlive piece = false \/
  currentMana (stats piece) < manaCost ability \/
  (exists c, currentCooldown ability = Some c /\ 0 < c) \/
  level piece < levelRequirement ability.
Proof.
  unfold canUseAbility.
  destruct (isAlive piece); simpl; [| tauto].
  destruct (Z.ltb_spec (currentMana (stats piece)) (manaCost ability)); simpl; [tauto |].
  destruct (currentCooldown ability) as [c|]; simpl.
  - destruct (Z.eqb_spec c 0), (Z.ltb_spec 0 c); simpl;
      try (split; [intros _ | reflexivity]; right; right; left; exists c; split; [reflexivity | lia]);
      (destruct (Z.ltb_spec (level piece) (levelRequirement ability)); simpl;
       [tauto |]; split; [discriminate |];
       intros [? | [? | [(c' & [= <-] & ?) | ?]]]; try discriminate; lia).
  - destruct (Z.ltb_spec (level piece) (levelRequirement ability)); simpl; [tauto |].
    split; [discriminate |].
    intros [? | [? | [(c' & [=] & _) | ?]]]; try discriminate; lia.
Qed.

(** C6.  When the caster is dead, has less mana than the ability costs,
    the ability is cooling down, or the caster's level is below the
    ability's requirement, [executeAbility] returns [success = false]
    with the grid it was given and one message; every piece, stats,
    ability and status effect of the heap is as before (no mana is
    consumed, no cooldown set), and so is every row: the only change to
    the heap is the copy of the rows made before the test.  The target
    type of the ability plays no part, so this covers a Self-target
    ability cast with too little mana. *)
Theorem executeAbility_refused_changes_nothing
    (caster ability : loc) (targetPos : Position) (board : Grid) (h : Heap)
    (c : PieceOf loc) (s : PieceStats) (a : Ability) :
  piecesH h !! caster = Some c ->
  statsH h !! stats c = Some s ->
  abilitiesH h !! ability = Some a ->
  Forall (fun r => is_Some (rowsH h !! r)) board ->
  (isAlive c = false \/ currentMana s < manaCost a \/
   (exists cd, currentCooldown a = Some cd /\ 0 < cd) \/
   level c < levelRequirement a) ->
  exists why copies,
    executeAbility caster ability targetPos board h =
    Some (mkResult false board [Text why] [],
          mkHeap (rowsH h ++ copies) (piecesH h) (statsH h) (abilitiesH h)
            (effectArraysH h) (effectsH h)).
Proof.
  intros Hc Hs Ha Hrows Hno.
  destruct (copyBoard_Some board h Hrows) as (newBoard & copies & Hcopy).
  assert (Hcan : canUse (canUseAbility (setStats c s) a) = false)
    by (apply canUseAbility_false; exact Hno).
  exists (default "Cannot use ability"%string (reason (canUseAbility (setStats c s) a))), copies.
  unfold executeAbility.
  rewrite (bind_run _ _ _ _ _ Hcopy).
  set (h1 := mkHeap _ _ _ _ _ _).
  assert (Hsnap : snapshotPiece caster h1 = Some (setStats c s, h1)).
  { unfold snapshotPiece.
    rewrite (bind_run _ _ h1 c h1) by (apply load_run; exact Hc).
    rewrite (bind_run _ _ h1 s h1) by (apply load_run; exact Hs).
    reflexivity. }
  rewrite (bind_run _ _ _ _ _ Hsnap).
  rewrite (bind_run _ _ h1 a h1) by (apply load_run; exact Ha).
  rewrite Hcan. reflexivity.
Qed.

End FailedAbility.

(** * Code that keeps a property of the heap *)

Section Preservation.

Context (P : Heap -> Prop).

Lemma preserves_ret {A} (a : A) : preserves P (ret a).
Proof. intros h r h' HP [= <- <-]. exact HP. Qed.

Lemma preserves_throw {A} : preserves P (@throw A).
Proof. intros h r h' _ [=]. Qed.

Lemma preserves_bind {A B} (m : M A) (k : A -> M B) :
  preserves P m -> (forall a, preserves P (k a)) -> preserves P (bind m k).
Proof.
  intros Hm Hk h r h' HP Hrun. apply bind_Some in Hrun as (a & h1 & H1 & H2).
  exact (Hk a h1 r h' (Hm h a h1 HP H1) H2).
Qed.

(** What is loaded from a heap with [P] can be used by the rest. *)
Lemma preserves_load_bind {A B} (L : Lens A) (l : loc) (k : A -> M B) :
  (forall v, (exists h, P h /\ view L h !! l = Some v) -> preserves P (k v)) ->
  preserves P (bind (load L l) k).
Proof.
  intros Hk h r h' HP Hrun. apply bind_Some in Hrun as (a & h1 & H1 & H2).
  apply load_Some in H1 as (v & Hv & [= -> ->]).
  exact (Hk v (ex_intro _ h (conj HP Hv)) h r h' HP H2).
Qed.

Lemma preserves_load {A} (L : Lens A) (l : loc) : preserves P (load L l).
Proof. intros h r h' HP Hrun. apply load_Some in Hrun as (v & _ & [= -> ->]). exact HP. Qed.

Lemma preserves_store {A} (L : Lens A) (l : loc) (v : A) :
  (forall h, P h -> P (over L (fun s => <[l := v]> s) h)) ->
  preserves P (store L l v).
Proof. intros Hv h r h' HP Hrun. apply store_Some in Hrun as (_ & [= -> ->]). auto. Qed.

Lemma preserves_alloc {A} (L : Lens A) (v : A) :
  (forall h, P h -> P (over L (fun s => s ++ [v]) h)) ->
  preserves P (alloc L v).
Proof. intros Hv h r h' HP Hrun. apply alloc_Some in Hrun as [= -> ->]. auto. Qed.

Lemma preserves_mapM {A B} (f : A -> M B) (l : list A) :
  (forall a, preserves P (f a)) -> preserves P (mapM f l).
Proof.
  intros Hf. induction l as [|a l IH]; simpl.
  - apply preserves_ret.
  - apply preserves_bind; [apply Hf | intros b].
    apply preserves_bind; [apply IH | intros bs]. apply preserves_ret.
Qed.

Lemma preserves_foldM {A B} (f : B -> A -> M B) (l : list A) (acc : B) :
  (forall b a, preserves P (f b a)) -> preserves P (foldM f l acc).
Proof.
  intros Hf. revert acc. induction l as [|a l IH]; intros acc; simpl.
  - apply preserves_ret.
  - apply preserves_bind; [apply Hf | intros b]. apply IH.
Qed.

Lemma preserves_foldM_In {A B} (f : B -> A -> M B) (l : list A) (acc : B) :
  (forall b a, In a l -> preserves P (f b a)) -> preserves P (foldM f l acc).
Proof.
  revert acc. induction l as [|a l IH]; intros acc Hf; simpl.
  - apply preserves_ret.
  - apply preserves_bind; [apply Hf; left; reflexivity | intros b].
    apply IH. intros b' a' Hin. apply Hf. right. assumption.
Qed.

End Preservation.

(** One step of the proof that a piece of code keeps a property. *)
Ltac keeps_step side :=
  match goal with
  | |- preserves _ (ret _) => apply preserves_ret
  | |- preserves _ throw => apply preserves_throw
  | |- preserves _ (bind (load _ _) _) =>
      let v := fresh "v" in let Hv := fresh "Hv" in
      apply preserves_load_bind; intros v Hv
  | |- preserves _ (bind _ _) => apply preserves_bind; [| intros ?]
  | |- preserves _ (load _ _) => apply preserves_load
  | |- preserves _ (store _ _ _) => apply preserves_store; side
  | |- preserves _ (alloc _ _) => apply preserves_alloc; side
  | |- preserves _ (mapM _ _) => apply preserves_mapM; intros ?
  | |- preserves _ (foldM _ _ _) => apply preserves_foldM; intros ? ?
  | |- preserves _ (if ?c then _ else _) => destruct c eqn:?
  | |- preserves _ (match ?x with _ => _ end) => destruct x eqn:?
  | |- preserves _ (let '(_, _) := ?x in _) => destruct x eqn:?
  end.

(** * The bounds of hit points and mana are kept *)

Section ResourcesOk.

Lemma forallb_lookup {A} (f : A -> bool) (l : list A) i x :
  forallb f l = true -> l !! i = Some x -> f x = true.
Proof.
  rewrite forallb_forall. intros H Hx. apply H, list_elem_of_In, list_elem_of_lookup. eauto.
Qed.

Lemma forallb_insert {A} (f : A -> bool) (l : list A) i x :
  forallb f l = true -> f x = true -> forallb f (<[i := x]> l) = true.
Proof.
  rewrite !forallb_forall. intros H Hx y Hy.
  apply list_elem_of_In, list_elem_of_lookup in Hy as [j Hj].
  destruct (decide (i = j)) as [<- | Hne].
  - destruct (decide (i < length l)%nat).
    + rewrite list_lookup_insert_eq in Hj by assumption. congruence.
    + rewrite list_insert_ge in Hj by lia.
      apply H, list_elem_of_In, list_elem_of_lookup. eauto.
  - rewrite list_lookup_insert_ne in Hj by assumption.
    apply H, list_elem_of_In, list_elem_of_lookup. eauto.
Qed.

Lemma forallb_snoc {A} (f : A -> bool) (l : list A) x :
  forallb f l = true -> f x = true -> forallb f (l ++ [x]) = true.
Proof. intros H Hx. rewrite forallb_app, H. simpl. rewrite Hx. reflexivity. Qed.

Lemma resourcesOk_spec h :
  resourcesOk h = true <->
  forallb saneStats (statsH h) = true /\ forallb saneAbility (abilitiesH h) = true /\
  forallb saneEffect (effectsH h) = true.
Proof. unfold resourcesOk. rewrite !andb_true_iff. tauto. Qed.

Lemma ok_over_rows f h : resourcesOk h = true -> resourcesOk (over rowsL f h) = true.
Proof. intros H. exact H. Qed.

Lemma ok_over_pieces f h : resourcesOk h = true -> resourcesOk (over piecesL f h) = true.
Proof. intros H. exact H. Qed.

Lemma ok_over_arrays f h :
  resourcesOk h = true -> resourcesOk (over effectArraysL f h) = true.
Proof. intros H. exact H. Qed.

Lemma ok_store_stats l v h :
  saneStats v = true -> resourcesOk h = true ->
  resourcesOk (over statsL (fun s => <[l := v]> s) h) = true.
Proof.
  rewrite !resourcesOk_spec. simpl. intros Hv (H1 & H2 & H3).
  split; [apply forallb_insert; assumption | tauto].
Qed.

Lemma ok_alloc_stats v h :
  saneStats v = true -> resourcesOk h = true ->
  resourcesOk (over statsL (fun s => s ++ [v]) h) = true.
Proof.
  rewrite !resourcesOk_spec. simpl. intros Hv (H1 & H2 & H3).
  split; [apply forallb_snoc; assumption | tauto].
Qed.

Lemma ok_store_ability l v h :
  saneAbility v = true -> resourcesOk h = true ->
  resourcesOk (over abilitiesL (fun s => <[l := v]> s) h) = true.
Proof.
  rewrite !resourcesOk_spec. simpl. intros Hv (H1 & H2 & H3).
  split; [assumption |]. split; [apply forallb_insert; assumption | assumption].
Qed.

Lemma ok_store_effect l v h :
  saneEffect v = true -> resourcesOk h = true ->
  resourcesOk (over effectsL (fun s => <[l := v]> s) h) = true.
Proof.
  rewrite !resourcesOk_spec. simpl. intros Hv (H1 & H2 & H3).
  split; [assumption |]. split; [assumption | apply forallb_insert; assumption].
Qed.

Lemma ok_alloc_effect v h :
  saneEffect v = true -> resourcesOk h = true ->
  resourcesOk (over effectsL (fun s => s ++ [v]) h) = true.
Proof.
  rewrite !resourcesOk_spec. simpl. intros Hv (H1 & H2 & H3).
  split; [assumption |]. split; [assumption | apply forallb_snoc; assumption].
Qed.

Lemma ok_loaded_stats l v :
  (exists h, resourcesOk h = true /\ view statsL h !! l = Some v) -> saneStats v = true.
Proof.
  intros (h & Hok & Hv). apply resourcesOk_spec in Hok as (H1 & _ & _).
  exact (forallb_lookup _ _ _ _ H1 Hv).
Qed.

Lemma ok_loaded_ability l v :
  (exists h, resourcesOk h = true /\ view abilitiesL h !! l = Some v) ->
  saneAbility v = true.
Proof.
  intros (h & Hok & Hv). apply resourcesOk_spec in Hok as (_ & H2 & _).
  exact (forallb_lookup _ _ _ _ H2 Hv).
Qed.

Lemma ok_loaded_effect l v :
  (exists h, resourcesOk h = true /\ view effectsL h !! l = Some v) ->
  saneEffect v = true.
Proof.
  intros (h & Hok & Hv). apply resourcesOk_spec in Hok as (_ & _ & H3).
  exact (forallb_lookup _ _ _ _ H3 Hv).
Qed.

Lemma saneStats_spec s :
  saneStats s = true <->
  (0 <= currentHp s <= maxHp s /\ 0 <= currentMana s <= maxMana s) /\ 0 <= attackPower s.
Proof. unfold saneStats, inBounds. rewrite !andb_true_iff, !Z.leb_le. tauto. Qed.

Lemma inBounds_spec s :
  inBounds s = true <->
  0 <= currentHp s <= maxHp s /\ 0 <= currentMana s <= maxMana s.
Proof. unfold inBounds. rewrite !andb_true_iff, !Z.leb_le. tauto. Qed.

End ResourcesOk.

(** What the invariant says of a loaded object. *)
Ltac use_loaded :=
  repeat match goal with
         | H : exists h, resourcesOk h = true /\ view statsL h !! _ = Some _ |- _ =>
             apply ok_loaded_stats in H
         | H : exists h, resourcesOk h = true /\ view abilitiesL h !! _ = Some _ |- _ =>
             apply ok_loaded_ability in H
         | H : exists h, resourcesOk h = true /\ view effectsL h !! _ = Some _ |- _ =>
             apply ok_loaded_effect in H
         | H : exists h, resourcesOk h = true /\ _ |- _ => clear H
         end.

(** The side condition of a store or an allocation; what is left is that
    the new object is sane. *)
Ltac ok_side :=
  let h := fresh "h" in let Hok := fresh "Hok" in
  intros h Hok;
  first [ exact (ok_over_rows _ h Hok)
        | exact (ok_over_pieces _ h Hok)
        | exact (ok_over_arrays _ h Hok)
        | apply ok_store_stats; [use_loaded | exact Hok]
        | apply ok_alloc_stats; [use_loaded | exact Hok]
        | apply ok_store_ability; [use_loaded | exact Hok]
        | apply ok_store_effect; [use_loaded | exact Hok]
        | apply ok_alloc_effect; [use_loaded | exact Hok] ].

Ltac keeps := repeat keeps_step ok_side.

(** Arithmetic on the bounds. *)
Ltac bounds :=
  repeat match goal with
         | H : saneStats _ = true |- _ => apply saneStats_spec in H
         | H : saneEffect _ = true |- _ => unfold saneEffect in H
         | H : (_ <=? _) = true |- _ => apply Z.leb_le in H
         | H : (_ <=? _) = false |- _ => apply Z.leb_gt in H
         | H : (_ <? _) = true |- _ => apply Z.ltb_lt in H
         | H : (_ <? _) = false |- _ => apply Z.ltb_ge in H
         end;
  try apply saneStats_spec; try apply Z.leb_le; simpl in *; try lia.

Local Abbreviation Sane := (fun h : Heap => resourcesOk h = true).

Section KeptByTheStore.

Import GameStore.


Lemma readCell_ok board pos : preserves Sane (readCell board pos).
Proof. unfold readCell, rowOf. keeps. Qed.

Lemma writeCell_ok board pos v : preserves Sane (writeCell board pos v).
Proof. unfold writeCell, rowOf. keeps. Qed.

Lemma copyBoard_ok board : preserves Sane (copyBoard board).
Proof. unfold copyBoard. keeps. Qed.

Lemma derefBoard_ok board : preserves Sane (derefBoard board).
Proof. unfold derefBoard, derefRow. keeps. Qed.

Lemma executeCastling_ok king to board : preserves Sane (executeCastling king to board).
Proof.
  unfold executeCastling. keeps; try apply readCell_ok; try apply writeCell_ok.
Qed.

Lemma capture_ok attacker targetPiece to newBoard :
  preserves Sane (capture attacker targetPiece to newBoard).
Proof. unfold capture. keeps; try apply writeCell_ok. bounds. Qed.

Lemma regenerate_ok newTurn c : preserves Sane (regenerate newTurn c).
Proof. unfold regenerate. keeps. bounds. Qed.

Lemma tickTempHp_ok c : preserves Sane (tickTempHp c).
Proof.
  unfold tickTempHp. keeps.
  match goal with |- context [if ?c then _ else _] => destruct c end; bounds.
Qed.

Lemma mapBoard_ok f board :
  (forall c, preserves Sane (f c)) -> preserves Sane (mapBoard f board).
Proof. intros Hf. unfold mapBoard. keeps. apply Hf. Qed.

Lemma endTurn_ok state : preserves Sane (endTurn state).
Proof.
  unfold endTurn. keeps.
  - apply mapBoard_ok, regenerate_ok.
  - apply mapBoard_ok, tickTempHp_ok.
Qed.

Lemma movePiece_ok from to now state : preserves Sane (movePiece from to now state).
Proof.
  unfold movePiece. keeps;
    try apply readCell_ok; try apply writeCell_ok; try apply derefBoard_ok;
    try apply copyBoard_ok; try apply executeCastling_ok; try apply capture_ok;
    try apply endTurn_ok.
Qed.

End KeptByTheStore.

Section KeptByTheAbilities.

Import AbilitySystem.

Lemma getAOETargets_ok centerPos radius board :
  preserves Sane (getAOETargets centerPos radius board).
Proof. unfold getAOETargets. keeps. apply readCell_ok. Qed.

Lemma targetsOf_ok effect targetPos board :
  preserves Sane (targetsOf effect targetPos board).
Proof.
  unfold targetsOf. keeps; try apply readCell_ok; try apply getAOETargets_ok.
Qed.

Lemma executeDamageEffect_ok caster effect targetPos board out :
  preserves Sane (executeDamageEffect caster effect targetPos board out).
Proof.
  unfold executeDamageEffect. keeps;
    try apply targetsOf_ok; try apply writeCell_ok; bounds.
Qed.

Lemma executeHealEffect_ok caster effect targetPos board out :
  saneAbilityEffect effect = true ->
  preserves Sane (executeHealEffect caster effect targetPos board out).
Proof.
  intros He. unfold saneAbilityEffect in He. apply andb_true_iff in He as [Ha _].
  unfold executeHealEffect. keeps; try apply targetsOf_ok.
  destruct (amount effect); bounds.
Qed.

Lemma withoutEffect_ok arr eid : preserves Sane (withoutEffect arr eid).
Proof. unfold withoutEffect. keeps. Qed.

Lemma executeStatusEffect_ok caster effect targetPos board out :
  saneAbilityEffect effect = true ->
  preserves Sane (executeStatusEffect caster effect targetPos board out).
Proof.
  intros He. unfold saneAbilityEffect in He. apply andb_true_iff in He as [_ Hs].
  unfold executeStatusEffect. keeps;
    try apply targetsOf_ok; try apply withoutEffect_ok.
  exact Hs.
Qed.

Lemma executeTeleportEffect_ok caster effect targetPos board out :
  preserves Sane (executeTeleportEffect caster effect targetPos board out).
Proof. unfold executeTeleportEffect. keeps; apply writeCell_ok. Qed.

Lemma executeEffect_ok caster targetPos newBoard out effect :
  saneAbilityEffect effect = true ->
  preserves Sane (executeEffect caster targetPos newBoard out effect).
Proof.
  intros He. unfold executeEffect. destruct (kind effect).
  - apply executeDamageEffect_ok.
  - apply executeHealEffect_ok, He.
  - apply executeStatusEffect_ok, He.
  - apply executeStatusEffect_ok, He.
  - apply executeTeleportEffect_ok.
  - apply preserves_ret.
  - apply preserves_ret.
Qed.

Lemma processEffect_ok piece acc e : preserves Sane (processEffect piece acc e).
Proof. unfold processEffect. keeps; bounds. Qed.

Lemma processStatusEffects_ok piece : preserves Sane (processStatusEffects piece).
Proof. unfold processStatusEffects. keeps. apply processEffect_ok. Qed.

Lemma canUseAbility_true (piece : PieceOf PieceStats) (ability : Ability) :
  canUse (canUseAbility piece ability) = true ->
  isAlive piece = true /\ manaCost ability <= currentMana (stats piece) /\
  levelRequirement ability <= level piece.
Proof.
  unfold canUseAbility.
  destruct (isAlive piece); simpl; [| discriminate].
  destruct (Z.ltb_spec (currentMana (stats piece)) (manaCost ability)); simpl;
    [discriminate |].
  destruct (match currentCooldown ability with
            | Some c => negb (c =? 0) && (0 <? c)
            | None => false
            end); simpl; [discriminate |].
  destruct (Z.ltb_spec (level piece) (levelRequirement ability)); simpl;
    [discriminate |].
  intros _. auto.
Qed.

Lemma executeAbility_ok caster ability targetPos board :
  preserves Sane (executeAbility caster ability targetPos board).
Proof.
  intros h r h' Hok Hrun. unfold executeAbility in Hrun.
  apply bind_Some in Hrun as (newBoard & h1 & Hcopy & Hrun).
  pose proof (copyBoard_ok _ _ _ _ Hok Hcopy) as Hok1. simpl in Hok1.
  apply bind_Some in Hrun as (c & h2 & Hsnap & Hrun).
  unfold snapshotPiece in Hsnap. invert_run.
  destruct (canUse _) eqn:Hcan; simpl in Hrun.
  2:{ invert_run. exact Hok1. }
  apply canUseAbility_true in Hcan as (_ & Hmana & _). simpl in Hmana.
  do 4 invert_step. simpl in *. simplify_eq.
  pose proof (forallb_lookup _ _ _ _ (proj1 (proj1 (resourcesOk_spec h1) Hok1)) Hload1)
    as Hsane.
  match type of Hrun with
  | ?m ?h2 = Some _ =>
      assert (Hk : preserves Sane m); [| refine (Hk _ _ _ _ Hrun)]
  end.
  - apply preserves_load_bind. intros a Ha. use_loaded.
    apply preserves_bind.
    { apply preserves_store. ok_side.
      unfold saneAbility in *. exact Ha. }
    intros _. apply preserves_load_bind. intros a0 Ha0. use_loaded.
    apply preserves_bind.
    { apply preserves_foldM_In. intros out e Hin. apply executeEffect_ok.
      unfold saneAbility in Ha0. apply andb_true_iff in Ha0 as [_ Hall].
      rewrite forallb_forall in Hall. apply Hall, Hin. }
    intros out. keeps.
  - apply ok_store_stats; [| exact Hok1].
    pose proof (forallb_lookup _ _ _ _
                  (proj1 (proj2 (proj1 (resourcesOk_spec h1) Hok1))) Hload4) as Hcost.
    unfold saneAbility in Hcost. apply andb_true_iff in Hcost as [Hcost _].
    bounds.
Qed.

Lemma findCaster_ok pieceId board : preserves Sane (GameStore.findCaster pieceId board).
Proof. unfold GameStore.findCaster. keeps. apply readCell_ok. Qed.

Lemma findAbility_ok abilityId l : preserves Sane (GameStore.findAbility abilityId l).
Proof. induction l as [|a l IH]; simpl; keeps. exact IH. Qed.

Lemma useAbility_ok pieceId abilityId target state :
  preserves Sane (GameStore.useAbility pieceId abilityId target state).
Proof.
  unfold GameStore.useAbility. keeps;
    try apply findCaster_ok; try apply findAbility_ok; try apply derefBoard_ok;
    try apply executeAbility_ok.
Qed.

End KeptByTheAbilities.

(** * Every operation keeps hit points and mana in bounds *)

Section Bounds.

Import GameStore.

Lemma allInBounds_spec h :
  allInBounds h = true <->
  forall l s, statsH h !! l = Some s ->
              0 <= currentHp s <= maxHp s /\ 0 <= currentMana s <= maxMana s.
Proof.
  unfold allInBounds. rewrite forallb_forall. split.
  - intros H l s Hs. apply inBounds_spec, H, list_elem_of_In, list_elem_of_lookup. eauto.
  - intros H s Hs. apply list_elem_of_In, list_elem_of_lookup in Hs as [l Hl].
    apply inBounds_spec. eauto.
Qed.

Lemma resourcesOk_allInBounds h : resourcesOk h = true -> allInBounds h = true.
Proof.
  rewrite resourcesOk_spec. intros (H & _ & _). unfold allInBounds.
  rewrite forallb_forall in *. intros s Hs. specialize (H s Hs).
  unfold saneStats in H. apply andb_true_iff in H as [H _]. exact H.
Qed.

Lemma perform_ok op state : preserves (fun h => resourcesOk h = true) (perform op state).
Proof.
  destruct op; simpl.
  - apply movePiece_ok.
  - apply useAbility_ok.
  - apply preserves_bind; [apply executeAbility_ok | intros _; apply preserves_ret].
  - apply preserves_bind; [apply processStatusEffects_ok | intros _; apply preserves_ret].
  - apply endTurn_ok.
Qed.

(** The regeneration of [endTurn] keeps the bounds by itself, whatever
    the other magnitudes in the heap. *)
Lemma endTurn_keeps_bounds state :
  preserves (fun h => allInBounds h = true) (endTurn state).
Proof.
  assert (Hload : forall l v,
             (exists h, allInBounds h = true /\ view statsL h !! l = Some v) ->
             inBounds v = true).
  { intros l v (h & Hb & Hv). exact (forallb_lookup _ _ _ _ Hb Hv). }
  assert (Halloc : forall v h, inBounds v = true -> allInBounds h = true ->
             allInBounds (over statsL (fun s => s ++ [v]) h) = true).
  { intros v h Hv Hb. apply forallb_snoc; assumption. }
  assert (Hcell : forall f board,
             (forall c, preserves (fun h => allInBounds h = true) (f c)) ->
             preserves (fun h => allInBounds h = true) (mapBoard f board)).
  { intros f board Hf. unfold mapBoard.
    repeat keeps_step ltac:(intros ? Hb; exact Hb). apply Hf. }
  unfold endTurn.
  apply preserves_bind; [| intros newBoard; apply preserves_bind;
                           [| intros updated; apply preserves_ret]].
  - apply Hcell. intros c. unfold regenerate.
    repeat keeps_step ltac:(intros ? Hb; first [exact Hb | apply Halloc; [| exact Hb]]).
    match goal with H : exists _, _ /\ view statsL _ !! _ = Some _ |- _ =>
      apply Hload in H; apply inBounds_spec in H end.
    apply inBounds_spec. simpl. lia.
  - apply Hcell. intros c. unfold tickTempHp.
    repeat keeps_step ltac:(intros ? Hb; first [exact Hb | apply Halloc; [| exact Hb]]).
    match goal with H : exists _, _ /\ view statsL _ !! _ = Some _ |- _ =>
      apply Hload in H; apply inBounds_spec in H end.
    match goal with |- context [if ?c then _ else _] => destruct c end;
      apply inBounds_spec; simpl; lia.
Qed.

(** C10.  On a heap whose stats are in bounds (0 <= currentHp <= maxHp,
    0 <= currentMana <= maxMana) and whose magnitudes are not negative
    (attack power, mana cost, values of effects), every operation that
    returns (a move with its capture, the use of an ability with its
    damage, heal and status effects, the tick of the status effects of a
    piece, the end of a turn with its regeneration of 10 mana) leaves a
    heap with the same two properties: the stats of every piece, on the
    grid or not, are in bounds.  The end of a turn keeps the bounds also
    when nothing is assumed of the magnitudes. *)
Theorem operations_keep_bounds
    (op : Operation) (state state' : GameStore) (h h' : Heap) :
  perform op state h = Some (state', h') ->
  (resourcesOk h = true ->
   resourcesOk h' = true /\
   forall l s, statsH h' !! l = Some s ->
               0 <= currentHp s <= maxHp s /\ 0 <= currentMana s <= maxMana s) /\
  (op = EndTurn -> allInBounds h = true -> allInBounds h' = true).
Proof.
  intros Hrun. split.
  - intros Hok. pose proof (perform_ok op state h state' h' Hok Hrun) as Hok'.
    split; [exact Hok' |]. apply allInBounds_spec, resourcesOk_allInBounds, Hok'.
  - intros -> Hb. exact (endTurn_keeps_bounds state h state' h' Hb Hrun).
Qed.

End Bounds.

(** * What a capture does *)

Section Capture.

Import ChessRules GameStore.

Lemma copyBoard_inv board h nb h1 :
  Forall (fun r => is_Some (rowsH h !! r)) board ->
  copyBoard board h = Some (nb, h1) ->
  exists rows,
    h1 = mkHeap (rowsH h ++ rows) (piecesH h) (statsH h) (abilitiesH h)
           (effectArraysH h) (effectsH h) /\
    forall i r, board !! i = Some r ->
                nb !! i = Some (length (rowsH h) + i)%nat /\
                rows !! i = rowsH h !! r.
Proof.
  unfold copyBoard. revert h nb h1.
  induction board as [|r0 board IH]; intros h nb h1 Hall Hrun; simpl in Hrun.
  - apply ret_Some in Hrun. injection Hrun as -> ->.
    exists []. rewrite app_nil_r. destruct h. simpl.
    split; [reflexivity |]. intros i r [=].
  - apply Forall_cons in Hall as [_ Hall].
    apply bind_Some in Hrun as (n & h2 & Hfirst & Hrun).
    apply bind_Some in Hrun as (ns & h3 & Hrest & Hrun).
    apply ret_Some in Hrun. injection Hrun as -> ->.
    apply load_bind_Some in Hfirst as (row & Hrow & Hfirst).
    apply alloc_Some in Hfirst. injection Hfirst as -> ->. simpl in *.
    apply IH in Hrest as (rows & -> & Hrows).
    2:{ apply (Forall_impl _ _ _ Hall). intros r' [row' Hr']. exists row'.
        simpl. apply lookup_app_l_Some. assumption. }
    simpl in *. exists (row :: rows). rewrite <- app_assoc. simpl.
    split; [reflexivity |].
    rewrite Forall_forall in Hall.
    intros [|i] r Hr; simpl in *.
    + injection Hr as ->. split; [f_equal; lia | congruence].
    + destruct (Hrows i r Hr) as [H1 H2]. rewrite length_app in H1. simpl in H1.
      split; [rewrite H1; f_equal; lia |].
      rewrite H2. destruct (Hall r) as [row' Hr'].
      { apply list_elem_of_lookup. eauto. }
      rewrite Hr'. apply lookup_app_l_Some. assumption.
Qed.

Lemma derefBoard_inv board h b h1 :
  derefBoard board h = Some (b, h1) ->
  h1 = h /\ Forall (fun r => is_Some (rowsH h !! r)) board.
Proof.
  unfold derefBoard. destruct (length board <? 8)%nat; [discriminate |].
  assert (Hrow : forall row r h2, derefRow row h = Some (r, h2) -> h2 = h).
  { unfold derefRow. induction row as [|c row IH]; intros r h2 Hrun; simpl in Hrun.
    - invert_run. reflexivity.
    - destruct c as [l|]; invert_run;
        match goal with H : mapM _ _ _ = Some _ |- _ => apply IH in H; exact H end. }
  revert b h1. induction board as [|r0 board IH]; intros b h1 Hrun; simpl in Hrun.
  - invert_run. split; [reflexivity | constructor].
  - apply bind_Some in Hrun as (x & h2 & Hfirst & Hrun).
    apply bind_Some in Hrun as (xs & h3 & Hrest & Hrun).
    apply ret_Some in Hrun. injection Hrun as -> ->.
    apply load_bind_Some in Hfirst as (row & Hr & Hfirst).
    apply Hrow in Hfirst as ->.
    apply IH in Hrest as [-> Hall]. split; [reflexivity |].
    constructor; [eexists; exact Hr | exact Hall].
Qed.

Lemma readCell_inv board pos h c h1 :
  readCell board pos h = Some (c, h1) ->
  h1 = h /\ exists r row, 0 <= py pos /\ board !! Z.to_nat (py pos) = Some r /\
                          rowsH h !! r = Some row /\
                          c = if 0 <=? px pos then mjoin (row !! Z.to_nat (px pos)) else None.
Proof.
  unfold readCell, rowOf. intros Hrun.
  apply bind_Some in Hrun as (r & h2 & Hr & Hrun).
  destruct (Z.leb_spec 0 (py pos)); [| discriminate].
  destruct (board !! Z.to_nat (py pos)) as [r'|] eqn:Hb; [| discriminate].
  apply ret_Some in Hr. injection Hr as -> ->.
  invert_run. split; [reflexivity |]. exists r', v. auto.
Qed.

(** A cell of the copy of a grid holds what the cell of the grid holds. *)
Lemma readCell_copy board pos h c nb h1 :
  Forall (fun r => is_Some (rowsH h !! r)) board ->
  copyBoard board h = Some (nb, h1) ->
  readCell board pos h = Some (c, h) ->
  readCell nb pos h1 = Some (c, h1).
Proof.
  intros Hall Hcopy Hread.
  apply copyBoard_inv in Hcopy as (rows & -> & Hrows); [| exact Hall].
  apply readCell_inv in Hread as (_ & r & row & Hy & Hb & Hr & ->).
  destruct (Hrows _ _ Hb) as [Hnb Hrow].
  unfold readCell, rowOf.
  destruct (Z.leb_spec 0 (py pos)); [| lia]. rewrite Hnb.
  unfold bind, ret, load. simpl.
  rewrite lookup_app_r by lia.
  replace (length (rowsH h) + Z.to_nat (py pos) - length (rowsH h))%nat
    with (Z.to_nat (py pos)) by lia.
  rewrite Hrow, Hr. reflexivity.
Qed.

End Capture.

Section CaptureDamage.

Import ChessRules GameStore.

(** [endTurn] leaves the history of moves as it is. *)
Lemma endTurn_moveHistory state h state' h' :
  endTurn state h = Some (state', h') -> moveHistory state' = moveHistory state.
Proof. unfold endTurn. intros Hrun. invert_run. reflexivity. Qed.

(** Objects are never freed: code that only allocates pieces and stats
    and writes rows leaves a given piece and its stats as they are. *)
Lemma tail_keeps_object (tl : loc) (t : PieceOf loc) (ts : PieceStats) :
  let P := fun h => piecesH h !! tl = Some t /\ statsH h !! stats t = Some ts in
  (forall board pos v, preserves P (writeCell board pos v)) /\
  (forall board, preserves P (derefBoard board)) /\
  (forall state, preserves P (endTurn state)).
Proof.
  intros P.
  assert (Hrows : forall f h, P h -> P (over rowsL f h)) by auto.
  assert (Hpieces : forall v h, P h -> P (over piecesL (fun s => s ++ [v]) h)).
  { intros v h [H1 H2]. split; [apply lookup_app_l_Some |]; assumption. }
  assert (Hstats : forall v h, P h -> P (over statsL (fun s => s ++ [v]) h)).
  { intros v h [H1 H2]. split; [| apply lookup_app_l_Some]; assumption. }
  split; [| split].
  - intros board pos v. unfold writeCell, rowOf.
    repeat keeps_step ltac:(intros ? ?; apply Hrows; assumption).
  - intros board. unfold derefBoard, derefRow.
    repeat keeps_step ltac:(intros ? ?; apply Hrows; assumption).
  - intros state. unfold endTurn, mapBoard, regenerate, tickTempHp.
    repeat keeps_step ltac:(intros ? ?;
      first [apply Hrows | apply Hpieces | apply Hstats]; assumption).
Qed.

(** C2 (as the code has it).  When a queen with 40 attack power takes, by
    [movePiece], a living pawn with 5 defense and 50 hit points, the move
    recorded has the damage 40, the attack power with nothing taken off
    for the defense, the pawn's hit points are 10 afterwards, and the
    pawn is still flagged alive. *)
Theorem queen_takes_pawn_for_40
    (from to : Position) (now : Z) (state state' : GameStore) (h h' : Heap)
    (pl tl : loc) (p t : PieceOf loc) (ps ts : PieceStats) (b : BoardOf loc) :
  readCell (board state) from h = Some (Some pl, h) ->
  readCell (board state) to h = Some (Some tl, h) ->
  piecesH h !! pl = Some p -> statsH h !! stats p = Some ps ->
  piecesH h !! tl = Some t -> statsH h !! stats t = Some ts ->
  type p = QUEEN -> attackPower ps = 40 ->
  type t = PAWN -> defense ts = 5 -> currentHp ts = 50 -> isAlive t = true ->
  derefBoard (board state) h = Some (b, h) -> isMoveValid p to b = true ->
  movePiece from to now state h = Some (state', h') ->
  (exists move, moveHistory state' = moveHistory state ++ [move] /\
                damage move = Some 40) /\
  (exists t' ts', piecesH h' !! tl = Some t' /\ statsH h' !! stats t' = Some ts' /\
                  currentHp ts' = 10 /\ isAlive t' = true).
Proof.
  intros Hfrom Hto Hp Hps Ht Hts Hq Hatk Hpawn Hdef Hhp Halive Hb Hvalid Hrun.
  pose proof (derefBoard_inv _ _ _ _ Hb) as [_ Hrows].
  unfold movePiece in Hrun.
  rewrite (bind_run _ _ _ _ _ Hfrom) in Hrun.
  rewrite (bind_run _ _ _ _ _ (load_run piecesL pl h p Hp)) in Hrun.
  rewrite (bind_run _ _ _ _ _ Hb) in Hrun.
  rewrite Hvalid in Hrun. simpl in Hrun.
  apply bind_Some in Hrun as (newBoard & h1 & Hcopy & Hrun).
  pose proof (readCell_copy _ _ _ _ _ _ Hrows Hcopy Hto) as Hto'.
  apply copyBoard_inv in Hcopy as (rows & -> & _); [| exact Hrows].
  rewrite (bind_run _ _ _ _ _ Hto') in Hrun.
  assert (Hnc : isCastlingMove p to = false).
  { unfold isCastlingMove. rewrite Hq. reflexivity. }
  rewrite Hnc in Hrun. clear Hto' Hfrom Hto Hb Hvalid Hnc.
  invert_run. simpl in *.
  rewrite Hp in Hload. injection Hload as <-.
  rewrite (lookup_app_l_Some _ _ _ _ Ht) in Hload0. injection Hload0 as <-.
  assert (Hp2 : ((piecesH h ++ [p]) ++ [t]) !! pl = Some p)
    by (repeat apply lookup_app_l_Some; exact Hp).
  assert (Ht2 : ((piecesH h ++ [p]) ++ [t]) !! tl = Some t)
    by (repeat apply lookup_app_l_Some; exact Ht).
  apply (proj1 (load_bind_Some _ _ _ _ _)) in Hrun1 as (p' & Hp' & Hrun1).
  simpl in Hp'. rewrite Hp2 in Hp'. injection Hp' as <-.
  apply (proj1 (load_bind_Some _ _ _ _ _)) in Hrun1 as (ps' & Hps' & Hrun1).
  simpl in Hps'. rewrite Hps in Hps'. injection Hps' as <-.
  apply (proj1 (load_bind_Some _ _ _ _ _)) in Hrun1 as (t' & Ht' & Hrun1).
  simpl in Ht'. rewrite Ht2 in Ht'. injection Ht' as <-.
  apply (proj1 (load_bind_Some _ _ _ _ _)) in Hrun1 as (ts' & Hts' & Hrun1).
  simpl in Hts'. rewrite Hts in Hts'. injection Hts' as <-.
  rewrite Hhp, Hatk in Hrun1. simpl in Hrun1.
  apply (proj1 (store_bind_Some _ _ _ _ _ _)) in Hrun1 as (_ & Hrun1).
  apply ret_Some in Hrun1. injection Hrun1 as -> ->. simpl in *.
  rewrite Hp2 in Hload1. injection Hload1 as <-.
  assert (Hne : pl <> tl) by (intros ->; rewrite Hp in Ht; congruence).
  destruct (tail_keeps_object tl t (setCurrentHp ts 10)) as (Hw & Hd & He).
  split.
  - apply endTurn_moveHistory in Hrun. simpl in Hrun. eauto.
  - exists t, (setCurrentHp ts 10).
    refine ((fun H => conj (proj1 H) (conj (proj2 H) (conj eq_refl Halive))) _).
    refine (He _ _ _ _ _ Hrun). refine (Hd _ _ _ _ _ Hrun4).
    refine (Hw _ _ _ _ _ _ _ Hrun3). refine (Hw _ _ _ _ _ _ _ Hrun2).
    simpl. split.
    + rewrite list_lookup_insert_ne by exact Hne. exact Ht2.
    + apply list_lookup_insert_eq. apply lookup_lt_Some in Hts. exact Hts.
Qed.

End CaptureDamage.

(** * The engine on given games *)

Section Examples.

Import ChessRules AbilitySystem GameStore.

(** The games of the examples are what [movePiece] makes of the moves. *)
Lemma queenAttacks_played :
  queenAttacks =
  play [ (mkPos 4 6, mkPos 4 4); (mkPos 4 1, mkPos 4 3);
         (mkPos 3 7, mkPos 7 3); (mkPos 0 1, mkPos 0 2) ] newGame.
Proof. vm_compute. reflexivity. Qed.

Lemma pawnAttacks_played :
  pawnAttacks = play [ (mkPos 4 6, mkPos 4 4); (mkPos 3 1, mkPos 3 3) ] newGame.
Proof. vm_compute. reflexivity. Qed.

Lemma atStart_newGame : atStart = newGame.
Proof. vm_compute. reflexivity. Qed.

(** C1 (the code departs from it).  After 1. e4 d5 the white pawn (piece
    50, attack power 20) takes the black pawn on d5 (piece 44, named
    black-pawn-3, 50 hit points).  The capture leaves the defender 30 hit
    points and flagged alive, and yet the defender stands on no square
    afterwards: d5 holds the attacker, and no piece of the grid has the
    defender's name. *)
Theorem surviving_defender_leaves_the_board :
  observe pawnAttacks
    (fun st => a <- readCell (board st) (mkPos 4 4) ;;
               d <- readCell (board st) (mkPos 3 3) ;;
               ap <- snapshotPiece 50 ;; dp <- snapshotPiece 44 ;;
               named <- pieceNamed "black-pawn-3" st ;;
               ret (a, attackPower (stats ap), d, id dp, currentHp (stats dp),
                    isAlive dp, (fun x => position (fst x)) <$> named))
  = Some (Some 50%nat, 20, Some 44%nat, "black-pawn-3", 50, true,
          Some (mkPos 3 3)) /\
  observe (play [(mkPos 4 4, mkPos 3 3)] pawnAttacks)
    (fun st => d <- readCell (board st) (mkPos 3 3) ;;
               dp <- snapshotPiece 44 ;;
               on <- squaresOf 44 (board st) ;;
               named <- pieceNamed "black-pawn-3" st ;;
               ret (d, currentHp (stats dp), isAlive dp, on,
                    (fun x => position (fst x)) <$> named))
  = Some (Some 50%nat, 30, true, [], None).
Proof. split; vm_compute; reflexivity. Qed.

(** C2 (as stated, it fails).  After 1. e4 e5 2. Qh5 a6 the white queen
    (piece 84, attack power 40) takes the pawn on e5 (piece 82, defense
    5, 50 hit points): the move records the damage 40 and leaves the pawn
    10 hit points, not 35 and 15. *)
Lemma queen_takes_pawn_not_for_35 :
  observe queenAttacks
    (fun st => a <- readCell (board st) (mkPos 7 3) ;;
               d <- readCell (board st) (mkPos 4 3) ;;
               q <- snapshotPiece 84 ;; p <- snapshotPiece 82 ;;
               ret (a, type q, attackPower (stats q),
                    d, type p, defense (stats p), currentHp (stats p)))
  = Some (Some 84%nat, QUEEN, 40, Some 82%nat, PAWN, 5, 50) /\
  observe (play [(mkPos 7 3, mkPos 4 3)] queenAttacks)
    (fun st => p <- snapshotPiece 82 ;;
               ret (damage <$> last (moveHistory st), currentHp (stats p)))
  = Some (Some (Some 40), 10) /\
  observe (play [(mkPos 7 3, mkPos 4 3)] queenAttacks)
    (fun st => p <- snapshotPiece 82 ;;
               ret (damage <$> last (moveHistory st), currentHp (stats p)))
  <> Some (Some (Some 35), 15).
Proof.
  split; [vm_compute; reflexivity |]. split; [vm_compute; reflexivity |].
  vm_compute. discriminate.
Qed.

(** C5 (the code departs from it).  At the start of a game the pawn on a2
    (piece 1) casts Shield Wall (ability 0) on itself.  Read through the
    grid that was given to [executeAbility], the pawn has 100 mana and no
    status effect before the call and 80 mana and the effect Shield Wall
    after it; the ability object, shared by all pawns, is cooling down.
    The cells of the given grid are as before. *)
Theorem executeAbility_updates_the_given_pieces :
  observe atStart
    (fun st => c <- readCell (board st) (mkPos 0 6) ;;
               p <- pieceNamed "white-pawn-0" st ;;
               a <- load abilitiesL 0 ;;
               ret (c, (fun x => (currentMana (stats (fst x)), snd x)) <$> p,
                    currentCooldown a))
  = Some (Some 1%nat, Some (100, []), None) /\
  observe atStart
    (fun st => r <- executeAbility 1 0 (mkPos 0 6) (board st) ;;
               c <- readCell (board st) (mkPos 0 6) ;;
               p <- pieceNamed "white-pawn-0" st ;;
               a <- load abilitiesL 0 ;;
               ret (success r, c,
                    (fun x => (currentMana (stats (fst x)), snd x)) <$> p,
                    currentCooldown a))
  = Some (true, Some 1%nat, Some (80, [shieldWall]), Some 5).
Proof. split; vm_compute; reflexivity. Qed.

(** [endTurn] reads and writes no status effect. *)
Lemma endTurn_ignores_status_effects state h state' h' :
  endTurn state h = Some (state', h') ->
  effectsH h' = effectsH h /\ effectArraysH h' = effectArraysH h.
Proof.
  intros Hrun.
  assert (Hkeep : preserves (fun h0 => effectsH h0 = effectsH h /\
                                       effectArraysH h0 = effectArraysH h)
                    (endTurn state)).
  { unfold endTurn, mapBoard, regenerate, tickTempHp.
    repeat keeps_step ltac:(intros ? Hsame; exact Hsame). }
  exact (Hkeep h state' h' (conj eq_refl eq_refl) Hrun).
Qed.

(** C9 (the code departs from it).  White's pawn on a2 casts Shield Wall,
    a status effect of 3 turns.  After White's turn and Black's turn have
    ended it is White's turn again, the third of the game, and the effect
    still has 3 turns to run: nothing calls [processStatusEffects]. *)
Theorem status_effects_never_tick :
  let cast := after atStart (useAbility "white-pawn-0" "pawn_charge" None) in
  let later := after (after cast endTurn) endTurn in
  observe cast
    (fun st => p <- pieceNamed "white-pawn-0" st ;;
               ret (snd <$> p, currentTurn st, turnCount st))
  = Some (Some [shieldWall], WHITE, 1) /\
  duration shieldWall = 3 /\
  observe later
    (fun st => p <- pieceNamed "white-pawn-0" st ;;
               ret (snd <$> p, currentTurn st, turnCount st))
  = Some (Some [shieldWall], WHITE, 3).
Proof. intros cast later. repeat split; vm_compute; reflexivity. Qed.

(** What [processStatusEffects] does when it is called: an effect with
    one turn left is decremented once, dropped, and reported. *)
Lemma processStatusEffects_example :
  let lastTurn := mkStatusEffect "shield_wall" "Shield Wall" BUFF 1 2 false in
  observe atStart
    (fun st => e <- alloc effectsL lastTurn ;;
               p <- load piecesL 1 ;;
               store effectArraysL (statusEffects p) [e] ;;;
               msgs <- processStatusEffects 1 ;;
               es <- effectsOf 1 ;;
               eff <- load effectsL e ;;
               ret (msgs, es, duration eff))
  = Some ([WornOff "Shield Wall" PAWN], [], 0).
Proof. vm_compute. reflexivity. Qed.

End Examples.


(** * The general results on given games *)

Section Instances.

Import ChessRules AbilitySystem GameStore.

(** The queen on h5 takes the pawn on e5 in [queenAttacks]. *)
Lemma queen_takes_pawn_for_40_witness :
  match queenAttacks with
  | Some (state, h) =>
      match movePiece (mkPos 7 3) (mkPos 4 3) 0 state h with
      | Some (state', h') =>
          (exists move, moveHistory state' = moveHistory state ++ [move] /\
                        damage move = Some 40) /\
          (exists t' ts', piecesH h' !! 82%nat = Some t' /\
                          statsH h' !! stats t' = Some ts' /\
                          currentHp ts' = 10 /\ isAlive t' = true)
      | None => False
      end
  | None => False
  end.
Proof.
  unfold queenAttacks.
  match goal with
  | |- match ?m with _ => _ end => destruct m as [[state' h']|] eqn:Hrun
  end.
  2:{ vm_compute in Hrun. discriminate Hrun. }
  eapply (queen_takes_pawn_for_40 _ _ _ _ _ _ _ 84%nat 82%nat);
    [ .. | exact Hrun]; solve [cbv; reflexivity].
Defined.

(** White castles on the king's side in [castlingReady]. *)
Lemma legal_move_leaves_king_safe_witness :
  let king := ChessAI.pieceAt KING WHITE 4 7 150 in
  wellFormed ChessAI.castlingReady = true /\
  consistent ChessAI.castlingReady = true /\
  oneKing WHITE ChessAI.castlingReady = true /\
  cell ChessAI.castlingReady (mkPos 4 7) = Some king /\
  In (mkPos 6 7) (getValidMoves king ChessAI.castlingReady) /\
  isKingInCheck WHITE
    (ChessAI.makeMove ChessAI.castlingReady
       (ChessAI.mkAIMove (mkPos 4 7) (mkPos 6 7) 0 king)) = false.
Proof.
  intros king.
  assert (Hw : wellFormed ChessAI.castlingReady = true) by (vm_compute; reflexivity).
  assert (Hc : consistent ChessAI.castlingReady = true) by (vm_compute; reflexivity).
  assert (Ho : oneKing (team king) ChessAI.castlingReady = true)
    by (vm_compute; reflexivity).
  assert (Hk : cell ChessAI.castlingReady (position king) = Some king)
    by (vm_compute; reflexivity).
  assert (Hin : In (mkPos 6 7) (getValidMoves king ChessAI.castlingReady)).
  { vm_compute. do 5 right. left. reflexivity. }
  repeat (split; [assumption |]).
  exact (legal_move_leaves_king_safe ChessAI.castlingReady king (mkPos 6 7)
           Hw Hc Ho Hk Hin).
Defined.

(** In [castlingReady] the white king may castle on the king's side, and
    not on the queen's side, where no rook stands. *)
Lemma castling_destination_spec_witness :
  let king := ChessAI.pieceAt KING WHITE 4 7 150 in
  In (mkPos 6 7) (getValidMoves king ChessAI.castlingReady) /\
  ~ In (mkPos 2 7) (getValidMoves king ChessAI.castlingReady).
Proof.
  intros king.
  destruct (castling_destination_spec king ChessAI.castlingReady 7
              eq_refl eq_refl ltac:(lia)) as [Hking Hqueen].
  split.
  - apply Hking. split; [reflexivity |]. split; [vm_compute; reflexivity |].
    split; [exists (ChessAI.pieceAt ROOK WHITE 7 7 100); repeat split; vm_compute; reflexivity |].
    split; [split; vm_compute; reflexivity |].
    split; vm_compute; reflexivity.
  - intros Hin. apply Hqueen in Hin as (_ & _ & (rook & Hr & _) & _).
    vm_compute in Hr. discriminate Hr.
Defined.

(** With 10 mana the pawn on a2 is refused Shield Wall, which costs 20. *)
Lemma executeAbility_refused_witness :
  match lowMana with
  | Some (state, h) =>
      exists why copies,
        executeAbility 1 0 (mkPos 0 6) (board state) h =
        Some (mkResult false (board state) [Text why] [],
              mkHeap (rowsH h ++ copies) (piecesH h) (statsH h) (abilitiesH h)
                (effectArraysH h) (effectsH h))
  | None => False
  end.
Proof.
  unfold lowMana.
  eapply (executeAbility_refused_changes_nothing 1 0).
  - cbv. reflexivity.
  - cbv. reflexivity.
  - cbv. reflexivity.
  - repeat (constructor; [eexists; cbv; reflexivity |]). constructor.
  - right. left. cbv. reflexivity.
Defined.

(** The pawn on e4 takes the pawn on d5 in [pawnAttacks]. *)
Lemma operations_keep_bounds_witness :
  match pawnAttacks with
  | Some (state, h) =>
      match perform (MovePiece (mkPos 4 4) (mkPos 3 3) 0) state h with
      | Some (state', h') =>
          resourcesOk h = true /\ resourcesOk h' = true /\
          forall l s, statsH h' !! l = Some s ->
                      0 <= currentHp s <= maxHp s /\ 0 <= currentMana s <= maxMana s
      | None => False
      end
  | None => False
  end.
Proof.
  unfold pawnAttacks.
  match goal with
  | |- match ?m with _ => _ end => destruct m as [[state' h']|] eqn:Hrun
  end.
  2:{ vm_compute in Hrun. discriminate Hrun. }
  split; [vm_compute; reflexivity |].
  apply (proj1 (operations_keep_bounds _ _ _ _ _ Hrun)).
  vm_compute. reflexivity.
Defined.

End Instances.

(** * The moves of the pieces *)

Section Moves.

Context {S : Type}.

Import ChessRules.

Implicit Types (p : PieceOf S) (b : BoardOf S) (pos : Position).

(** A square reached by a ray. *)
Lemma In_rays p b pos (dirs : list (Z * Z)) :
  In pos (flat_map (fun d => castRay p b (fst d) (snd d) raySteps) dirs) <->
  exists dx dy i,
    In (dx, dy) dirs /\ 1 <= i <= 7 /\
    pos = mkPos (px (position p) + dx * i) (py (position p) + dy * i) /\
    isValidPosition pos = true /\ emptyOrEnemy b p pos = true /\
    forall j, 1 <= j < i ->
      isValidPosition (mkPos (px (position p) + dx * j) (py (position p) + dy * j)) = true /\
      cell b (mkPos (px (position p) + dx * j) (py (position p) + dy * j)) = None.
Proof.
  rewrite in_flat_map. split.
  - intros ([dx dy] & Hd & Hin). simpl in Hin.
    apply (castRay_spec _ _ _ _ _ _ raySteps_sorted) in Hin
      as (i & Hi & -> & Hv & He & Hfree).
    exists dx, dy, i. apply raySteps_spec in Hi.
    repeat (split; [first [assumption | reflexivity | lia] |]).
    intros j Hj. apply Hfree; [apply raySteps_spec |]; lia.
  - intros (dx & dy & i & Hd & Hi & -> & Hv & He & Hfree).
    exists (dx, dy). split; [assumption |]. simpl.
    apply (castRay_spec _ _ _ _ _ _ raySteps_sorted).
    exists i. split; [apply raySteps_spec; assumption |].
    repeat (split; [first [assumption | reflexivity] |]).
    intros j Hj Hlt. apply raySteps_spec in Hj. apply Hfree. lia.
Qed.

(** On a ray between two squares of the board, every square is on the
    board. *)
Lemma between_valid p dx dy i j :
  isValidPosition (position p) = true ->
  isValidPosition (mkPos (px (position p) + dx * i) (py (position p) + dy * i)) = true ->
  -1 <= dx <= 1 -> -1 <= dy <= 1 -> 1 <= j < i ->
  isValidPosition (mkPos (px (position p) + dx * j) (py (position p) + dy * j)) = true.
Proof.
  rewrite !isValidPosition_spec. simpl. intros H0 Hi Hdx Hdy Hj.
  assert (Hx : dx = -1 \/ dx = 0 \/ dx = 1) by lia.
  assert (Hy : dy = -1 \/ dy = 0 \/ dy = 1) by lia.
  destruct Hx as [-> | [-> | ->]], Hy as [-> | [-> | ->]]; lia.
Qed.

(** What every generator of moves returns is an empty square or a square
    held by the other team. *)
Lemma moves_emptyOrEnemy p b pos :
  In pos (match type p with
          | PAWN => getPawnMoves p b
          | KNIGHT => getKnightMoves p b
          | BISHOP => getBishopMoves p b
          | ROOK => getRookMoves p b
          | QUEEN => getQueenMoves p b
          | KING => getKingMoves p b
          end) ->
  emptyOrEnemy b p pos = true.
Proof.
  destruct (type p).
  - intros Hin. apply In_getPawnMoves in Hin as [Hnone | (_ & He & _)].
    + apply emptyOrEnemy_spec. left. assumption.
    + apply emptyOrEnemy_spec. right. apply enemyAt_spec. assumption.
  - unfold getKnightMoves. rewrite In_filter_iff, andb_true_iff. tauto.
  - unfold getBishopMoves, getDiagonalMoves. rewrite In_rays.
    intros (dx & dy & i & _ & _ & _ & _ & He & _). assumption.
  - unfold getRookMoves, getStraightMoves. rewrite In_rays.
    intros (dx & dy & i & _ & _ & _ & _ & He & _). assumption.
  - unfold getQueenMoves, getStraightMoves, getDiagonalMoves.
    rewrite in_app_iff, !In_rays.
    intros [(dx & dy & i & _ & _ & _ & _ & He & _)
           |(dx & dy & i & _ & _ & _ & _ & He & _)]; assumption.
  - rewrite In_getKingMoves.
    intros [Hb | (_ & _ & Hc)].
    + unfold getBasicKingMoves in Hb.
      rewrite In_filter_iff, andb_true_iff in Hb. tauto.
    + apply In_getCastlingMoves in Hc. cbv zeta in Hc.
      apply emptyOrEnemy_spec. left.
      destruct Hc as [(-> & _ & (_ & H6) & _) | (-> & _ & (_ & H2 & _) & _)];
        assumption.
Qed.

(** X1.  A legal move of a piece that stands on the grid goes to a square
    of the board other than its own, and that square is empty or holds a
    piece of the other team: no piece takes a piece of its own team. *)
Theorem legal_moves_never_take_own_piece p b pos :
  wellFormed b = true -> cell b (position p) = Some p ->
  In pos (getValidMoves p b) ->
  isValidPosition pos = true /\ pos <> position p /\
  forall q, cell b pos = Some q -> team q <> team p.
Proof.
  intros _ Hcell Hin. unfold getValidMoves in Hin.
  rewrite In_filter_iff, andb_true_iff in Hin. destruct Hin as [[Hv _] Hin].
  apply moves_emptyOrEnemy, emptyOrEnemy_spec in Hin.
  assert (Hteam : forall q, cell b pos = Some q -> team q <> team p).
  { intros q Hq. destruct Hin as [Hnone | (q' & Hq' & Ht)]; congruence. }
  split; [assumption |]. split; [| assumption].
  intros ->. exact (Hteam p Hcell eq_refl).
Qed.

(** X2.  The moves of the rook, the bishop and the queen from a square of
    the board: the squares at 1 to 7 steps in one of the four straight
    directions (rook), the four diagonal directions (bishop) or any of
    the eight (queen) that are on the board, empty or held by the other
    team, and such that every square passed on the way is empty.  A
    sliding piece does not jump. *)
Theorem sliding_moves_spec p b pos :
  wellFormed b = true -> isValidPosition (position p) = true ->
  let reaches (dx dy : Z) :=
    exists i, 1 <= i <= 7 /\
      pos = mkPos (px (position p) + dx * i) (py (position p) + dy * i) /\
      isValidPosition pos = true /\ emptyOrEnemy b p pos = true /\
      forall j, 1 <= j < i ->
        cell b (mkPos (px (position p) + dx * j) (py (position p) + dy * j)) = None in
  (In pos (getRookMoves p b) <->
     exists dx dy, -1 <= dx <= 1 /\ -1 <= dy <= 1 /\ Z.abs dx + Z.abs dy = 1 /\
                   reaches dx dy) /\
  (In pos (getBishopMoves p b) <->
     exists dx dy, Z.abs dx = 1 /\ Z.abs dy = 1 /\ reaches dx dy) /\
  (In pos (getQueenMoves p b) <->
     exists dx dy, -1 <= dx <= 1 /\ -1 <= dy <= 1 /\ (dx, dy) <> (0, 0) /\
                   reaches dx dy).
Proof.
  intros _ Hp reaches.
  assert (Hrays : forall dirs,
    (forall d, In d dirs -> -1 <= fst d <= 1 /\ -1 <= snd d <= 1) ->
    In pos (flat_map (fun d => castRay p b (fst d) (snd d) raySteps) dirs) <->
    exists dx dy, In (dx, dy) dirs /\ reaches dx dy).
  { intros dirs Hdirs. rewrite In_rays. split.
    - intros (dx & dy & i & Hd & Hi & Hpos & Hv & He & Hfree).
      exists dx, dy. split; [assumption |]. exists i.
      repeat (split; [assumption |]). intros j Hj. apply Hfree. assumption.
    - intros (dx & dy & Hd & i & Hi & Hpos & Hv & He & Hfree).
      exists dx, dy, i. repeat (split; [assumption |]).
      intros j Hj. split; [| apply Hfree; assumption].
      specialize (Hdirs _ Hd). simpl in Hdirs.
      rewrite Hpos in Hv. apply (between_valid p dx dy i j); tauto. }
  assert (Hstraight : forall d : Z * Z,
            In d [(0, 1); (0, -1); (1, 0); (-1, 0)] <->
            -1 <= fst d <= 1 /\ -1 <= snd d <= 1 /\ Z.abs (fst d) + Z.abs (snd d) = 1).
  { intros [dx dy]. simpl. split.
    - intros [[= <- <-] | [[= <- <-] | [[= <- <-] | [[= <- <-] | []]]]]; lia.
    - intros (Hx & Hy & Hs).
      assert (Hc : (dx = 0 /\ dy = 1) \/ (dx = 0 /\ dy = -1) \/
                   (dx = 1 /\ dy = 0) \/ (dx = -1 /\ dy = 0)) by lia.
      destruct Hc as [[-> ->] | [[-> ->] | [[-> ->] | [-> ->]]]]; tauto. }
  assert (Hdiag : forall d : Z * Z,
            In d [(1, 1); (1, -1); (-1, 1); (-1, -1)] <->
            Z.abs (fst d) = 1 /\ Z.abs (snd d) = 1).
  { intros [dx dy]. simpl. split.
    - intros [[= <- <-] | [[= <- <-] | [[= <- <-] | [[= <- <-] | []]]]]; lia.
    - intros (Hx & Hy).
      assert (Hc : (dx = 1 /\ dy = 1) \/ (dx = 1 /\ dy = -1) \/
                   (dx = -1 /\ dy = 1) \/ (dx = -1 /\ dy = -1)) by lia.
      destruct Hc as [[-> ->] | [[-> ->] | [[-> ->] | [-> ->]]]]; tauto. }
  assert (Hs : In pos (getStraightMoves p b) <->
               exists dx dy, -1 <= dx <= 1 /\ -1 <= dy <= 1 /\
                             Z.abs dx + Z.abs dy = 1 /\ reaches dx dy).
  { unfold getStraightMoves. rewrite Hrays.
    - split; intros (dx & dy & Hd & Hr); exists dx, dy.
      + apply Hstraight in Hd. simpl in Hd. tauto.
      + split; [apply Hstraight; simpl; tauto | tauto].
    - intros d Hd. apply Hstraight in Hd. tauto. }
  assert (Hd : In pos (getDiagonalMoves p b) <->
               exists dx dy, Z.abs dx = 1 /\ Z.abs dy = 1 /\ reaches dx dy).
  { unfold getDiagonalMoves. rewrite Hrays.
    - split; intros (dx & dy & Hd & Hr); exists dx, dy.
      + apply Hdiag in Hd. simpl in Hd. tauto.
      + split; [apply Hdiag; simpl; tauto | tauto].
    - intros d Hd. apply Hdiag in Hd. lia. }
  split; [exact Hs |]. split; [exact Hd |].
  unfold getQueenMoves. rewrite in_app_iff, Hs, Hd. split.
  - intros [(dx & dy & Hx & Hy & Hsum & Hr) | (dx & dy & Hx & Hy & Hr)];
      exists dx, dy; (repeat (split; [lia |])); (split; [| assumption]);
      intros [= -> ->]; lia.
  - intros (dx & dy & Hx & Hy & Hne & Hr).
    destruct (decide (Z.abs dx + Z.abs dy = 1)) as [Hone | Htwo].
    + left. exists dx, dy. tauto.
    + right. exists dx, dy.
      assert (Z.abs dx = 1 /\ Z.abs dy = 1).
      { destruct (decide (dx = 0)) as [-> |], (decide (dy = 0)) as [-> |];
          [exfalso; apply Hne; reflexivity | lia ..]. }
      tauto.
Qed.

(** X3.  The moves of the knight: the squares of the board two files and
    one row away, or one file and two rows away, that are empty or held
    by the other team, whatever stands in between. *)
Theorem knight_moves_spec p b pos :
  wellFormed b = true ->
  In pos (getKnightMoves p b) <->
  isValidPosition pos = true /\ emptyOrEnemy b p pos = true /\
  ((Z.abs (px pos - px (position p)) = 2 /\ Z.abs (py pos - py (position p)) = 1) \/
   (Z.abs (px pos - px (position p)) = 1 /\ Z.abs (py pos - py (position p)) = 2)).
Proof.
  intros _. unfold getKnightMoves.
  rewrite In_filter_iff, andb_true_iff.
  destruct pos as [x y], (position p) as [x0 y0]. simpl.
  split.
  - intros [[Hv He] Hin]. split; [assumption |]. split; [assumption |].
    repeat (destruct Hin as [[= <- <-] | Hin]; [lia |]). destruct Hin.
  - intros (Hv & He & Hgeo). split; [tauto |].
    assert (Hc : (x = x0 + 2 /\ y = y0 + 1) \/ (x = x0 + 2 /\ y = y0 - 1) \/
                 (x = x0 - 2 /\ y = y0 + 1) \/ (x = x0 - 2 /\ y = y0 - 1) \/
                 (x = x0 + 1 /\ y = y0 + 2) \/ (x = x0 + 1 /\ y = y0 - 2) \/
                 (x = x0 - 1 /\ y = y0 + 2) \/ (x = x0 - 1 /\ y = y0 - 2)) by lia.
    destruct Hc as [[-> ->] | [[-> ->] | [[-> ->] | [[-> ->] | [[-> ->] |
                   [[-> ->] | [[-> ->] | [-> ->]]]]]]]]; tauto.
Qed.

(** X4.  The moves of the pawn: one row forward onto an empty square;
    two rows forward from the start row of its team (row 6 for White, row
    1 for Black) when both squares are empty; one row forward and one
    file aside onto a square held by the other team.  It never moves onto
    a piece straight ahead, and never backwards or sideways. *)
Theorem pawn_moves_spec p b pos :
  wellFormed b = true ->
  let x := px (position p) in
  let y := py (position p) in
  let dir := if bool_decide (team p = WHITE) then -1 else 1 in
  let startRow := if bool_decide (team p = WHITE) then 6 else 1 in
  In pos (getPawnMoves p b) <->
  isValidPosition pos = true /\
  ((pos = mkPos x (y + dir) /\ cell b pos = None) \/
   (pos = mkPos x (y + dir * 2) /\ y = startRow /\
    cell b (mkPos x (y + dir)) = None /\ cell b pos = None) \/
   ((pos = mkPos (x - 1) (y + dir) \/ pos = mkPos (x + 1) (y + dir)) /\
    enemyAt b p pos = true)).
Proof.
  intros _ x y dir startRow. unfold getPawnMoves. cbv zeta.
  fold x y dir startRow.
  set (one := mkPos x (y + dir)). set (two := mkPos x (y + dir * 2)).
  set (left := mkPos (x - 1) (y + dir)). set (right := mkPos (x + 1) (y + dir)).
  assert (Hrow : y = startRow -> isValidPosition two = true ->
                 isValidPosition one = true).
  { rewrite !isValidPosition_spec. simpl. subst dir startRow.
    destruct (bool_decide (team p = WHITE)); lia. }
  assert (Hforward :
    In pos (if isValidPosition one && isEmpty b one
            then one :: (if y =? startRow
                         then (if isValidPosition two && isEmpty b two
                               then [two] else [])
                         else [])
            else []) <->
    (isValidPosition one = true /\ cell b one = None) /\
    (pos = one \/
     (y = startRow /\ isValidPosition two = true /\ cell b two = None /\ pos = two))).
  { pose proof (isEmpty_spec b one) as E1. pose proof (isEmpty_spec b two) as E2.
    destruct (isValidPosition one), (isEmpty b one); simpl;
      [destruct (Z.eqb_spec y startRow);
         [destruct (isValidPosition two), (isEmpty b two); simpl |] | ..];
      simpl; intuition (subst; try discriminate; try congruence; auto). }
  rewrite in_app_iff, Hforward, In_filter_iff, andb_true_iff. simpl.
  clearbody one two left right. clear Hforward.
  split.
  - intros [[[Hv1 He1] [-> | (Hy & Hv2 & He2 & ->)]] | [[Hv He] Hin]].
    + split; [assumption |]. left. split; [reflexivity | assumption].
    + split; [assumption |]. right. left. tauto.
    + split; [assumption |]. right. right. split; [| assumption].
      destruct Hin as [<- | [<- | []]]; [left | right]; reflexivity.
  - intros [Hv [[-> He] | [(-> & Hy & He1 & He2) | [Hin He]]]].
    + left. tauto.
    + left. split; [split; [apply Hrow |]; assumption |]. right. tauto.
    + right. split; [tauto |]. destruct Hin as [-> | ->]; tauto.
Qed.

Lemma find_all_false {A} (f : A -> bool) (l : list A) :
  (forall a, In a l -> f a = false) -> List.find f l = None.
Proof.
  induction l as [|a l IH]; intros H; simpl; [reflexivity |].
  rewrite (H a (or_introl eq_refl)). apply IH. intros a' Ha. apply H. right. assumption.
Qed.

(** X5.  A team that has no king on the grid is not in check and is not
    checkmated. *)
Theorem no_king_no_check (t : Team) b :
  wellFormed b = true ->
  (forall pos, isValidPosition pos = true -> isKingOf t b pos = false) ->
  isKingInCheck t b = false /\ isCheckmate t b = false.
Proof.
  intros _ Hno.
  assert (Hcheck : isKingInCheck t b = false).
  { unfold isKingInCheck, findKing. rewrite find_all_false; [reflexivity |].
    intros pos Hpos. apply Hno, squares_spec, Hpos. }
  split; [assumption |]. unfold isCheckmate. rewrite Hcheck. reflexivity.
Qed.

Lemma isOnDiagonal_spec pos1 pos2 :
  isOnDiagonal pos1 pos2 = true <->
  Z.abs (px pos1 - px pos2) = Z.abs (py pos1 - py pos2) /\ pos1 <> pos2.
Proof.
  unfold isOnDiagonal. cbv zeta. rewrite andb_true_iff, Z.eqb_eq, Z.ltb_lt.
  destruct pos1 as [x1 y1], pos2 as [x2 y2]. simpl. split.
  - intros [He Hlt]. split; [assumption |]. intros [= -> ->]. lia.
  - intros [He Hne]. split; [assumption |].
    destruct (decide (x1 = x2)) as [-> |]; [| lia].
    destruct (decide (y1 = y2)) as [-> |]; [| lia].
    exfalso. apply Hne. reflexivity.
Qed.

Lemma isOnStraightLine_spec pos1 pos2 :
  isOnStraightLine pos1 pos2 = true <->
  (px pos1 = px pos2 /\ py pos1 <> py pos2) \/
  (py pos1 = py pos2 /\ px pos1 <> px pos2).
Proof.
  unfold isOnStraightLine.
  rewrite orb_true_iff, !andb_true_iff, !negb_true_iff, !Z.eqb_eq, !Z.eqb_neq.
  reflexivity.
Qed.

(** X6.  The moves of a rook lie on the straight lines through its
    square and the moves of a bishop on the diagonals; a move of the
    queen lies on one or the other, never on both. *)
Theorem sliding_moves_on_lines p b pos :
  wellFormed b = true ->
  (In pos (getRookMoves p b) -> isOnStraightLine (position p) pos = true) /\
  (In pos (getBishopMoves p b) -> isOnDiagonal (position p) pos = true) /\
  (In pos (getQueenMoves p b) ->
     xorb (isOnStraightLine (position p) pos) (isOnDiagonal (position p) pos) = true).
Proof.
  intros _.
  assert (Hs : In pos (getStraightMoves p b) ->
               isOnStraightLine (position p) pos = true /\
               isOnDiagonal (position p) pos = false).
  { unfold getStraightMoves. rewrite In_rays.
    intros (dx & dy & i & Hd & Hi & -> & _).
    split; [apply isOnStraightLine_spec | apply not_true_iff_false;
                                           rewrite isOnDiagonal_spec];
      simpl in *;
      destruct Hd as [[= <- <-] | [[= <- <-] | [[= <- <-] | [[= <- <-] | []]]]];
      lia. }
  assert (Hd : In pos (getDiagonalMoves p b) ->
               isOnDiagonal (position p) pos = true /\
               isOnStraightLine (position p) pos = false).
  { unfold getDiagonalMoves. rewrite In_rays.
    intros (dx & dy & i & Hd & Hi & -> & _).
    split; [apply isOnDiagonal_spec | apply not_true_iff_false;
                                       rewrite isOnStraightLine_spec];
      simpl in *;
      destruct Hd as [[= <- <-] | [[= <- <-] | [[= <- <-] | [[= <- <-] | []]]]];
      try lia.
    all: split; [lia |]; destruct (position p) as [x0 y0]; simpl;
      intros [= Hx Hy]; lia. }
  split; [intros Hin; apply Hs, Hin |]. split; [intros Hin; apply Hd, Hin |].
  unfold getQueenMoves. rewrite in_app_iff.
  intros [Hin | Hin]; [apply Hs in Hin | apply Hd in Hin];
    destruct Hin as [-> ->]; reflexivity.
Qed.

End Moves.

(** * The moves of the AI *)

Section AppliedMoves.

Import ChessRules ChessAI.

Lemma consistent_setCell {S} (b : BoardOf S) pos (v : option (PieceOf S)) :
  wellFormed b = true -> consistent b = true ->
  (forall q, v = Some q -> position q = pos) ->
  consistent (setCell b pos v) = true.
Proof.
  intros Hw Hc Hv. apply consistent_spec. intros pos' p Hvalid Hcell.
  destruct (decide (pos = pos')) as [<- | Hne].
  - rewrite cell_setCell_same in Hcell by assumption. apply Hv, Hcell.
  - rewrite cell_setCell_other in Hcell by assumption.
    exact (proj1 (consistent_spec b) Hc pos' p Hvalid Hcell).
Qed.

Lemma executeCastling_keeps_grid {S} (b : BoardOf S) (king : PieceOf S) to :
  wellFormed b = true -> consistent b = true ->
  wellFormed (executeCastling king to b) = true /\
  consistent (executeCastling king to b) = true.
Proof.
  intros Hw Hc. unfold executeCastling. cbv zeta.
  destruct (cell b _) as [rook|]; [| tauto].
  split.
  - repeat apply setCell_wellFormed. assumption.
  - apply consistent_setCell; [apply setCell_wellFormed; assumption | | discriminate].
    apply consistent_setCell; [assumption .. |]. intros q [= <-]. reflexivity.
Qed.

(** X7.  [makeMove] keeps the shape of a grid: from a grid of 8 rows of 8
    cells on which every piece records the square it stands on, a move to
    a square of the board gives such a grid again, castling included. *)
Theorem makeMove_keeps_grid (b : Board) (move : AIMove) :
  wellFormed b = true -> consistent b = true ->
  isValidPosition (to move) = true ->
  wellFormed (makeMove b move) = true /\ consistent (makeMove b move) = true.
Proof.
  intros Hw Hc Hto. unfold makeMove.
  destruct (cell b (from move)) as [p|]; [| tauto].
  assert (Hnew : wellFormed (if isCastlingMove p (to move)
                             then executeCastling p (to move) b else b) = true /\
                 consistent (if isCastlingMove p (to move)
                             then executeCastling p (to move) b else b) = true).
  { destruct (isCastlingMove p (to move)); [| tauto].
    apply executeCastling_keeps_grid; assumption. }
  destruct Hnew as [Hw' Hc']. cbv zeta. split.
  - repeat apply setCell_wellFormed. assumption.
  - apply consistent_setCell; [apply setCell_wellFormed; assumption | | discriminate].
    apply consistent_setCell; [assumption .. |]. intros q [= <-]. reflexivity.
Qed.

(** X8.  Castling as [makeMove] applies it.  When the square two files
    from a king on e1 or e8 is among the king's legal moves, the grid
    after the move has the king on that square and the rook of that side
    on the square the king passed over, both marked as moved; the king's
    square and the corner are empty, and every other square is as
    before. *)
Theorem castling_moves_king_and_rook (b : Board) (king : Piece) (y kTo : Z) :
  wellFormed b = true -> cell b (mkPos 4 y) = Some king ->
  position king = mkPos 4 y -> type king = KING ->
  kTo = 6 \/ kTo = 2 ->
  In (mkPos kTo y) (getValidMoves king b) ->
  let b' := makeMove b (mkAIMove (mkPos 4 y) (mkPos kTo y) 0 king) in
  let rFrom := if kTo =? 6 then 7 else 0 in
  let rTo := if kTo =? 6 then 5 else 3 in
  exists rook,
    cell b (mkPos rFrom y) = Some rook /\ type rook = ROOK /\
    team rook = team king /\ hasMoved rook = false /\
    forall pos,
      cell b' pos =
      if decide (pos = mkPos 4 y) then None
      else if decide (pos = mkPos kTo y) then Some (movedTo king (mkPos kTo y))
      else if decide (pos = mkPos rFrom y) then None
      else if decide (pos = mkPos rTo y) then Some (movedTo rook (mkPos rTo y))
      else cell b pos.
Proof.
  intros Hw Hcell Hpos Hk HkTo Hin b' rFrom rTo.
  pose proof (cell_Some_valid _ _ _ Hw Hcell) as Hy.
  apply isValidPosition_spec in Hy. simpl in Hy.
  apply In_getValidMoves in Hin as (_ & _ & Hking). specialize (Hking Hk).
  apply In_getKingMoves in Hking as [Hb | (_ & _ & Hc)].
  { apply basicKingMoves_near in Hb. rewrite Hpos in Hb. simpl in Hb. lia. }
  apply In_getCastlingMoves in Hc. rewrite Hpos in Hc. cbv zeta in Hc. simpl in Hc.
  assert (Hrook : exists rook,
            cell b (mkPos rFrom y) = Some rook /\ type rook = ROOK /\
            team rook = team king /\ hasMoved rook = false).
  { subst rFrom.
    destruct Hc as [([= HkTo'] & Hr & _) | ([= HkTo'] & Hr & _)];
      rewrite HkTo'; exact Hr. }
  destruct Hrook as (rook & Hr & Hrt & Hrteam & Hrm).
  exists rook. repeat (split; [assumption |]).
  intros pos. subst b'. unfold makeMove. simpl. rewrite Hcell.
  assert (Hcast : isCastlingMove king (mkPos kTo y) = true).
  { unfold isCastlingMove. rewrite Hpos. simpl.
    apply andb_true_iff. split; [apply bool_decide_eq_true; assumption |].
    apply Z.eqb_eq. lia. }
  rewrite Hcast. unfold executeCastling. rewrite Hpos. simpl.
  assert (Hside : (4 <? kTo) = (kTo =? 6)).
  { destruct HkTo as [-> | ->]; reflexivity. }
  rewrite Hside. fold rFrom rTo. rewrite Hr.
  assert (Hv : forall x, 0 <= x < 8 -> isValidPosition (mkPos x y) = true).
  { intros x Hx. apply isValidPosition_spec. simpl. lia. }
  assert (HrFrom : 0 <= rFrom < 8) by (subst rFrom; destruct (kTo =? 6); lia).
  assert (HrTo : 0 <= rTo < 8) by (subst rTo; destruct (kTo =? 6); lia).
  assert (HkTo' : 0 <= kTo < 8) by lia.
  rewrite !cell_setCell
    by (repeat apply setCell_wellFormed; first [assumption | apply Hv; lia]).
  assert (Hdistinct : rFrom <> 4 /\ rTo <> 4 /\ kTo <> 4 /\ rFrom <> kTo /\
                      rTo <> kTo /\ rFrom <> rTo).
  { subst rFrom rTo. destruct HkTo as [-> | ->]; simpl; lia. }
  repeat match goal with
         | |- context [decide (?a = ?b)] => destruct (decide (a = b))
         end;
    try reflexivity; subst; exfalso; try congruence;
    repeat match goal with H : mkPos _ _ = mkPos _ _ |- _ => injection H as ? end;
    lia.
Qed.

End AppliedMoves.

Section Evaluation.

Import ChessRules ChessAI.

Lemma evaluateKingSafety_opposite d d' (b : Board) :
  evaluateKingSafety (mkAI d' BLACK) b = - evaluateKingSafety (mkAI d WHITE) b.
Proof.
  unfold evaluateKingSafety. cbn [aiTeam].
  change 0 with (- 0) at 1. generalize 0 as acc. generalize squares as l.
  induction l as [|pos l IH]; intros acc; cbn [fold_left]; [reflexivity |].
  rewrite <- IH. f_equal.
  destruct (cell b pos) as [p|]; [| reflexivity].
  destruct (bool_decide (type p = KING)); [| reflexivity].
  generalize (if isKingInCheck (team p) b then -50 else 10) as safetyScore.
  intros safetyScore. cbv zeta.
  destruct (team p).
  - rewrite (bool_decide_eq_false_2 (WHITE = BLACK)) by congruence.
    rewrite (bool_decide_eq_true_2 (WHITE = WHITE)) by reflexivity. lia.
  - rewrite (bool_decide_eq_true_2 (BLACK = BLACK)) by reflexivity.
    rewrite (bool_decide_eq_false_2 (BLACK = WHITE)) by congruence. lia.
Qed.

Lemma evaluatePawnStructure_opposite d d' (b : Board) :
  evaluatePawnStructure (mkAI d' BLACK) b = - evaluatePawnStructure (mkAI d WHITE) b.
Proof.
  unfold evaluatePawnStructure. cbn [aiTeam]. cbv zeta.
  rewrite (bool_decide_eq_false_2 (BLACK = WHITE)) by congruence.
  rewrite (bool_decide_eq_true_2 (WHITE = WHITE)) by reflexivity. reflexivity.
Qed.

Lemma evaluateControl_opposite d d' (b : Board) :
  evaluateControl (mkAI d' BLACK) b = - evaluateControl (mkAI d WHITE) b.
Proof.
  unfold evaluateControl. cbn [aiTeam]. cbv zeta.
  rewrite (bool_decide_eq_false_2 (BLACK = WHITE)) by congruence.
  rewrite (bool_decide_eq_true_2 (WHITE = WHITE)) by reflexivity. reflexivity.
Qed.

(** X9.  The evaluation is zero-sum: on the same grid an AI that plays
    Black gives the opposite of the score that an AI playing White gives,
    whatever their difficulties, and both report the same end of game and
    the same winner. *)
Theorem evaluateBoard_zero_sum (d d' : nat) (b : Board) :
  wellFormed b = true -> positiveMaxHp b = true ->
  let white := evaluateBoard (mkAI d WHITE) b in
  let black := evaluateBoard (mkAI d' BLACK) b in
  (eval_score black == - eval_score white)%Q /\
  isGameOver black = isGameOver white /\ winner black = winner white.
Proof.
  intros _ _. cbv zeta. unfold evaluateBoard.
  rewrite (evaluateKingSafety_opposite d d'), (evaluatePawnStructure_opposite d d'),
    (evaluateControl_opposite d d').
  generalize (evaluateKingSafety (mkAI d WHITE) b) as safety.
  generalize (evaluatePawnStructure (mkAI d WHITE) b) as pawns.
  generalize (evaluateControl (mkAI d WHITE) b) as mobility.
  intros mobility pawns safety. cbn [aiTeam].
  rewrite (bool_decide_eq_false_2 (WHITE = BLACK)) by congruence.
  rewrite (bool_decide_eq_true_2 (BLACK = BLACK)) by reflexivity.
  generalize (fold_left (fun acc pos => materialStep acc pos b) squares
                (0%Q, false, false)) as material.
  intros [[material whiteKing] blackKing].
  generalize (isCheckmate WHITE b) as whiteMated.
  generalize (isCheckmate BLACK b) as blackMated.
  generalize (isStalemate WHITE b || isStalemate BLACK b) as stale.
  intros stale blackMated whiteMated.
  assert (Hgoal : forall outcome : Q * bool * option Team,
    (eval_score (let '(sc, over, win) := outcome in
                 mkEvaluation (- sc + inject_Z (- safety) + inject_Z (- pawns)
                               + inject_Z (- mobility)) over win) ==
     - eval_score (let '(sc, over, win) := outcome in
                   mkEvaluation (sc + inject_Z safety + inject_Z pawns
                                 + inject_Z mobility) over win))%Q /\
    isGameOver (let '(sc, over, win) := outcome in
                mkEvaluation (- sc + inject_Z (- safety) + inject_Z (- pawns)
                              + inject_Z (- mobility)) over win) =
    isGameOver (let '(sc, over, win) := outcome in
                mkEvaluation (sc + inject_Z safety + inject_Z pawns
                              + inject_Z mobility) over win) /\
    winner (let '(sc, over, win) := outcome in
            mkEvaluation (- sc + inject_Z (- safety) + inject_Z (- pawns)
                          + inject_Z (- mobility)) over win) =
    winner (let '(sc, over, win) := outcome in
            mkEvaluation (sc + inject_Z safety + inject_Z pawns
                          + inject_Z mobility) over win)).
  { intros [[sc over] win]. cbn [eval_score isGameOver winner].
    split; [| split; reflexivity]. rewrite !inject_Z_opp. ring. }
  apply Hgoal.
Qed.

End Evaluation.

Section BestMove.

Import ChessRules ChessAI.

Lemma In_getAllPossibleMoves (b : Board) (t : Team) (m : AIMove) :
  In m (getAllPossibleMoves b t) <->
  exists pos, isValidPosition pos = true /\ cell b pos = Some (piece m) /\
              team (piece m) = t /\ isAlive (piece m) = true /\
              from m = position (piece m) /\ score m = 0%Q /\
              In (to m) (getValidMoves (piece m) b).
Proof.
  unfold getAllPossibleMoves. rewrite in_flat_map. split.
  - intros (pos & Hpos & Hin). apply squares_spec in Hpos.
    destruct (cell b pos) as [p|] eqn:Hcell; [| destruct Hin].
    destruct (bool_decide (team p = t) && isAlive p) eqn:Hown; [| destruct Hin].
    apply andb_true_iff in Hown as [Ht Ha]. apply bool_decide_eq_true in Ht.
    apply in_map_iff in Hin as (dest & <- & Hdest). simpl.
    exists pos. tauto.
  - intros (pos & Hv & Hcell & Ht & Ha & Hfrom & Hscore & Hto).
    exists pos. split; [apply squares_spec; assumption |].
    rewrite Hcell, Ha, (bool_decide_eq_true_2 _ Ht). simpl.
    apply in_map_iff. exists (to m). split; [| assumption].
    destruct m as [f t' s p]. simpl in *. subst. reflexivity.
Qed.

(** The move that [minimax] returns is one of the moves of the side to
    play, with a score put in. *)
Lemma minimax_returns_a_move self d (b : Board) alpha beta maximizing m :
  minimax self d b alpha beta maximizing = Some m ->
  exists m0 s,
    In m0 (getAllPossibleMoves b
             (if maximizing then aiTeam self else opposite (aiTeam self))) /\
    m = withScore m0 s.
Proof.
  destruct d as [|d]; [discriminate |].
  cbn [minimax]. cbv zeta.
  generalize (getAllPossibleMoves b
                (if maximizing then aiTeam self else opposite (aiTeam self))) as all.
  generalize (makeMove b) as mk. generalize (evaluateBoard self) as ev.
  intros ev mk all.
  assert (Hsub : forall m0, In m0 all -> In m0 all) by auto. revert Hsub.
  generalize all at 1 3 4 as moves.
  assert (Hnone : forall m' : AIMove, @None AIMove = Some m' ->
                    exists m0 s, In m0 all /\ m' = withScore m0 s) by discriminate.
  revert Hnone. generalize (@None AIMove) as best.
  destruct maximizing.
  - generalize NegInfinity as maxScore. revert alpha.
    intros alpha maxScore best Hbest moves. revert alpha maxScore best Hbest.
    induction moves as [|move rest IH]; intros alpha maxScore best Hbest Hsub.
    + intros ->. apply Hbest. reflexivity.
    + destruct (num_lt maxScore (Finite (eval_score (ev (mk move))))).
      * destruct (num_le beta (num_max alpha (Finite (eval_score (ev (mk move)))))).
        -- intros [= <-]. exists move, (eval_score (ev (mk move))).
           split; [apply Hsub; left |]; reflexivity.
        -- apply IH; [| intros m0 Hm0; apply Hsub; right; assumption].
           intros m' [= <-]. exists move, (eval_score (ev (mk move))).
           split; [apply Hsub; left |]; reflexivity.
      * destruct (num_le beta (num_max alpha (Finite (eval_score (ev (mk move)))))).
        -- intros ->. apply Hbest. reflexivity.
        -- apply IH; [assumption | intros m0 Hm0; apply Hsub; right; assumption].
  - generalize Infinity as minScore. revert beta.
    intros beta minScore best Hbest moves. revert beta minScore best Hbest.
    induction moves as [|move rest IH]; intros beta minScore best Hbest Hsub.
    + intros ->. apply Hbest. reflexivity.
    + destruct (num_lt (Finite (eval_score (ev (mk move)))) minScore).
      * destruct (num_le (num_min beta (Finite (eval_score (ev (mk move))))) alpha).
        -- intros [= <-]. exists move, (eval_score (ev (mk move))).
           split; [apply Hsub; left |]; reflexivity.
        -- apply IH; [| intros m0 Hm0; apply Hsub; right; assumption].
           intros m' [= <-]. exists move, (eval_score (ev (mk move))).
           split; [apply Hsub; left |]; reflexivity.
      * destruct (num_le (num_min beta (Finite (eval_score (ev (mk move))))) alpha).
        -- intros ->. apply Hbest. reflexivity.
        -- apply IH; [assumption | intros m0 Hm0; apply Hsub; right; assumption].
Qed.




Lemma deepen_returns self (b : Board) clock depth fuel best m :
  deepen self b clock depth fuel best = Some m ->
  best = Some m \/ exists d, minimax self d b NegInfinity Infinity true = Some m.
Proof.
  revert depth fuel best.
  induction clock as [|elapsed clock IH]; intros depth [|fuel] best;
    cbn [deepen]; try (left; assumption).
  destruct (elapsed <? 5000); [| left; assumption].
  intros Hrun. apply IH in Hrun as [Hrun | Hrun]; [| right; assumption].
  destruct (minimax self depth b NegInfinity Infinity true) eqn:Hm;
    [right; exists depth; congruence | left; assumption].
Qed.


(** X10.  The move that [getBestMove] returns, by search or at random,
    is a legal move of a living piece of the AI's team that stands on
    the grid. *)
Theorem getBestMove_returns_a_legal_move
    (self : ChessAI) (b : Board) (clock : list Z) (random : Q * Q) (mv : AIMove) :
  wellFormed b = true ->
  getBestMove self b clock random = Some mv ->
  exists pos, isValidPosition pos = true /\ cell b pos = Some (piece mv) /\
              team (piece mv) = aiTeam self /\ isAlive (piece mv) = true /\
              from mv = position (piece mv) /\
              In (to mv) (getValidMoves (piece mv) b).
Proof.
  intros _ Hrun.
  assert (Hall : forall m0 s, In m0 (getAllPossibleMoves b (aiTeam self)) ->
            exists pos, isValidPosition pos = true /\
                        cell b pos = Some (piece (withScore m0 s)) /\
                        team (piece (withScore m0 s)) = aiTeam self /\
                        isAlive (piece (withScore m0 s)) = true /\
                        from (withScore m0 s) = position (piece (withScore m0 s)) /\
                        In (to (withScore m0 s))
                          (getValidMoves (piece (withScore m0 s)) b)).
  { intros m0 s Hin. apply In_getAllPossibleMoves in Hin as (pos & Hin).
    exists pos. simpl. tauto. }
  assert (Hsearch : forall m, deepen self b clock 1 (difficulty self) None = Some m ->
            exists m0 s, In m0 (getAllPossibleMoves b (aiTeam self)) /\
                         m = withScore m0 s).
  { intros m Hm. apply deepen_returns in Hm as [[=] | [d Hm]].
    apply minimax_returns_a_move in Hm. exact Hm. }
  unfold getBestMove in Hrun. cbv zeta in Hrun.
  destruct (deepen self b clock 1 (difficulty self) None) as [best|] eqn:Hbest;
    [| discriminate].
  destruct (Hsearch best eq_refl) as (m0 & s & Hm0 & ->).
  destruct (difficulty self <=? MEDIUM)%nat.
  - destruct ((0 <? length (getAllPossibleMoves b (aiTeam self)))%nat &&
              negb (Qle_bool (3 # 10) (fst random))).
    + destruct (getAllPossibleMoves b (aiTeam self) !! _) as [randomMove|] eqn:Hk;
        [| discriminate].
      injection Hrun as <-.
      apply list_elem_of_lookup_2, list_elem_of_In in Hk.
      apply In_getAllPossibleMoves in Hk as (pos & Hk). exists pos. tauto.
    + injection Hrun as <-. apply Hall, Hm0.
  - injection Hrun as <-. apply Hall, Hm0.
Qed.


End BestMove.

(** * The targets of abilities *)

Section Targets.

Context {S : Type}.

Import ChessRules AbilitySystem.

Lemma NoDup_squares : NoDup squares.
Proof. apply (bool_decide_unpack _). vm_compute. reflexivity. Qed.

Lemma filter_only {A} (P : A -> Prop) `{!forall a, Decision (P a)} (l : list A) x :
  NoDup l -> In x l -> (forall y, In y l -> P y <-> y = x) -> filter P l = [x].
Proof.
  induction l as [|a l IH]; intros Hnd Hin HP; [destruct Hin |].
  apply NoDup_cons in Hnd as [Ha Hnd].
  destruct (decide (P a)) as [Pa | Pa].
  - rewrite filter_cons_True by assumption.
    apply HP in Pa as ->; [| left; reflexivity].
    f_equal. destruct (filter P l) as [|y ys] eqn:Hf; [reflexivity | exfalso].
    assert (Hy : y ∈ filter P l) by (rewrite Hf; left).
    apply list_elem_of_filter in Hy as [Py Hy].
    apply HP in Py; [| right; apply list_elem_of_In; assumption]. subst y.
    apply Ha, Hy.
  - rewrite filter_cons_False by assumption.
    apply IH; [assumption | |].
    + destruct Hin as [-> | Hin]; [| assumption].
      exfalso. apply Pa, HP; [left |]; reflexivity.
    + intros y Hy. apply HP. right. assumption.
Qed.

(** X12.  An ability that targets its caster has one valid target, the
    caster's own square, when the caster stands on the board and the
    range of the ability is not negative. *)
Theorem self_ability_targets_own_square
    (caster : PieceOf S) (ability : Ability) (b : BoardOf S) :
  wellFormed b = true -> isValidPosition (position caster) = true ->
  targetType ability = SELF -> 0 <= range ability ->
  getValidTargets caster ability b = [position caster].
Proof.
  intros _ Hv Hself Hrange. unfold getValidTargets.
  apply filter_only; [apply NoDup_squares | apply squares_spec, Hv |].
  intros pos Hpos. apply squares_spec in Hpos.
  unfold isValidTarget. rewrite Hpos, Hself. simpl.
  destruct (range ability <? getDistance (position caster) pos) eqn:Hfar.
  - split; [discriminate |]. intros ->. apply Z.ltb_lt in Hfar.
    unfold getDistance in Hfar. lia.
  - rewrite positionsEqual_spec. split; congruence.
Qed.

(** X13.  Every valid target of an ability is a square of the board
    within the range of the ability, the distance being the larger of the
    file and row differences.  When the ability targets an enemy the
    square holds a living piece of the other team, when it targets an
    ally a living piece of the caster's team, and when it targets an
    empty square the square is empty. *)
Theorem valid_targets_spec
    (caster : PieceOf S) (ability : Ability) (b : BoardOf S) (pos : Position) :
  wellFormed b = true ->
  In pos (getValidTargets caster ability b) ->
  isValidPosition pos = true /\
  Z.abs (px (position caster) - px pos) <= range ability /\
  Z.abs (py (position caster) - py pos) <= range ability /\
  match targetType ability with
  | SELF => pos = position caster
  | ALLY => exists t, cell b pos = Some t /\ team t = team caster /\ isAlive t = true
  | ENEMY => exists t, cell b pos = Some t /\ team t <> team caster /\ isAlive t = true
  | EMPTY_SQUARE => cell b pos = None
  | ANY_SQUARE | AOE => True
  end.
Proof.
  intros _. unfold getValidTargets. rewrite In_filter_iff, squares_spec.
  intros [Hok Hv]. split; [assumption |].
  unfold isValidTarget in Hok. rewrite Hv in Hok. simpl in Hok.
  destruct (range ability <? getDistance (position caster) pos) eqn:Hfar;
    [discriminate |].
  apply Z.ltb_ge in Hfar. unfold getDistance in Hfar.
  split; [lia |]. split; [lia |].
  destruct (targetType ability); try exact I.
  - apply positionsEqual_spec in Hok. congruence.
  - destruct (cell b pos) as [t|]; [| discriminate].
    apply andb_true_iff in Hok as [Ht Ha]. apply bool_decide_eq_true in Ht. eauto.
  - destruct (cell b pos) as [t|]; [| discriminate].
    apply andb_true_iff in Hok as [Ht Ha]. apply bool_decide_eq_true in Ht. eauto.
  - destruct (cell b pos); [discriminate | reflexivity].
Qed.

End Targets.

(** * Abilities on the heap *)

(** The next step of the run [H] is a load of [v]. *)
Ltac run_load H v side :=
  match type of H with
  | bind (load ?L ?l) _ ?h0 = _ =>
      let Hl := fresh "Hl" in
      assert (Hl : view L h0 !! l = Some v) by (simpl; side);
      rewrite (bind_run _ _ _ _ _ (load_run L l h0 v Hl)) in H; clear Hl
  end.

Section AbilityRuns.

Import AbilitySystem.

(** Copying the rows of a grid touches no object but rows. *)
Lemma copyBoard_frame board h nb h1 :
  copyBoard board h = Some (nb, h1) ->
  piecesH h1 = piecesH h /\ statsH h1 = statsH h /\ abilitiesH h1 = abilitiesH h /\
  effectArraysH h1 = effectArraysH h /\ effectsH h1 = effectsH h.
Proof.
  intros Hrun.
  assert (Hkeep : preserves (fun h1 =>
            piecesH h1 = piecesH h /\ statsH h1 = statsH h /\
            abilitiesH h1 = abilitiesH h /\ effectArraysH h1 = effectArraysH h /\
            effectsH h1 = effectsH h) (copyBoard board)).
  { unfold copyBoard. repeat keeps_step ltac:(intros ? Hsame; exact Hsame). }
  apply (Hkeep h nb h1); [repeat split | exact Hrun].
Qed.

Lemma snapshotPiece_run l h (p : PieceOf loc) s :
  piecesH h !! l = Some p -> statsH h !! stats p = Some s ->
  snapshotPiece l h = Some (setStats p s, h).
Proof.
  intros Hp Hs. unfold snapshotPiece.
  rewrite (bind_run _ _ _ _ _ (load_run piecesL l h p Hp)).
  rewrite (bind_run _ _ _ _ _ (load_run statsL (stats p) h s Hs)).
  reflexivity.
Qed.

(** X14.  [executeAbility] accepts a cast exactly when [canUseAbility]
    allows it: the answer depends on the caster and the ability alone,
    and neither the target square nor the grid can make it fail. *)
Theorem executeAbility_succeeds_iff_usable
    (caster ability : loc) (targetPos : Position) (board : Grid) (h h' : Heap)
    (r : AbilityResult) (c : PieceOf loc) (s : PieceStats) (a : Ability) :
  piecesH h !! caster = Some c -> statsH h !! stats c = Some s ->
  abilitiesH h !! ability = Some a ->
  executeAbility caster ability targetPos board h = Some (r, h') ->
  success r = canUse (canUseAbility (setStats c s) a).
Proof.
  intros Hc Hs Ha Hrun. unfold executeAbility in Hrun.
  apply bind_Some in Hrun as (nb & h1 & Hcopy & Hrun).
  apply copyBoard_frame in Hcopy as (Hp1 & Hs1 & Ha1 & _ & _).
  rewrite <- Hp1 in Hc. rewrite <- Hs1 in Hs. rewrite <- Ha1 in Ha.
  rewrite (bind_run _ _ _ _ _ (snapshotPiece_run caster h1 c s Hc Hs)) in Hrun.
  rewrite (bind_run _ _ _ _ _ (load_run abilitiesL ability h1 a Ha)) in Hrun.
  destruct (canUse (canUseAbility (setStats c s) a)); simpl in Hrun.
  - invert_run. reflexivity.
  - invert_run. reflexivity.
Qed.

(** Writing hit points into a stats object leaves its mana as it is. *)
Lemma mana_store_hp (A0 : list Ability) (S0 : list PieceStats) l ts hp h :
  (exists h1, (abilitiesH h1 = A0 /\ sameMana S0 (statsH h1)) /\
              view statsL h1 !! l = Some ts) ->
  abilitiesH h = A0 /\ sameMana S0 (statsH h) ->
  abilitiesH (over statsL (fun s => <[l := setCurrentHp ts hp]> s) h) = A0 /\
  sameMana S0 (statsH (over statsL (fun s => <[l := setCurrentHp ts hp]> s) h)).
Proof.
  intros (h1 & [_ Hm1] & Hts) [Hab Hm]. split; [exact Hab |]. simpl in *.
  intros l' s0 Hs0. destruct (Hm l' s0 Hs0) as (s1 & Hs1 & Hmana).
  destruct (decide (l = l')) as [<- | Hne].
  - rewrite list_lookup_insert_eq by (eapply lookup_lt_Some; eassumption).
    eexists. split; [reflexivity |]. simpl.
    destruct (Hm1 l s0 Hs0) as (s1' & Hs1' & Hmana'). congruence.
  - rewrite list_lookup_insert_ne by assumption. eauto.
Qed.

Ltac mana_side :=
  let h := fresh "h" in
  let Hk := fresh "Hk" in
  intros h Hk;
  first [exact Hk | eapply mana_store_hp; [eassumption | exact Hk]].

(** No effect of an ability writes an ability object or the mana of a
    stats object. *)
Lemma executeEffect_keeps_mana (A0 : list Ability) (S0 : list PieceStats)
    caster targetPos newBoard out effect :
  preserves (fun h => abilitiesH h = A0 /\ sameMana S0 (statsH h))
    (executeEffect caster targetPos newBoard out effect).
Proof.
  unfold executeEffect, executeDamageEffect, executeHealEffect, executeStatusEffect,
    executeTeleportEffect, withoutEffect, targetsOf, getAOETargets, readCell,
    writeCell, rowOf.
  repeat keeps_step mana_side.
Qed.

Lemma sameMana_refl S0 : sameMana S0 S0.
Proof. intros l s0 Hs0. eauto. Qed.

(** X15.  A cast that [executeAbility] accepts takes the mana cost off
    the caster's mana, whatever the effects do afterwards, puts the
    ability on its full cooldown, and changes no other ability and the
    mana of no other stats object. *)
Theorem executeAbility_spends_mana_and_starts_cooldown
    (caster ability : loc) (targetPos : Position) (board : Grid) (h h' : Heap)
    (r : AbilityResult) (c : PieceOf loc) (s : PieceStats) (a : Ability) :
  piecesH h !! caster = Some c -> statsH h !! stats c = Some s ->
  abilitiesH h !! ability = Some a ->
  executeAbility caster ability targetPos board h = Some (r, h') ->
  success r = true ->
  abilitiesH h' = <[ability := setCurrentCooldown a (Some (cooldown a))]> (abilitiesH h) /\
  (exists s', statsH h' !! stats c = Some s' /\
              currentMana s' = currentMana s - manaCost a) /\
  (forall l s0, l <> stats c -> statsH h !! l = Some s0 ->
                exists s1, statsH h' !! l = Some s1 /\
                           currentMana s1 = currentMana s0).
Proof.
  intros Hc Hs Ha Hrun Hsuccess. unfold executeAbility in Hrun.
  apply bind_Some in Hrun as (nb & h1 & Hcopy & Hrun).
  apply copyBoard_frame in Hcopy as (Hp1 & Hs1 & Ha1 & _ & _).
  rewrite <- Hp1 in Hc. rewrite <- Hs1 in Hs. rewrite <- Ha1 in Ha.
  rewrite <- Ha1, <- Hs1. clear Hp1 Hs1 Ha1.
  rewrite (bind_run _ _ _ _ _ (snapshotPiece_run caster h1 c s Hc Hs)) in Hrun.
  rewrite (bind_run _ _ _ _ _ (load_run abilitiesL ability h1 a Ha)) in Hrun.
  destruct (canUse (canUseAbility (setStats c s) a)); simpl in Hrun.
  2: solve [invert_run; try discriminate Hsuccess].
  rewrite (bind_run _ _ _ _ _ (load_run piecesL caster h1 c Hc)) in Hrun.
  rewrite (bind_run _ _ _ _ _ (load_run statsL (stats c) h1 s Hs)) in Hrun.
  rewrite (bind_run _ _ _ _ _ (load_run abilitiesL ability h1 a Ha)) in Hrun.
  apply (proj1 (store_bind_Some _ _ _ _ _ _)) in Hrun as (_ & Hrun).
  cbv beta in Hrun.
  match type of Hrun with
  | bind _ _ ?h2 = _ =>
      assert (Ha2 : view abilitiesL h2 !! ability = Some a) by exact Ha
  end.
  apply (proj1 (load_bind_Some _ _ _ _ _)) in Hrun as (a2 & Ha2' & Hrun).
  cbv beta in Hrun. rewrite Ha2 in Ha2'. injection Ha2' as <-.
  apply (proj1 (store_bind_Some _ _ _ _ _ _)) in Hrun as (_ & Hrun).
  cbv beta in Hrun.
  apply (proj1 (load_bind_Some _ _ _ _ _)) in Hrun as (a3 & _ & Hrun).
  cbv beta in Hrun.
  apply bind_Some in Hrun as (out & h3 & Hfold & Hrun).
  assert (Hend : h' = h3) by (invert_run; reflexivity). subst h3. clear Hrun.
  match type of Hfold with
  | foldM ?f ?l ?acc ?h2 = _ =>
      pose proof (preserves_foldM
                    (fun h0 => abilitiesH h0 = abilitiesH h2 /\
                               sameMana (statsH h2) (statsH h0))
                    f l acc
                    (fun acc' e => executeEffect_keeps_mana _ _ _ _ _ acc' e)
                    h2 out h' (conj eq_refl (sameMana_refl _)) Hfold) as Hkeep
  end.
  destruct Hkeep as [Hab Hmana]. simpl in Hab, Hmana.
  split; [exact Hab |]. split.
  - destruct (Hmana (stats c) (setCurrentMana s (currentMana s - manaCost a)))
      as (s' & Hs' & Hm).
    + apply list_lookup_insert_eq. eapply lookup_lt_Some. exact Hs.
    + exists s'. split; [exact Hs' | exact Hm].
  - intros l s0 Hne Hs0. apply Hmana.
    rewrite list_lookup_insert_ne by congruence. exact Hs0.
Qed.

(** A cell that has been written reads as what was written. *)
Lemma writeCell_readCell board pos v h h1 :
  writeCell board pos v h = Some (tt, h1) ->
  readCell board pos h1 = Some (v, h1).
Proof.
  unfold writeCell, readCell. intros Hrun.
  apply bind_Some in Hrun as (r & h0 & Hrow & Hrun).
  assert (h0 = h) as ->.
  { unfold rowOf in Hrow. destruct (0 <=? py pos); [| discriminate].
    destruct (board !! Z.to_nat (py pos)); [| discriminate]. invert_run. reflexivity. }
  assert (Hrow1 : rowOf board pos h1 = Some (r, h1)).
  { unfold rowOf in *. destruct (0 <=? py pos); [| discriminate].
    destruct (board !! Z.to_nat (py pos)); [| discriminate]. invert_run. reflexivity. }
  apply (proj1 (load_bind_Some _ _ _ _ _)) in Hrun as (row & Hr & Hrun).
  cbv beta in Hrun.
  destruct ((0 <=? px pos) && (px pos <? Z.of_nat (length row))) eqn:Hx;
    [| discriminate].
  apply andb_true_iff in Hx as [Hx0 Hx1]. apply Z.ltb_lt in Hx1.
  apply store_Some in Hrun as (_ & [= ->]).
  rewrite (bind_run _ _ _ _ _ Hrow1).
  match goal with
  | |- bind (load rowsL r) _ ?hn = _ =>
      assert (Hnew : view rowsL hn !! r = Some (<[Z.to_nat (px pos) := v]> row))
        by (simpl; apply list_lookup_insert_eq; eapply lookup_lt_Some; exact Hr);
      rewrite (bind_run _ _ _ _ _ (load_run rowsL r hn _ Hnew))
  end.
  unfold ret. rewrite Hx0. f_equal. f_equal.
  rewrite list_lookup_insert_eq; [reflexivity |].
  apply Z.leb_le in Hx0. lia.
Qed.

(** X16.  The damage of an ability on one enemy.  The target loses the
    value of the effect less its own defense, and at least 1; its hit
    points do not go below 0.  With hit points left it stays where it is
    and the damage is reported; at 0 it is flagged dead, its cell is
    cleared and its defeat is reported. *)
Theorem ability_damage_on_one_enemy
    (caster : loc) (effect : AbilityEffect) (targetPos : Position) (board : Grid)
    (out out' : Out) (h h' : Heap) (tl : loc) (t c : PieceOf loc) (ts : PieceStats) :
  areaOfEffect effect = None ->
  readCell board targetPos h = Some (Some tl, h) ->
  piecesH h !! tl = Some t -> piecesH h !! caster = Some c ->
  statsH h !! stats t = Some ts -> team t <> team c ->
  executeDamageEffect caster effect targetPos board out h = Some (out', h') ->
  let actualDamage := Z.max 1 (default 0 (amount effect) - defense ts) in
  let hp := Z.max 0 (currentHp ts - actualDamage) in
  statsH h' = <[stats t := setCurrentHp ts hp]> (statsH h) /\
  (0 < hp ->
     piecesH h' = piecesH h /\ rowsH h' = rowsH h /\
     out' = affect (say out (TookDamage (type t) actualDamage)) tl) /\
  (hp = 0 ->
     piecesH h' = <[tl := setIsAlive t false]> (piecesH h) /\
     readCell board (position t) h' = Some (None, h') /\
     out' = affect (say out (WasDefeated (type t))) tl).
Proof.
  intros Haoe Hcell Ht Hc Hts Hteam Hrun actualDamage hp.
  unfold executeDamageEffect, targetsOf in Hrun. rewrite Haoe in Hrun.
  apply bind_Some in Hrun as (targets & h0 & Htargets & Hrun).
  rewrite (bind_run _ _ _ _ _ Hcell) in Htargets. injection Htargets as <- <-.
  cbn [option_list foldM] in Hrun.
  apply bind_Some in Hrun as (out1 & h1 & Hstep & Hrun).
  apply ret_Some in Hrun as [= <- <-].
  rewrite (bind_run _ _ _ _ _ (load_run piecesL tl h t Ht)) in Hstep.
  rewrite (bind_run _ _ _ _ _ (load_run piecesL caster h c Hc)) in Hstep.
  rewrite bool_decide_eq_false_2 in Hstep by assumption.
  rewrite (bind_run _ _ _ _ _ (load_run statsL (stats t) h ts Hts)) in Hstep.
  cbv zeta in Hstep. fold actualDamage hp in Hstep.
  apply (proj1 (store_bind_Some _ _ _ _ _ _)) in Hstep as (_ & Hstep).
  cbv beta in Hstep.
  run_load Hstep (setCurrentHp ts hp)
    ltac:(apply list_lookup_insert_eq; eapply lookup_lt_Some; exact Hts).
  apply bind_Some in Hstep as (out2 & h2 & Hcase & Hstep).
  apply ret_Some in Hstep as [= -> ->].
  cbn [currentHp setCurrentHp] in Hcase.
  destruct (Z.leb_spec hp 0) as [Hdead | Halive].
  - run_load Hcase t ltac:(exact Ht).
    apply (proj1 (store_bind_Some _ _ _ _ _ _)) in Hcase as (_ & Hcase).
    cbv beta in Hcase.
    apply bind_Some in Hcase as ([] & h3 & Hwrite & Hcase).
    apply ret_Some in Hcase as [= -> ->].
    pose proof (writeCell_readCell _ _ _ _ _ Hwrite) as Hread.
    assert (Hsame : statsH h3 = <[stats t := setCurrentHp ts hp]> (statsH h) /\
                    piecesH h3 = <[tl := setIsAlive t false]> (piecesH h)).
    { unfold writeCell, rowOf in Hwrite.
      destruct (0 <=? py (position t)); [| discriminate].
      destruct (board !! Z.to_nat (py (position t))); [| discriminate].
      invert_run.
      destruct ((0 <=? px (position t)) && _); [| discriminate].
      invert_run. split; reflexivity. }
    destruct Hsame as [Hstats Hpieces].
    split; [exact Hstats |]. split; [lia |]. intros _. auto.
  - apply ret_Some in Hcase as [= -> ->].
    split; [reflexivity |]. split; [| lia]. intros _. auto.
Qed.

Lemma readCell_intro board pos h r row :
  0 <= py pos -> board !! Z.to_nat (py pos) = Some r -> rowsH h !! r = Some row ->
  readCell board pos h =
  Some (if 0 <=? px pos then mjoin (row !! Z.to_nat (px pos)) else None, h).
Proof.
  intros Hy Hb Hr. unfold readCell, rowOf.
  apply Z.leb_le in Hy. rewrite Hy, Hb.
  rewrite (bind_run _ _ _ _ _ (eq_refl : ret r h = Some (r, h))).
  rewrite (bind_run _ _ _ _ _ (load_run rowsL r h row Hr)). reflexivity.
Qed.

Lemma writeCell_inv board pos v h u h1 :
  writeCell board pos v h = Some (u, h1) ->
  exists r row,
    0 <= py pos /\ board !! Z.to_nat (py pos) = Some r /\ rowsH h !! r = Some row /\
    0 <= px pos < Z.of_nat (length row) /\
    h1 = over rowsL (fun s => <[r := <[Z.to_nat (px pos) := v]> row]> s) h.
Proof.
  unfold writeCell, rowOf. intros Hrun.
  apply bind_Some in Hrun as (r & h2 & Hr & Hrun).
  destruct (Z.leb_spec 0 (py pos)); [| discriminate].
  destruct (board !! Z.to_nat (py pos)) as [r'|] eqn:Hb; [| discriminate].
  apply ret_Some in Hr. injection Hr as -> ->.
  apply (proj1 (load_bind_Some _ _ _ _ _)) in Hrun as (row & Hrow & Hrun).
  cbv beta in Hrun.
  destruct ((0 <=? px pos) && (px pos <? Z.of_nat (length row))) eqn:Hx;
    [| discriminate].
  apply andb_true_iff in Hx as [Hx0 Hx1].
  apply Z.leb_le in Hx0. apply Z.ltb_lt in Hx1.
  apply store_Some in Hrun as (_ & [= -> ->]).
  exists r', row. split; [assumption |]. split; [reflexivity |].
  split; [assumption |]. split; [lia | reflexivity].
Qed.

(** Writing a cell of a grid whose rows are distinct objects leaves the
    other cells as they are. *)
Lemma writeCell_other board pos pos' v h u h1 x :
  NoDup board -> pos <> pos' ->
  writeCell board pos v h = Some (u, h1) ->
  readCell board pos' h = Some (x, h) ->
  readCell board pos' h1 = Some (x, h1).
Proof.
  intros Hnd Hne Hwrite Hread.
  apply writeCell_inv in Hwrite as (r & row & Hy & Hb & Hr & Hx & ->).
  apply readCell_inv in Hread as (_ & r' & row' & Hy' & Hb' & Hr' & ->).
  destruct (decide (r = r')) as [<- | Hrr].
  - assert (Hsame : Z.to_nat (py pos) = Z.to_nat (py pos'))
      by (eapply NoDup_lookup; eassumption).
    rewrite Hr in Hr'. injection Hr' as <-.
    rewrite (readCell_intro board pos' _ r (<[Z.to_nat (px pos) := v]> row))
      by (first [assumption
                | simpl; apply list_lookup_insert_eq; eapply lookup_lt_Some; exact Hr]).
    f_equal. f_equal. destruct (Z.leb_spec 0 (px pos')); [| reflexivity].
    rewrite list_lookup_insert_ne; [reflexivity |].
    intros Hxx. apply Hne. destruct pos, pos'. simpl in *. f_equal; lia.
  - rewrite (readCell_intro board pos' _ r' row'); [reflexivity | assumption ..|].
    simpl. rewrite list_lookup_insert_ne by assumption. exact Hr'.
Qed.

Lemma readCell_same_rows board pos h h1 x :
  rowsH h1 = rowsH h -> readCell board pos h = Some (x, h) ->
  readCell board pos h1 = Some (x, h1).
Proof.
  intros Hrows Hread.
  apply readCell_inv in Hread as (_ & r & row & Hy & Hb & Hr & ->).
  apply (readCell_intro board pos h1 r row); [assumption .. |]. rewrite Hrows. exact Hr.
Qed.

(** X17.  The teleport of an ability puts the caster on the target
    square, whatever stood there, records the square as the caster's
    position and reports the teleport; on a grid whose rows are distinct
    objects the square the caster left is empty. *)
Theorem teleport_moves_the_caster
    (caster : loc) (effect : AbilityEffect) (targetPos : Position) (board : Grid)
    (out out' : Out) (h h' : Heap) (c : PieceOf loc) :
  piecesH h !! caster = Some c -> NoDup board ->
  executeTeleportEffect caster effect targetPos board out h = Some (out', h') ->
  piecesH h' = <[caster := ChessRules.withPosition c targetPos]> (piecesH h) /\
  readCell board targetPos h' = Some (Some caster, h') /\
  (position c <> targetPos -> readCell board (position c) h' = Some (None, h')) /\
  out' = affect (say out (Teleported (type c))) caster.
Proof.
  intros Hc Hnd Hrun. unfold executeTeleportEffect in Hrun.
  rewrite (bind_run _ _ _ _ _ (load_run piecesL caster h c Hc)) in Hrun.
  apply bind_Some in Hrun as ([] & h1 & Hclear & Hrun).
  pose proof (writeCell_readCell _ _ _ _ _ Hclear) as Hold.
  assert (Hp1 : piecesH h1 = piecesH h).
  { apply writeCell_inv in Hclear as (r & row & _ & _ & _ & _ & ->). reflexivity. }
  apply (proj1 (store_bind_Some _ _ _ _ _ _)) in Hrun as (_ & Hrun).
  cbv beta in Hrun.
  apply bind_Some in Hrun as ([] & h3 & Hput & Hrun).
  pose proof (writeCell_readCell _ _ _ _ _ Hput) as Hnew.
  assert (Hp3 : piecesH h3 = <[caster := ChessRules.withPosition c targetPos]> (piecesH h)).
  { apply writeCell_inv in Hput as (r & row & _ & _ & _ & _ & ->).
    simpl. rewrite Hp1. reflexivity. }
  run_load Hrun (ChessRules.withPosition c targetPos)
    ltac:(rewrite Hp3; apply list_lookup_insert_eq; eapply lookup_lt_Some; exact Hc).
  apply ret_Some in Hrun as [= -> ->].
  split; [exact Hp3 |]. split; [exact Hnew |]. split; [| reflexivity].
  intros Hne.
  refine (writeCell_other _ _ _ _ _ _ _ _ Hnd (not_eq_sym Hne) Hput _).
  apply (readCell_same_rows _ _ h1); [reflexivity | exact Hold].
Qed.

End AbilityRuns.

(** * The turn of a status effect *)

Section EffectTurns.

Import AbilitySystem.

(** What the turn of one effect keeps of the heap: the effect store, the
    effect arrays, and the type and effect array of the piece. *)
Lemma tick_store_piece (E0 : list StatusEffect) (A0 : list (list loc))
    (T : PieceType) (SE : loc) piece (p : PieceOf loc) alive h :
  (exists h1, (effectsH h1 = E0 /\ effectArraysH h1 = A0 /\
               exists p1, piecesH h1 !! piece = Some p1 /\ type p1 = T /\
                          statusEffects p1 = SE) /\
              view piecesL h1 !! piece = Some p) ->
  (effectsH h = E0 /\ effectArraysH h = A0 /\
   exists p1, piecesH h !! piece = Some p1 /\ type p1 = T /\ statusEffects p1 = SE) ->
  effectsH (over piecesL (fun s => <[piece := setIsAlive p alive]> s) h) = E0 /\
  effectArraysH (over piecesL (fun s => <[piece := setIsAlive p alive]> s) h) = A0 /\
  exists p1, piecesH (over piecesL (fun s => <[piece := setIsAlive p alive]> s) h)
               !! piece = Some p1 /\ type p1 = T /\ statusEffects p1 = SE.
Proof.
  intros (h1 & (_ & _ & p1 & Hp1 & Ht & Hse) & Hp) (HE & HA & p2 & Hp2 & _).
  simpl in *. split; [exact HE |]. split; [exact HA |].
  exists (setIsAlive p alive).
  rewrite list_lookup_insert_eq by (eapply lookup_lt_Some; exact Hp2).
  rewrite Hp1 in Hp. injection Hp as <-. auto.
Qed.

Ltac tick_side :=
  let h := fresh "h" in
  let Hk := fresh "Hk" in
  intros h Hk;
  first [exact Hk | eapply tick_store_piece; [eassumption | exact Hk]].

(** One effect: its duration goes down by one, it is kept when a turn or
    more is left and reported as worn off otherwise; messages are only
    added. *)
Lemma processEffect_step piece msgs kept e h r h1 (p : PieceOf loc) :
  piecesH h !! piece = Some p ->
  processEffect piece (msgs, kept) e h = Some (r, h1) ->
  exists eff,
    effectsH h !! e = Some eff /\
    effectsH h1 = <[e := setDuration eff (duration eff - 1)]> (effectsH h) /\
    effectArraysH h1 = effectArraysH h /\
    (exists p1, piecesH h1 !! piece = Some p1 /\ type p1 = type p /\
                statusEffects p1 = statusEffects p) /\
    snd r = (if outlasts (effectsH h) e then kept ++ [e] else kept) /\
    exists more, fst r = msgs ++ more /\
                 (outlasts (effectsH h) e = false ->
                  In (WornOff (effectName eff) (type p)) more).
Proof.
  intros Hp Hrun. unfold processEffect in Hrun.
  apply (proj1 (load_bind_Some _ _ _ _ _)) in Hrun as (eff & Heff & Hrun).
  cbv beta in Hrun. change (effectsH h !! e = Some eff) in Heff.
  rewrite (bind_run _ _ _ _ _ (load_run piecesL piece h p Hp)) in Hrun.
  apply bind_Some in Hrun as (msgs1 & h2 & Hmid & Hrun).
  assert (Hkeep : effectsH h2 = effectsH h /\ effectArraysH h2 = effectArraysH h /\
                  exists p1, piecesH h2 !! piece = Some p1 /\ type p1 = type p /\
                             statusEffects p1 = statusEffects p).
  { revert Hmid.
    match goal with
    | |- ?m h = Some (msgs1, h2) -> _ =>
        assert (Hk : preserves
                       (fun h0 => effectsH h0 = effectsH h /\
                                  effectArraysH h0 = effectArraysH h /\
                                  exists p1, piecesH h0 !! piece = Some p1 /\
                                             type p1 = type p /\
                                             statusEffects p1 = statusEffects p) m)
    end.
    { repeat keeps_step tick_side. }
    intros Hmid. apply (Hk h msgs1 h2); [| exact Hmid].
    split; [reflexivity |]. split; [reflexivity |]. exists p. auto. }
  assert (Hmsgs : exists more, msgs1 = msgs ++ more).
  { clear Hrun Hkeep. destruct (effectType eff).
    - apply ret_Some in Hmid as [= <- _]. exists []. symmetry. apply app_nil_r.
    - apply ret_Some in Hmid as [= <- _]. exists []. symmetry. apply app_nil_r.
    - invert_run.
      match goal with
      | H : (if ?c then _ else _) _ = Some _ |- _ => destruct c
      end; invert_run.
      + rewrite <- app_assoc. eexists. reflexivity.
      + eexists. reflexivity.
    - invert_run.
      match goal with
      | |- context [if ?c then _ else _] => destruct c
      end; [eexists; reflexivity |].
      exists []. symmetry. apply app_nil_r. }
  clear Hmid. destruct Hkeep as (HE & HA & p1 & Hp1 & Ht & Hse).
  destruct Hmsgs as (more & ->).
  run_load Hrun eff ltac:(rewrite HE; exact Heff).
  apply (proj1 (store_bind_Some _ _ _ _ _ _)) in Hrun as (_ & Hrun).
  cbv beta in Hrun.
  run_load Hrun (setDuration eff (duration eff - 1))
    ltac:(apply list_lookup_insert_eq; rewrite HE; eapply lookup_lt_Some; exact Heff).
  cbn [duration setDuration effectName] in Hrun.
  exists eff. split; [exact Heff |].
  assert (Hout : outlasts (effectsH h) e = negb (duration eff - 1 <=? 0)).
  { unfold outlasts. rewrite Heff.
    destruct (Z.ltb_spec 1 (duration eff)), (Z.leb_spec (duration eff - 1) 0);
      simpl; first [reflexivity | lia]. }
  rewrite Hout.
  destruct (duration eff - 1 <=? 0); simpl.
  - run_load Hrun p1 ltac:(exact Hp1).
    apply ret_Some in Hrun as [= -> ->]. simpl. rewrite HE.
    split; [reflexivity |]. split; [exact HA |].
    split; [exists p1; auto |]. split; [reflexivity |].
    exists (more ++ [WornOff (effectName eff) (type p1)]).
    split; [symmetry; apply app_assoc |]. intros _. rewrite Ht.
    apply in_app_iff. right. left. reflexivity.
  - apply ret_Some in Hrun as [= -> ->]. simpl. rewrite HE.
    split; [reflexivity |]. split; [exact HA |].
    split; [exists p1; auto |]. split; [reflexivity |].
    exists more. split; [reflexivity | discriminate].
Qed.

Lemma filter_agree {A} (f g : A -> bool) (l : list A) :
  (forall a, In a l -> f a = g a) ->
  filter (fun a => f a = true) l = filter (fun a => g a = true) l.
Proof.
  induction l as [|a l IH]; intros H; [reflexivity |].
  rewrite !filter_cons, (H a (or_introl eq_refl)), IH;
    [reflexivity | intros a' Ha'; apply H; right; assumption].
Qed.

Lemma outlasts_insert (E : list StatusEffect) e e' v :
  e <> e' -> outlasts (<[e := v]> E) e' = outlasts E e'.
Proof. intros Hne. unfold outlasts. rewrite list_lookup_insert_ne by assumption. reflexivity. Qed.

(** The effects of a piece, one after the other. *)
Lemma processEffects_fold piece es :
  forall msgs kept h r h1 (p : PieceOf loc),
    NoDup es -> piecesH h !! piece = Some p ->
    foldM (processEffect piece) es (msgs, kept) h = Some (r, h1) ->
    (forall e eff, In e es -> effectsH h !! e = Some eff ->
                   effectsH h1 !! e = Some (setDuration eff (duration eff - 1))) /\
    (forall e, ~ In e es -> effectsH h1 !! e = effectsH h !! e) /\
    effectArraysH h1 = effectArraysH h /\
    (exists p1, piecesH h1 !! piece = Some p1 /\ type p1 = type p /\
                statusEffects p1 = statusEffects p) /\
    snd r = kept ++ filter (fun e => outlasts (effectsH h) e = true) es /\
    exists more,
      fst r = msgs ++ more /\
      forall e eff, In e es -> effectsH h !! e = Some eff ->
                    outlasts (effectsH h) e = false ->
                    In (WornOff (effectName eff) (type p)) more.
Proof.
  induction es as [|e es IH]; intros msgs kept h r h1 p Hnd Hp Hrun.
  - apply ret_Some in Hrun as [= -> ->]. simpl.
    split; [intros e eff [] |]. split; [reflexivity |]. split; [reflexivity |].
    split; [exists p; auto |]. split; [symmetry; apply app_nil_r |].
    exists []. split; [symmetry; apply app_nil_r | intros e eff []].
  - apply NoDup_cons in Hnd as [Hfresh Hnd].
    assert (Hfresh' : ~ In e es) by (intros Hin; apply Hfresh, list_elem_of_In, Hin).
    cbn [foldM] in Hrun.
    apply bind_Some in Hrun as ([msgs1 kept1] & h2 & Hstep & Hrun).
    apply (processEffect_step _ _ _ _ _ _ _ p Hp) in Hstep
      as (eff & Heff & HE2 & HA2 & (p1 & Hp1 & Ht1 & Hse1) & Hkept1 & more1 & Hm1 & Hworn1).
    simpl in Hkept1, Hm1. subst kept1 msgs1.
    apply (IH _ _ _ _ _ p1 Hnd Hp1) in Hrun
      as (Hticked & Hother & HA & (p2 & Hp2 & Ht2 & Hse2) & Hkept & more2 & Hm2 & Hworn2).
    assert (Hrest : forall e', In e' es -> effectsH h2 !! e' = effectsH h !! e').
    { intros e' Hin. rewrite HE2. apply list_lookup_insert_ne. congruence. }
    assert (Hout : forall e', In e' es ->
                     outlasts (effectsH h2) e' = outlasts (effectsH h) e').
    { intros e' Hin. rewrite HE2. apply outlasts_insert. congruence. }
    split.
    { intros e' eff' [<- | Hin] Heff'.
      - rewrite Hother by assumption. rewrite HE2.
        rewrite Heff in Heff'. injection Heff' as <-.
        apply list_lookup_insert_eq. eapply lookup_lt_Some. exact Heff.
      - apply Hticked; [assumption |]. rewrite Hrest by assumption. exact Heff'. }
    split.
    { intros e' Hnot. rewrite Hother by (intros Hin; apply Hnot; right; assumption).
      rewrite HE2. apply list_lookup_insert_ne. intros ->. apply Hnot. left. reflexivity. }
    split; [congruence |].
    split; [exists p2; split; [assumption |]; split; congruence |].
    split.
    { rewrite Hkept, (filter_agree _ _ _ Hout), filter_cons.
      destruct (outlasts (effectsH h) e) eqn:He.
      - rewrite decide_True by reflexivity. rewrite <- app_assoc. reflexivity.
      - rewrite decide_False by discriminate. reflexivity. }
    exists (more1 ++ more2). split; [rewrite Hm2; symmetry; apply app_assoc |].
    intros e' eff' [<- | Hin] Heff' Hgone; apply in_app_iff.
    + left. rewrite Heff in Heff'. injection Heff' as <-. apply Hworn1, Hgone.
    + right. rewrite <- Ht1. apply (Hworn2 e' eff'); [assumption | |].
      * rewrite Hrest by assumption. exact Heff'.
      * rewrite Hout by assumption. exact Hgone.
Qed.

(** X18.  [processStatusEffects] on a piece whose effects are distinct
    objects: the duration of each of its effects goes down by one and no
    other effect changes; the piece keeps, in their order, the effects
    that had more than one turn left, and each of the others is reported
    as worn off. *)
Theorem processStatusEffects_ticks_the_effects
    (piece : loc) (h h' : Heap) (msgs : list Message) (p : PieceOf loc)
    (es : list loc) :
  piecesH h !! piece = Some p ->
  effectArraysH h !! statusEffects p = Some es -> NoDup es ->
  processStatusEffects piece h = Some (msgs, h') ->
  (forall e eff, In e es -> effectsH h !! e = Some eff ->
                 effectsH h' !! e = Some (setDuration eff (duration eff - 1))) /\
  (forall e, ~ In e es -> effectsH h' !! e = effectsH h !! e) /\
  (exists p', piecesH h' !! piece = Some p' /\
              effectArraysH h' !! statusEffects p' =
              Some (filter (fun e => outlasts (effectsH h) e = true) es)) /\
  (forall e eff, In e es -> effectsH h !! e = Some eff -> duration eff <= 1 ->
                 In (WornOff (effectName eff) (type p)) msgs).
Proof.
  intros Hp Hes Hnd Hrun. unfold processStatusEffects in Hrun.
  rewrite (bind_run _ _ _ _ _ (load_run piecesL piece h p Hp)) in Hrun.
  rewrite (bind_run _ _ _ _ _ (load_run effectArraysL _ h es Hes)) in Hrun.
  apply bind_Some in Hrun as (r & h1 & Hfold & Hrun).
  apply (processEffects_fold _ _ _ _ _ _ _ p Hnd Hp) in Hfold
    as (Hticked & Hother & HA & (p1 & Hp1 & Ht1 & Hse1) & Hkept & more & Hm & Hworn).
  simpl in Hkept, Hm.
  apply (proj1 (alloc_bind_Some _ _ _ _ _)) in Hrun. cbv beta in Hrun.
  run_load Hrun p1 ltac:(exact Hp1).
  apply (proj1 (store_bind_Some _ _ _ _ _ _)) in Hrun as (_ & Hrun).
  apply ret_Some in Hrun as [= -> ->]. simpl.
  split; [exact Hticked |]. split; [exact Hother |]. split.
  - eexists. split.
    + apply list_lookup_insert_eq. eapply lookup_lt_Some. exact Hp1.
    + simpl. rewrite lookup_app_r by reflexivity.
      rewrite Nat.sub_diag, Hkept. reflexivity.
  - intros e eff Hin Heff Hd. rewrite Hm. apply (Hworn e eff); [assumption .. |].
    unfold outlasts. rewrite Heff. apply Z.ltb_ge. exact Hd.
Qed.

End EffectTurns.

Section Cooldowns.

Import AbilitySystem.

Lemma reduceCooldowns_fold (l : list loc) :
  forall h u h1,
    NoDup l ->
    foldM (fun (_ : unit) ability =>
             a <- load abilitiesL ability ;;
             match currentCooldown a with
             | Some c =>
                 if negb (c =? 0) && (0 <? c)
                 then store abilitiesL ability (setCurrentCooldown a (Some (c - 1)))
                 else ret tt
             | None => ret tt
             end) l tt h = Some (u, h1) ->
    (forall a ab c, In a l -> abilitiesH h !! a = Some ab ->
                    currentCooldown ab = Some c -> 0 < c ->
                    abilitiesH h1 !! a = Some (setCurrentCooldown ab (Some (c - 1)))) /\
    (forall a ab, abilitiesH h !! a = Some ab ->
                  ~ In a l \/ currentCooldown ab = None \/
                  (exists c, currentCooldown ab = Some c /\ c <= 0) ->
                  abilitiesH h1 !! a = Some ab) /\
    rowsH h1 = rowsH h /\ piecesH h1 = piecesH h /\ statsH h1 = statsH h /\
    effectArraysH h1 = effectArraysH h /\ effectsH h1 = effectsH h.
Proof.
  induction l as [|a0 l IH]; intros h u h1 Hnd Hrun.
  - apply ret_Some in Hrun as [= -> ->].
    split; [intros a ab c [] |]. split; [auto |]. repeat split.
  - apply NoDup_cons in Hnd as [Hfresh Hnd].
    assert (Hfresh' : ~ In a0 l) by (intros Hin; apply Hfresh, list_elem_of_In, Hin).
    cbn [foldM] in Hrun.
    apply bind_Some in Hrun as ([] & h2 & Hstep & Hrun).
    apply (proj1 (load_bind_Some _ _ _ _ _)) in Hstep as (ab0 & Hab0 & Hstep).
    cbv beta in Hstep. change (abilitiesH h !! a0 = Some ab0) in Hab0.
    apply (IH _ _ _ Hnd) in Hrun
      as (Hdown & Hsame & Hrows & Hpieces & Hstats & Harrays & Heffects).
    assert (Hcase :
      (exists c, currentCooldown ab0 = Some c /\ 0 < c /\
                 h2 = over abilitiesL
                        (fun s => <[a0 := setCurrentCooldown ab0 (Some (c - 1))]> s) h) \/
      ((currentCooldown ab0 = None \/
        exists c, currentCooldown ab0 = Some c /\ c <= 0) /\ h2 = h)).
    { destruct (currentCooldown ab0) as [c|].
      - destruct (Z.eqb_spec c 0) as [Hc0 | Hc0]; simpl in Hstep.
        + apply ret_Some in Hstep as [= ->]. right. split; [| reflexivity].
          right. exists c. split; [reflexivity | lia].
        + destruct (Z.ltb_spec 0 c).
          * apply store_Some in Hstep as (_ & [= ->]). left. exists c. auto.
          * apply ret_Some in Hstep as [= ->]. right. split; [| reflexivity].
            right. exists c. split; [reflexivity | lia].
      - apply ret_Some in Hstep as [= ->]. right. split; [| reflexivity]. left.
        reflexivity. }
    destruct Hcase as [(c0 & Hc0 & Hpos & ->) | [Hidle ->]]; simpl in *.
    + split.
      { intros a ab c [<- | Hin] Hab Hc Hc'.
        - rewrite Hab0 in Hab. injection Hab as <-.
          rewrite Hc0 in Hc. injection Hc as <-.
          eapply Hsame; [| left; assumption].
          apply list_lookup_insert_eq. eapply lookup_lt_Some. exact Hab0.
        - eapply Hdown; [assumption | | eassumption ..].
          rewrite list_lookup_insert_ne by congruence. exact Hab. }
      split; [| tauto].
      intros a ab Hab Hidle.
      assert (Hne : a0 <> a).
      { intros <-. rewrite Hab0 in Hab. injection Hab as <-.
        destruct Hidle as [Hnot | [Hnone | (c & Hc & Hle)]].
        - apply Hnot. left. reflexivity.
        - congruence.
        - rewrite Hc0 in Hc. injection Hc as <-. lia. }
      apply Hsame; [rewrite list_lookup_insert_ne by assumption; exact Hab |].
      destruct Hidle as [Hnot | Hrest]; [| tauto].
      left. intros Hin. apply Hnot. right. assumption.
    + split.
      { intros a ab c [<- | Hin] Hab Hc Hc'.
        - exfalso. rewrite Hab0 in Hab. injection Hab as <-.
          destruct Hidle as [Hnone | (c' & Hc'' & Hle)]; [congruence |].
          rewrite Hc in Hc''. injection Hc'' as <-. lia.
        - eapply Hdown; eassumption. }
      split; [| tauto].
      intros a ab Hab Hidle'. apply Hsame; [exact Hab |].
      destruct (decide (a = a0)) as [-> | Hne].
      * rewrite Hab0 in Hab. injection Hab as <-. tauto.
      * destruct Hidle' as [Hnot | Hrest]; [| tauto].
        left. intros Hin. apply Hnot. right. assumption.
Qed.

(** X19.  [reduceCooldowns] on a piece whose abilities are distinct
    objects: each of its abilities that is cooling down has one turn less
    to wait; an ability with no cooldown, or with one that is not
    positive, and every ability of other pieces stay as they are, and so
    does the rest of the heap. *)
Theorem reduceCooldowns_counts_down
    (piece : loc) (h h' : Heap) (u : unit) (p : PieceOf loc) :
  piecesH h !! piece = Some p -> NoDup (abilities p) ->
  reduceCooldowns piece h = Some (u, h') ->
  (forall a ab c, In a (abilities p) -> abilitiesH h !! a = Some ab ->
                  currentCooldown ab = Some c -> 0 < c ->
                  abilitiesH h' !! a = Some (setCurrentCooldown ab (Some (c - 1)))) /\
  (forall a ab, abilitiesH h !! a = Some ab ->
                ~ In a (abilities p) \/ currentCooldown ab = None \/
                (exists c, currentCooldown ab = Some c /\ c <= 0) ->
                abilitiesH h' !! a = Some ab) /\
  rowsH h' = rowsH h /\ piecesH h' = piecesH h /\ statsH h' = statsH h /\
  effectArraysH h' = effectArraysH h /\ effectsH h' = effectsH h.
Proof.
  intros Hp Hnd Hrun. unfold reduceCooldowns in Hrun.
  rewrite (bind_run _ _ _ _ _ (load_run piecesL piece h p Hp)) in Hrun.
  exact (reduceCooldowns_fold _ _ _ _ Hnd Hrun).
Qed.

End Cooldowns.

Section Available.

Import AbilitySystem.

Lemma canUseAbility_iff (piece : PieceOf PieceStats) (ability : Ability) :
  canUse (canUseAbility piece ability) = true <->
  isAlive piece = true /\ manaCost ability <= currentMana (stats piece) /\
  levelRequirement ability <= level piece /\
  forall c, currentCooldown ability = Some c -> c <= 0.
Proof.
  pose proof (canUseAbility_false piece ability) as Hno.
  destruct (canUse (canUseAbility piece ability)).
  - split; [intros _ | reflexivity].
    assert (Hnot : ~ (isAlive piece = false \/
                      currentMana (stats piece) < manaCost ability \/
                      (exists c, currentCooldown ability = Some c /\ 0 < c) \/
                      level piece < levelRequirement ability))
      by (intros H; apply Hno in H; discriminate).
    split; [destruct (isAlive piece); [reflexivity | tauto] |].
    split; [lia |]. split; [lia |].
    intros c Hc. destruct (Z.le_gt_cases c 0); [assumption |].
    exfalso. apply Hnot. right. right. left. exists c. split; [assumption | lia].
  - split; [discriminate |]. intros (Ha & Hm & Hl & Hc).
    destruct (proj1 Hno eq_refl) as [H | [H | [(c & Hc' & Hpos) | H]]];
      [congruence | lia | specialize (Hc c Hc'); lia | lia].
Qed.

(** X20.  [getAvailableAbilities] changes nothing and lists, among the
    abilities of a piece, those that the piece can use: the piece is
    alive, has the mana the ability costs and the level it requires, and
    the ability is not cooling down. *)
Theorem available_abilities_spec
    (piece : loc) (h h1 : Heap) (l : list loc) (p : PieceOf loc) (s : PieceStats) :
  piecesH h !! piece = Some p -> statsH h !! stats p = Some s ->
  getAvailableAbilities piece h = Some (l, h1) ->
  h1 = h /\
  forall a, In a l <->
            In a (abilities p) /\
            exists ab, abilitiesH h !! a = Some ab /\ isAlive p = true /\
                       manaCost ab <= currentMana s /\
                       levelRequirement ab <= level p /\
                       forall c, currentCooldown ab = Some c -> c <= 0.
Proof.
  intros Hp Hs Hrun. unfold getAvailableAbilities in Hrun.
  rewrite (bind_run _ _ _ _ _ (load_run piecesL piece h p Hp)) in Hrun.
  assert (Hfold : forall casts kept,
    foldM (fun kept ability =>
             c <- snapshotPiece piece ;;
             a <- load abilitiesL ability ;;
             ret (if canUse (canUseAbility c a) then kept ++ [ability] else kept))
      casts kept h = Some (l, h1) ->
    h1 = h /\
    forall a, In a l <->
              In a kept \/
              (In a casts /\
               exists ab, abilitiesH h !! a = Some ab /\
                          canUse (canUseAbility (setStats p s) ab) = true)).
  { clear Hrun. induction casts as [|a0 rest IH]; intros kept Hrun.
    - apply ret_Some in Hrun as [= -> ->]. split; [reflexivity |].
      intros a. split; [auto | intros [Hin | [[] _]]; assumption].
    - cbn [foldM] in Hrun.
      apply bind_Some in Hrun as (kept1 & h2 & Hstep & Hrun).
      rewrite (bind_run _ _ _ _ _ (snapshotPiece_run piece h p s Hp Hs)) in Hstep.
      apply (proj1 (load_bind_Some _ _ _ _ _)) in Hstep as (ab0 & Hab0 & Hstep).
      cbv beta in Hstep. change (abilitiesH h !! a0 = Some ab0) in Hab0.
      apply ret_Some in Hstep as [= -> ->].
      apply IH in Hrun as [-> Hl]. split; [reflexivity |].
      intros a. rewrite Hl. clear Hl.
      destruct (canUse (canUseAbility (setStats p s) ab0)) eqn:Hcan.
      + rewrite in_app_iff. simpl. split.
        * intros [[Hin | [<- | []]] | (Hin & Hab)]; eauto 6.
        * intros [Hin | ([<- | Hin] & Hab)]; eauto.
      + simpl. split.
        * intros [Hin | (Hin & Hab)]; eauto.
        * intros [Hin | ([<- | Hin] & ab & Hab & Hcan')]; eauto.
          rewrite Hab0 in Hab. injection Hab as <-. congruence. }
  apply Hfold in Hrun as [-> Hl]. split; [reflexivity |].
  intros a. rewrite Hl. split.
  - intros [[] | (Hin & ab & Hab & Hcan)]. split; [assumption |].
    exists ab. split; [assumption |]. apply canUseAbility_iff in Hcan. exact Hcan.
  - intros (Hin & ab & Hab & Hcan). right. split; [assumption |].
    exists ab. split; [assumption |]. apply canUseAbility_iff. exact Hcan.
Qed.

End Available.

(** * The actions of the store *)

(** Inversion of a run through the [let]s of the code. *)
Ltac invert_lets :=
  repeat first [invert_step | progress cbv zeta in *].

Section StoreActions.

Import ChessRules GameStore.

(** What [endTurn] returns. *)
Lemma endTurn_result state h state' h' :
  endTurn state h = Some (state', h') ->
  currentTurn state' = ChessAI.opposite (currentTurn state) /\
  turnCount state' = turnCount state + 1 /\
  selectedPiece state' = None /\ validMoves state' = [] /\
  highlightedSquares state' = [] /\
  gameState state' = gameState state /\ winner state' = winner state /\
  moveHistory state' = moveHistory state /\
  ai state' = ai state /\ isAIThinking state' = isAIThinking state.
Proof.
  unfold endTurn. intros Hrun. invert_lets. simpl. repeat split.
Qed.

Lemma extends_refl h : extends h h.
Proof. repeat split; reflexivity. Qed.

Lemma extends_alloc_rows h h0 v :
  extends h h0 -> extends h (over rowsL (fun s => s ++ [v]) h0).
Proof.
  intros (H1 & H2 & H3 & H4 & H5 & H6). repeat split; try assumption.
  simpl. etransitivity; [exact H1 | apply prefix_app_r; reflexivity].
Qed.

Lemma extends_alloc_pieces h h0 v :
  extends h h0 -> extends h (over piecesL (fun s => s ++ [v]) h0).
Proof.
  intros (H1 & H2 & H3 & H4 & H5 & H6). repeat split; try assumption.
  simpl. etransitivity; [exact H2 | apply prefix_app_r; reflexivity].
Qed.

Lemma extends_alloc_stats h h0 v :
  extends h h0 -> extends h (over statsL (fun s => s ++ [v]) h0).
Proof.
  intros (H1 & H2 & H3 & H4 & H5 & H6). repeat split; try assumption.
  simpl. etransitivity; [exact H3 | apply prefix_app_r; reflexivity].
Qed.

(** X21.  [endTurn] passes the turn to the other team, counts the turn
    and clears the selection; the winner, the state of the game and the
    history of moves stay as they are.  It writes into no object: every
    row, piece and stats object of the heap is afterwards as it was, and
    the new grid is made of new rows. *)
Theorem endTurn_passes_the_turn (state state' : GameStore) (h h' : Heap) :
  endTurn state h = Some (state', h') ->
  extends h h' /\
  currentTurn state' = ChessAI.opposite (currentTurn state) /\
  turnCount state' = turnCount state + 1 /\
  selectedPiece state' = None /\ validMoves state' = [] /\
  highlightedSquares state' = [] /\
  gameState state' = gameState state /\ winner state' = winner state /\
  moveHistory state' = moveHistory state.
Proof.
  intros Hrun. split.
  - assert (Hkeep : preserves (extends h) (endTurn state)).
    { unfold endTurn, mapBoard, regenerate, tickTempHp.
      repeat keeps_step ltac:(
        intros ? Hext;
        first [apply extends_alloc_rows | apply extends_alloc_pieces
              | apply extends_alloc_stats];
        exact Hext). }
    exact (Hkeep h state' h' (extends_refl h) Hrun).
  - apply endTurn_result in Hrun. tauto.
Qed.

(** X22.  [movePiece] from an empty square, or with a move that is not
    legal for the piece on the square, returns the store and the heap as
    they are. *)
Theorem movePiece_rejected_changes_nothing
    (from to : Position) (now : Z) (state : GameStore) (h : Heap)
    (c : option loc) (b : BoardOf loc) :
  readCell (board state) from h = Some (c, h) ->
  derefBoard (board state) h = Some (b, h) ->
  match c with
  | None => True
  | Some pl => exists p, piecesH h !! pl = Some p /\ isMoveValid p to b = false
  end ->
  movePiece from to now state h = Some (state, h).
Proof.
  intros Hcell Hb Hc. unfold movePiece.
  rewrite (bind_run _ _ _ _ _ Hcell).
  destruct c as [pl|]; [| reflexivity].
  destruct Hc as (p & Hp & Hinvalid).
  rewrite (bind_run _ _ _ _ _ (load_run piecesL pl h p Hp)).
  rewrite (bind_run _ _ _ _ _ Hb), Hinvalid. reflexivity.
Qed.

(** X23.  A move that [movePiece] accepts passes the turn to the other
    team, counts the turn, clears the selection, and adds one record to
    the history of moves, with the two squares and the time of the move.
    The game is over, won by the team that moved, or goes on in the state
    it was in with no winner. *)
Theorem movePiece_accepted_passes_the_turn
    (from to : Position) (now : Z) (state state' : GameStore) (h h' : Heap)
    (pl : loc) (p : PieceOf loc) (b : BoardOf loc) :
  readCell (board state) from h = Some (Some pl, h) ->
  piecesH h !! pl = Some p ->
  derefBoard (board state) h = Some (b, h) ->
  isMoveValid p to b = true ->
  movePiece from to now state h = Some (state', h') ->
  currentTurn state' = ChessAI.opposite (currentTurn state) /\
  turnCount state' = turnCount state + 1 /\
  selectedPiece state' = None /\ validMoves state' = [] /\
  highlightedSquares state' = [] /\
  (exists move, moveHistory state' = moveHistory state ++ [move] /\
                GameStore.from move = from /\ GameStore.to move = to /\
                timestamp move = now) /\
  ((winner state' = Some (currentTurn state) /\ gameState state' = GAME_OVER) \/
   (winner state' = None /\ gameState state' = gameState state)).
Proof.
  intros Hcell Hp Hb Hvalid Hrun. unfold movePiece in Hrun.
  rewrite (bind_run _ _ _ _ _ Hcell) in Hrun.
  rewrite (bind_run _ _ _ _ _ (load_run piecesL pl h p Hp)) in Hrun.
  rewrite (bind_run _ _ _ _ _ Hb), Hvalid in Hrun. simpl in Hrun.
  clear Hcell Hp Hb Hvalid.
  invert_lets.
  match goal with
  | H : endTurn _ _ = Some _ |- _ => apply endTurn_result in H; simpl in H
  end.
  repeat match goal with
         | H : _ /\ _ |- _ => destruct H
         end.
  repeat (split; [assumption |]).
  split; [eexists; split; [eassumption |]; repeat split |].
  match goal with
  | H : winner state' = (if ?c then _ else _) |- _ => destruct c
  end; [left | right]; split; assumption.
Qed.

(** X24.  [useAbility] does not end the turn: whatever it does to the
    grid, the team to play, the count of turns, the history of moves and
    the winner are afterwards as they were. *)
Theorem useAbility_keeps_the_turn
    (pieceId abilityId' : string) (target : option Position)
    (state state' : GameStore) (h h' : Heap) :
  useAbility pieceId abilityId' target state h = Some (state', h') ->
  currentTurn state' = currentTurn state /\ turnCount state' = turnCount state /\
  moveHistory state' = moveHistory state /\ winner state' = winner state.
Proof.
  unfold useAbility. intros Hrun.
  repeat first
    [ invert_step
    | progress cbv zeta in *
    | match goal with
      | H : (match ?x with _ => _ end) _ = Some _ |- _ => destruct x eqn:?
      end ];
    try match goal with
        | |- context [if ?c then _ else _] => destruct c
        end;
    simpl; repeat split.
Qed.

(** X25.  [selectPiece] selects a square only when it holds a living
    piece of the team to play, and then the moves it offers are the legal
    moves of that piece; otherwise it clears the selection.  It changes
    neither the heap nor anything else in the store. *)
Theorem selectPiece_offers_legal_moves
    (pos : Position) (state state' : GameStore) (h h' : Heap) :
  selectPiece pos state h = Some (state', h') ->
  h' = h /\ board state' = board state /\ currentTurn state' = currentTurn state /\
  turnCount state' = turnCount state /\ moveHistory state' = moveHistory state /\
  winner state' = winner state /\ gameState state' = gameState state /\
  highlightedSquares state' = validMoves state' /\
  ((selectedPiece state' = None /\ validMoves state' = []) \/
   (exists l p b,
      readCell (board state) pos h = Some (Some l, h) /\
      piecesH h !! l = Some p /\ derefBoard (board state) h = Some (b, h) /\
      team p = currentTurn state /\ isAlive p = true /\
      selectedPiece state' = Some pos /\ validMoves state' = getValidMoves p b)).
Proof.
  unfold selectPiece. intros Hrun.
  apply bind_Some in Hrun as (c & h1 & Hcell & Hrun).
  pose proof (readCell_inv _ _ _ _ _ Hcell) as [-> _].
  cbv zeta in Hrun. destruct c as [l|].
  - apply (proj1 (load_bind_Some _ _ _ _ _)) in Hrun as (p & Hp & Hrun).
    cbv beta in Hrun.
    destruct (bool_decide (team p ≠ currentTurn state) || negb (isAlive p)) eqn:Hown.
    + apply ret_Some in Hrun as [= -> ->]. simpl.
      repeat (split; [reflexivity |]). left. split; reflexivity.
    + apply bind_Some in Hrun as (b & h2 & Hb & Hrun).
      pose proof (derefBoard_inv _ _ _ _ Hb) as [-> _].
      apply ret_Some in Hrun as [= -> ->]. simpl.
      repeat (split; [reflexivity |]). right.
      apply orb_false_iff in Hown as [Hteam Halive].
      apply bool_decide_eq_false in Hteam. apply negb_false_iff in Halive.
      exists l, p, b. repeat (split; [first [assumption | reflexivity] |]).
      split; [| split; [assumption | split; reflexivity]].
      destruct (decide (team p = currentTurn state)); [assumption |].
      exfalso. apply Hteam. assumption.
  - apply ret_Some in Hrun as [= -> ->]. simpl.
    repeat (split; [reflexivity |]). left. split; reflexivity.
Qed.

End StoreActions.

(** * The grid after the end of a turn *)

Section CellWise.

Import ChessRules GameStore.

Implicit Types (S : PieceOf PieceStats -> PieceOf PieceStats -> Prop).

(** The cell [c'] of the heap [h'] holds the piece of the cell [c] of
    the heap [h], changed as [S] says. *)
Local Abbreviation Rel S h c h' c' :=
  (match c with
   | None => c' = None
   | Some l =>
       forall q, snapshotPiece l h = Some (q, h) ->
                 exists l' q', c' = Some l' /\
                               snapshotPiece l' h' = Some (q', h') /\ S q q'
   end).

Lemma snapshotPiece_inv l h q h1 :
  snapshotPiece l h = Some (q, h1) ->
  h1 = h /\ exists p s, piecesH h !! l = Some p /\ statsH h !! stats p = Some s /\
                        q = setStats p s.
Proof.
  unfold snapshotPiece. intros Hrun. invert_run. split; [reflexivity |]. eauto.
Qed.

Lemma snapshotPiece_extends l h h1 q :
  extends h h1 -> snapshotPiece l h = Some (q, h) ->
  snapshotPiece l h1 = Some (q, h1).
Proof.
  intros (_ & Hp & Hs & _) Hrun.
  apply snapshotPiece_inv in Hrun as (_ & p & s & Hl & Hst & ->).
  apply snapshotPiece_run.
  - eapply prefix_lookup_Some; eassumption.
  - eapply prefix_lookup_Some; eassumption.
Qed.

Lemma extends_trans h1 h2 h3 : extends h1 h2 -> extends h2 h3 -> extends h1 h3.
Proof.
  intros (A1 & A2 & A3 & A4 & A5 & A6) (B1 & B2 & B3 & B4 & B5 & B6).
  repeat split; etransitivity; eassumption.
Qed.

Lemma Rel_later S h c h1 h2 c' :
  extends h1 h2 -> Rel S h c h1 c' -> Rel S h c h2 c'.
Proof.
  intros Hext. destruct c as [l|]; [| auto].
  intros H q Hq. destruct (H q Hq) as (l' & q' & -> & Hq' & HS).
  exists l', q'. split; [reflexivity |]. split; [| assumption].
  apply (snapshotPiece_extends _ h1); assumption.
Qed.

Lemma Rel_earlier S h h1 c h2 c' :
  extends h h1 -> Rel S h1 c h2 c' -> Rel S h c h2 c'.
Proof.
  intros Hext. destruct c as [l|]; [| auto].
  intros H q Hq. apply H. apply (snapshotPiece_extends _ h); assumption.
Qed.

(** A function on cells that only allocates, mapped over a row. *)
Lemma mapM_cells S (f : option loc -> M (option loc)) :
  (forall c h c' h1, f c h = Some (c', h1) -> extends h h1 /\ Rel S h c h1 c') ->
  forall row h row' h1,
    mapM f row h = Some (row', h1) ->
    extends h h1 /\ length row' = length row /\
    forall i c, row !! i = Some c ->
                exists c', row' !! i = Some c' /\ Rel S h c h1 c'.
Proof.
  intros Hf. induction row as [|a row IH]; intros h row' h1 Hrun.
  - apply ret_Some in Hrun as [= -> ->].
    split; [apply extends_refl |]. split; [reflexivity |]. intros i c [=].
  - cbn [mapM] in Hrun.
    apply bind_Some in Hrun as (b & h2 & Hhead & Hrun).
    apply bind_Some in Hrun as (bs & h3 & Htail & Hrun).
    apply ret_Some in Hrun as [= -> ->].
    apply Hf in Hhead as [Hext1 Hrel1].
    apply IH in Htail as (Hext2 & Hlen & Hrels).
    split; [eapply extends_trans; eassumption |].
    split; [simpl; congruence |].
    intros [|i] c Hc; simpl in Hc.
    + injection Hc as <-. exists b. split; [reflexivity |].
      eapply Rel_later; eassumption.
    + destruct (Hrels i c Hc) as (c' & Hc' & Hrel).
      exists c'. split; [exact Hc' |]. eapply Rel_earlier; eassumption.
Qed.

(** The same over the rows of a grid. *)
Lemma mapBoard_cells S (f : option loc -> M (option loc)) :
  (forall c h c' h1, f c h = Some (c', h1) -> extends h h1 /\ Rel S h c h1 c') ->
  forall board h nb h1,
    mapBoard f board h = Some (nb, h1) ->
    extends h h1 /\
    forall pos c, readCell board pos h = Some (c, h) ->
                  exists c', readCell nb pos h1 = Some (c', h1) /\ Rel S h c h1 c'.
Proof.
  intros Hf. unfold mapBoard.
  assert (Hrows : forall (grid : Grid) h nb h1,
    mapM (fun r => row <- load rowsL r ;; row' <- mapM f row ;; alloc rowsL row')
      grid h = Some (nb, h1) ->
    extends h h1 /\
    forall i r row, grid !! i = Some r -> rowsH h !! r = Some row ->
      exists r' row', nb !! i = Some r' /\ rowsH h1 !! r' = Some row' /\
                      length row' = length row /\
                      forall j c, row !! j = Some c ->
                        exists c', row' !! j = Some c' /\ Rel S h c h1 c').
  { intros grid. induction grid as [|r0 grid IH]; intros h nb h1 Hrun.
    - apply ret_Some in Hrun as [= -> ->].
      split; [apply extends_refl |]. intros i r row [=].
    - cbn [mapM] in Hrun.
      apply bind_Some in Hrun as (r0' & h2 & Hhead & Hrun).
      apply bind_Some in Hrun as (rs & h3 & Htail & Hrun).
      apply ret_Some in Hrun as [= -> ->].
      apply (proj1 (load_bind_Some _ _ _ _ _)) in Hhead as (row0 & Hrow0 & Hhead).
      cbv beta in Hhead.
      apply bind_Some in Hhead as (row0' & h4 & Hcells & Hhead).
      apply alloc_Some in Hhead as [= -> ->].
      apply (mapM_cells S f Hf) in Hcells as (Hext4 & Hlen & Hrels).
      apply IH in Htail as (Hext3 & Htail).
      assert (Hext2 : extends h (over rowsL (fun s => s ++ [row0']) h4))
        by (apply extends_alloc_rows; exact Hext4).
      split; [eapply extends_trans; eassumption |].
      intros [|i] r row Hr Hrow; simpl in Hr.
      + injection Hr as <-. change (rowsH h !! r0 = Some row0) in Hrow0.
        rewrite Hrow0 in Hrow. injection Hrow as <-.
        exists (length (rowsH h4)), row0'. split; [reflexivity |].
        split.
        { destruct Hext3 as (Hpre & _). eapply prefix_lookup_Some; [| exact Hpre].
          simpl. rewrite lookup_app_r by reflexivity.
          rewrite Nat.sub_diag. reflexivity. }
        split; [exact Hlen |].
        intros j c Hc. destruct (Hrels j c Hc) as (c' & Hc' & Hrel).
        exists c'. split; [exact Hc' |].
        eapply Rel_later; [| exact Hrel].
        eapply extends_trans; [apply extends_alloc_rows, extends_refl | exact Hext3].
      + assert (Hrow2 : rowsH (over rowsL (fun s => s ++ [row0']) h4) !! r = Some row).
        { destruct Hext2 as (Hpre & _). eapply prefix_lookup_Some; eassumption. }
        destruct (Htail i r row Hr Hrow2) as (r' & row' & Hr' & Hrow' & Hlen' & Hcells').
        exists r', row'. repeat (split; [assumption |]).
        intros j c Hc. destruct (Hcells' j c Hc) as (c' & Hc' & Hrel).
        exists c'. split; [exact Hc' |]. eapply Rel_earlier; eassumption. }
  intros grid h nb h1 Hrun. apply Hrows in Hrun as [Hext Hrun].
  split; [exact Hext |]. intros pos c Hread.
  apply readCell_inv in Hread as (_ & r & row & Hy & Hb & Hr & ->).
  destruct (Hrun _ r row Hb Hr) as (r' & row' & Hr' & Hrow' & Hlen & Hcells).
  rewrite (readCell_intro nb pos h1 r' row') by assumption.
  eexists. split; [reflexivity |].
  destruct (0 <=? px pos); [| reflexivity].
  destruct (row !! Z.to_nat (px pos)) as [c|] eqn:Hc.
  - destruct (Hcells _ c Hc) as (c' & -> & Hrel). exact Hrel.
  - apply lookup_ge_None in Hc.
    rewrite (proj2 (lookup_ge_None row' (Z.to_nat (px pos)))) by lia. reflexivity.
Qed.

Lemma setStats_stats (q : PieceOf PieceStats) : setStats q (stats q) = q.
Proof. destruct q. reflexivity. Qed.

Lemma extends_fresh h (sv : PieceStats) (pv : PieceOf loc) :
  extends h (mkHeap (rowsH h) (piecesH h ++ [pv]) (statsH h ++ [sv]) (abilitiesH h)
               (effectArraysH h) (effectsH h)).
Proof.
  exact (extends_alloc_pieces h (over statsL (fun s => s ++ [sv]) h) pv
           (extends_alloc_stats h h sv (extends_refl h))).
Qed.

(** The mana regeneration of one cell. *)
Lemma regenerate_cell newTurn c h c' h1 :
  regenerate newTurn c h = Some (c', h1) ->
  extends h h1 /\
  Rel (fun q q' =>
         q' = setStats q
                (if bool_decide (team q = newTurn) && isAlive q
                 then setCurrentMana (stats q)
                        (Z.min (maxMana (stats q)) (currentMana (stats q) + 10))
                 else stats q)) h c h1 c'.
Proof.
  unfold regenerate. intros Hrun. destruct c as [l|].
  2:{ apply ret_Some in Hrun as [= -> ->]. split; [apply extends_refl | reflexivity]. }
  apply (proj1 (load_bind_Some _ _ _ _ _)) in Hrun as (p & Hp & Hrun).
  cbv beta in Hrun. change (piecesH h !! l = Some p) in Hp.
  destruct (bool_decide (team p = newTurn) && isAlive p) eqn:Hown.
  - apply (proj1 (load_bind_Some _ _ _ _ _)) in Hrun as (s & Hs & Hrun).
    cbv beta zeta in Hrun. change (statsH h !! stats p = Some s) in Hs.
    apply (proj1 (alloc_bind_Some _ _ _ _ _)) in Hrun. cbv beta in Hrun.
    apply (proj1 (alloc_bind_Some _ _ _ _ _)) in Hrun. cbv beta in Hrun.
    apply ret_Some in Hrun as [= -> ->].
    split; [apply extends_fresh |].
    intros q Hq. apply snapshotPiece_inv in Hq as (_ & p0 & s0 & Hp0 & Hs0 & ->).
    rewrite Hp in Hp0. injection Hp0 as <-. rewrite Hs in Hs0. injection Hs0 as <-.
    eexists _, _. split; [reflexivity |]. split.
    + apply snapshotPiece_run.
      * simpl. rewrite lookup_app_r by reflexivity.
        rewrite Nat.sub_diag. reflexivity.
      * simpl. rewrite lookup_app_r by reflexivity.
        rewrite Nat.sub_diag. reflexivity.
    + simpl. rewrite Hown. reflexivity.
  - apply ret_Some in Hrun as [= -> ->].
    split; [apply extends_refl |].
    intros q Hq. exists l, q. split; [reflexivity |]. split; [exact Hq |].
    apply snapshotPiece_inv in Hq as (_ & p0 & s0 & Hp0 & Hs0 & ->).
    rewrite Hp in Hp0. injection Hp0 as <-. simpl. rewrite Hown. reflexivity.
Qed.

(** The countdown of temporary hit points of one cell. *)
Lemma tickTempHp_cell c h c' h1 :
  tickTempHp c h = Some (c', h1) ->
  extends h h1 /\
  Rel (fun q q' =>
         q' = setStats q
                (match tempHpTurns (stats q) with
                 | Some turns =>
                     if negb (turns =? 0) && (0 <? turns)
                     then (if turns - 1 <=? 0 then setTempHp (stats q) None None
                           else setTempHp (stats q) (tempHp (stats q))
                                  (Some (turns - 1)))
                     else stats q
                 | None => stats q
                 end)) h c h1 c'.
Proof.
  unfold tickTempHp. intros Hrun. destruct c as [l|].
  2:{ apply ret_Some in Hrun as [= -> ->]. split; [apply extends_refl | reflexivity]. }
  apply (proj1 (load_bind_Some _ _ _ _ _)) in Hrun as (p & Hp & Hrun).
  cbv beta in Hrun. change (piecesH h !! l = Some p) in Hp.
  apply (proj1 (load_bind_Some _ _ _ _ _)) in Hrun as (s & Hs & Hrun).
  cbv beta in Hrun. change (statsH h !! stats p = Some s) in Hs.
  assert (Hsame : forall q, snapshotPiece l h = Some (q, h) -> q = setStats p s).
  { intros q Hq. apply snapshotPiece_inv in Hq as (_ & p0 & s0 & Hp0 & Hs0 & ->).
    rewrite Hp in Hp0. injection Hp0 as <-. rewrite Hs in Hs0. injection Hs0 as <-.
    reflexivity. }
  assert (Hidle : ret (Some l) h = Some (c', h1) ->
                  tempHpTurns s = None \/
                  (exists turns, tempHpTurns s = Some turns /\
                                 negb (turns =? 0) && (0 <? turns) = false) ->
                  extends h h1 /\
                  Rel (fun q q' =>
                         q' = setStats q
                                (match tempHpTurns (stats q) with
                                 | Some turns =>
                                     if negb (turns =? 0) && (0 <? turns)
                                     then (if turns - 1 <=? 0
                                           then setTempHp (stats q) None None
                                           else setTempHp (stats q) (tempHp (stats q))
                                                  (Some (turns - 1)))
                                     else stats q
                                 | None => stats q
                                 end)) h (Some l) h1 c').
  { intros Hret Hcase. apply ret_Some in Hret as [= -> ->].
    split; [apply extends_refl |].
    intros q Hq. exists l, q. split; [reflexivity |]. split; [exact Hq |].
    rewrite (Hsame q Hq). simpl.
    destruct Hcase as [-> | (turns & -> & ->)]; reflexivity. }
  destruct (tempHpTurns s) as [turns|] eqn:Hturns; [| apply Hidle; auto].
  destruct (negb (turns =? 0) && (0 <? turns)) eqn:Hpos;
    [| apply Hidle; [exact Hrun | right; exists turns; auto]].
  cbv zeta in Hrun.
  apply (proj1 (alloc_bind_Some _ _ _ _ _)) in Hrun. cbv beta in Hrun.
  apply (proj1 (alloc_bind_Some _ _ _ _ _)) in Hrun. cbv beta in Hrun.
  apply ret_Some in Hrun as [= -> ->].
  split; [apply extends_fresh |].
  intros q Hq. rewrite (Hsame q Hq).
  eexists _, _. split; [reflexivity |]. split.
  - apply snapshotPiece_run.
    + simpl. rewrite lookup_app_r by reflexivity. rewrite Nat.sub_diag. reflexivity.
    + simpl. rewrite lookup_app_r by reflexivity. rewrite Nat.sub_diag. reflexivity.
  - simpl. rewrite Hturns, Hpos. reflexivity.
Qed.

(** The cells of the grid after [endTurn]. *)
Lemma endTurn_cells state h state' h' :
  endTurn state h = Some (state', h') ->
  forall pos c,
    readCell (board state) pos h = Some (c, h) ->
    exists c',
      readCell (board state') pos h' = Some (c', h') /\
      Rel (fun q q' =>
             exists s', q' = setStats q s' /\
               s' = (fun s1 =>
                       match tempHpTurns s1 with
                       | Some turns =>
                           if negb (turns =? 0) && (0 <? turns)
                           then (if turns - 1 <=? 0 then setTempHp s1 None None
                                 else setTempHp s1 (tempHp s1) (Some (turns - 1)))
                           else s1
                       | None => s1
                       end)
                      (if bool_decide (team q = ChessAI.opposite (currentTurn state))
                          && isAlive q
                       then setCurrentMana (stats q)
                              (Z.min (maxMana (stats q)) (currentMana (stats q) + 10))
                       else stats q)) h c h' c'.
Proof.
  intros Hrun. unfold endTurn in Hrun. cbv zeta in Hrun.
  apply bind_Some in Hrun as (newBoard & h1 & Hregen & Hrun).
  apply bind_Some in Hrun as (updatedBoard & h2 & Htick & Hrun).
  apply ret_Some in Hrun as [= -> ->]. simpl.
  apply (mapBoard_cells _ _ (regenerate_cell _)) in Hregen as [_ Hregen].
  apply (mapBoard_cells _ _ tickTempHp_cell) in Htick as [_ Htick].
  intros pos c Hcell.
  destruct (Hregen pos c Hcell) as (c1 & Hc1 & Hrel1).
  destruct (Htick pos c1 Hc1) as (c2 & Hc2 & Hrel2).
  exists c2. split; [exact Hc2 |].
  destruct c as [l|]; [| subst c1; exact Hrel2].
  intros q Hq. destruct (Hrel1 q Hq) as (l1 & q1 & -> & Hq1 & ->).
  destruct (Hrel2 _ Hq1) as (l2 & q2 & -> & Hq2 & ->).
  exists l2. eexists. split; [reflexivity |]. split; [exact Hq2 |].
  eexists. split; reflexivity.
Qed.

(** X26.  The grid after [endTurn].  An empty cell stays empty.  A piece
    is on its square as before, with every field but its stats as it
    was; in the stats only the mana and the temporary hit points can
    differ.  A living piece of the team whose turn begins has 10 mana
    more, and at most its maximum; every other piece has the mana it
    had.  A positive count of turns of temporary hit points goes down by
    one and is dropped when it reaches 0. *)
Theorem endTurn_regenerates_mana (state state' : GameStore) (h h' : Heap) :
  endTurn state h = Some (state', h') ->
  (forall pos, readCell (board state) pos h = Some (None, h) ->
               readCell (board state') pos h' = Some (None, h')) /\
  (forall pos l q,
      readCell (board state) pos h = Some (Some l, h) ->
      snapshotPiece l h = Some (q, h) ->
      exists l' q',
        readCell (board state') pos h' = Some (Some l', h') /\
        snapshotPiece l' h' = Some (q', h') /\
        setStats q' tt = setStats q tt /\
        setTempHp (setCurrentMana (stats q') 0) None None =
        setTempHp (setCurrentMana (stats q) 0) None None /\
        currentMana (stats q') =
        (if bool_decide (team q = ChessAI.opposite (currentTurn state)) && isAlive q
         then Z.min (maxMana (stats q)) (currentMana (stats q) + 10)
         else currentMana (stats q)) /\
        tempHpTurns (stats q') =
        match tempHpTurns (stats q) with
        | Some turns => if 0 <? turns
                        then (if turns <=? 1 then None else Some (turns - 1))
                        else Some turns
        | None => None
        end).
Proof.
  intros Hrun. pose proof (endTurn_cells _ _ _ _ Hrun) as Hcells. split.
  - intros pos Hcell. destruct (Hcells pos None Hcell) as (c' & Hc' & ->). exact Hc'.
  - intros pos l q Hcell Hq.
    destruct (Hcells pos (Some l) Hcell) as (c' & Hc' & Hrel).
    destruct (Hrel q Hq) as (l' & q' & -> & Hq' & s' & -> & ->).
    exists l'. eexists. split; [exact Hc' |]. split; [exact Hq' |].
    clear. destruct q as [qid qtype qteam qpos qstats qmoved qalive qlevel qabs qeffs].
    destruct qstats as [mh ch mm cm ap df sp mp cc cd th turns]. simpl.
    split; [reflexivity |].
    destruct (bool_decide (qteam = ChessAI.opposite (currentTurn state)) && qalive);
      simpl;
      (destruct turns as [turns|];
       [destruct (Z.eqb_spec turns 0), (Z.ltb_spec 0 turns),
                 (Z.leb_spec (turns - 1) 0), (Z.leb_spec turns 1);
        simpl; try lia |]);
      repeat split.
Qed.

End CellWise.

(** * The piece that has moved *)

Section MovedPiece.

Import ChessRules GameStore.

(** The rows of the copy of a grid are new objects, one after the other. *)
Lemma copyBoard_fresh board h nb h1 :
  copyBoard board h = Some (nb, h1) ->
  nb = (fun i => (length (rowsH h) + i)%nat) <$> seq 0 (length board).
Proof.
  unfold copyBoard. revert h nb h1.
  induction board as [|r0 grid IH]; intros h nb h1 Hrun; simpl in Hrun.
  - apply ret_Some in Hrun as [= -> ->]. reflexivity.
  - apply bind_Some in Hrun as (n & h2 & Hfirst & Hrun).
    apply bind_Some in Hrun as (ns & h3 & Hrest & Hrun).
    apply ret_Some in Hrun as [= -> ->].
    apply load_bind_Some in Hfirst as (row & Hrow & Hfirst).
    apply alloc_Some in Hfirst as [= -> ->].
    apply IH in Hrest as ->. simpl. rewrite length_app. simpl.
    f_equal; [f_equal; lia |].
    rewrite <- seq_shift, <- list_fmap_compose.
    apply list_fmap_ext. intros _ i _. simpl. lia.
Qed.

Lemma copyBoard_NoDup board h nb h1 :
  copyBoard board h = Some (nb, h1) -> NoDup nb.
Proof.
  intros Hrun. apply copyBoard_fresh in Hrun as ->.
  apply NoDup_fmap_2; [intros i j Hij; lia | apply NoDup_seq].
Qed.

Lemma still_store_alive pl p l (t : PieceOf loc) h :
  (exists h1, stillPiece pl p h1 /\ view piecesL h1 !! l = Some t) ->
  stillPiece pl p h ->
  stillPiece pl p (over piecesL (fun s => <[l := setIsAlive t false]> s) h).
Proof.
  intros (h1 & (p1' & _ & Hp1' & Heq' & _) & Ht) (p1 & s1 & Hp1 & Heq & Hs1).
  destruct (decide (l = pl)) as [-> | Hne].
  - exists (setIsAlive t false), s1. simpl.
    split; [apply list_lookup_insert_eq; eapply lookup_lt_Some; exact Hp1 |].
    split; [| exact Hs1].
    change (view piecesL h1 !! pl = Some t) with (piecesH h1 !! pl = Some t) in Ht.
    rewrite Hp1' in Ht. injection Ht as <-. exact Heq'.
  - exists p1, s1. simpl. rewrite list_lookup_insert_ne by assumption. auto.
Qed.

Lemma still_store_stats pl p l (v : PieceStats) h :
  stillPiece pl p h -> stillPiece pl p (over statsL (fun s => <[l := v]> s) h).
Proof.
  intros (p1 & s1 & Hp1 & Heq & Hs1).
  destruct (decide (l = stats p)) as [-> | Hne].
  - exists p1, v. simpl. split; [exact Hp1 |]. split; [exact Heq |].
    apply list_lookup_insert_eq. eapply lookup_lt_Some. exact Hs1.
  - exists p1, s1. simpl. rewrite list_lookup_insert_ne by assumption. auto.
Qed.

Lemma still_alloc_piece pl p (v : PieceOf loc) h :
  stillPiece pl p h -> stillPiece pl p (over piecesL (fun s => s ++ [v]) h).
Proof.
  intros (p1 & s1 & Hp1 & Heq & Hs1). exists p1, s1. simpl.
  split; [apply lookup_app_l_Some; exact Hp1 | auto].
Qed.

Lemma still_rows pl p f h :
  stillPiece pl p h -> stillPiece pl p (over rowsL f h).
Proof. intros Hk. exact Hk. Qed.

Ltac still_side :=
  let h := fresh "h" in
  let Hk := fresh "Hk" in
  intros h Hk;
  first [ apply still_rows; exact Hk
        | apply still_alloc_piece; exact Hk
        | apply still_store_stats; exact Hk
        | eapply still_store_alive; [eassumption | exact Hk] ].

Lemma executeCastling_still pl p king to board :
  preserves (stillPiece pl p) (executeCastling king to board).
Proof.
  unfold executeCastling, readCell, writeCell, rowOf. cbv zeta.
  repeat keeps_step still_side.
Qed.

Lemma capture_still pl p attacker targetPiece to newBoard :
  preserves (stillPiece pl p) (capture attacker targetPiece to newBoard).
Proof.
  unfold capture, readCell, writeCell, rowOf. cbv zeta.
  repeat keeps_step still_side.
Qed.

(** X27.  An accepted move to another square, a capture or not: on the
    grid of the store afterwards the square left is empty, and the square
    moved to holds a piece with the [id], the type and the team of the
    piece that moved, whose position is that square and which is marked
    as moved. *)
Theorem movePiece_moves_the_piece
    (from to : Position) (now : Z) (state state' : GameStore) (h h' : Heap)
    (pl : loc) (p : PieceOf loc) (s : PieceStats) (b : BoardOf loc) :
  readCell (board state) from h = Some (Some pl, h) ->
  piecesH h !! pl = Some p ->
  statsH h !! stats p = Some s ->
  derefBoard (board state) h = Some (b, h) ->
  isMoveValid p to b = true ->
  from <> to ->
  movePiece from to now state h = Some (state', h') ->
  readCell (board state') from h' = Some (None, h') /\
  exists l' q',
    readCell (board state') to h' = Some (Some l', h') /\
    snapshotPiece l' h' = Some (q', h') /\
    id q' = id p /\ type q' = type p /\ team q' = team p /\
    position q' = to /\ hasMoved q' = true.
Proof.
  intros Hcell Hp Hs Hb Hvalid Hne Hrun. unfold movePiece in Hrun.
  rewrite (bind_run _ _ _ _ _ Hcell) in Hrun.
  rewrite (bind_run _ _ _ _ _ (load_run piecesL pl h p Hp)) in Hrun.
  rewrite (bind_run _ _ _ _ _ Hb), Hvalid in Hrun. simpl negb in Hrun. cbv iota in Hrun.
  apply bind_Some in Hrun as (nb & h1 & Hcopy & Hrun).
  pose proof (copyBoard_NoDup _ _ _ _ Hcopy) as Hnd.
  assert (K1 : stillPiece pl p h1).
  { apply copyBoard_frame in Hcopy as (Hpieces & Hstats & _).
    exists p, s. rewrite Hpieces, Hstats. auto. }
  clear Hcopy Hcell Hb Hvalid.
  apply bind_Some in Hrun as (targetPiece & h2 & Htarget & Hrun).
  apply readCell_inv in Htarget as [-> _].
  apply bind_Some in Hrun as (u & h3 & Hcastle & Hrun).
  assert (K3 : stillPiece pl p h3).
  { destruct (isCastlingMove p to).
    - exact (executeCastling_still pl p _ _ _ _ _ _ K1 Hcastle).
    - apply ret_Some in Hcastle as [= _ ->]. exact K1. }
  clear Hcastle K1.
  apply load_bind_Some in Hrun as (p0 & _ & Hrun).
  apply alloc_bind_Some in Hrun.
  apply still_alloc_piece with (v := p0) in K3.
  apply bind_Some in Hrun as (capturedCopy & h5 & Hcc & Hrun).
  assert (K5 : stillPiece pl p h5).
  { destruct targetPiece as [tl|].
    - apply load_bind_Some in Hcc as (t & _ & Hcc).
      apply alloc_bind_Some in Hcc. apply ret_Some in Hcc as [= _ ->].
      exact (still_alloc_piece pl p t _ K3).
    - apply ret_Some in Hcc as [= _ ->]. exact K3. }
  clear Hcc K3.
  apply bind_Some in Hrun as (dmg & h6 & Hcap & Hrun).
  pose proof (capture_still pl p _ _ _ _ _ _ _ K5 Hcap) as K6.
  clear Hcap K5. cbv zeta in Hrun.
  apply load_bind_Some in Hrun as (p1 & Hp1 & Hrun).
  apply store_bind_Some in Hrun as (_ & Hrun).
  destruct K6 as (p1' & s1 & Hp1' & Heq & Hs1).
  change (piecesH h6 !! pl = Some p1) in Hp1.
  rewrite Hp1' in Hp1. injection Hp1 as ->.
  apply bind_Some in Hrun as ([] & h8 & Hw1 & Hrun).
  apply bind_Some in Hrun as ([] & h9 & Hw2 & Hrun).
  apply bind_Some in Hrun as (b' & h10 & Hderef & Hrun).
  apply derefBoard_inv in Hderef as [-> _].
  pose proof (writeCell_readCell _ _ _ _ _ Hw1) as Hto.
  pose proof (writeCell_other _ _ _ _ _ _ _ _ Hnd Hne Hw2 Hto) as Hto9.
  pose proof (writeCell_readCell _ _ _ _ _ Hw2) as Hfrom9.
  assert (Hq : snapshotPiece pl h9 = Some (setStats (movedTo p1 to) s1, h9)).
  { apply writeCell_inv in Hw1 as (r1 & row1 & _ & _ & _ & _ & ->).
    apply writeCell_inv in Hw2 as (r2 & row2 & _ & _ & _ & _ & ->).
    apply snapshotPiece_run; simpl.
    - apply list_lookup_insert_eq. eapply lookup_lt_Some. exact Hp1'.
    - apply (f_equal stats) in Heq. simpl in Heq. rewrite Heq. exact Hs1. }
  pose proof (endTurn_cells _ _ _ _ Hrun) as Hcells. simpl in Hcells.
  split.
  - destruct (Hcells from None Hfrom9) as (c' & Hc' & ->). exact Hc'.
  - destruct (Hcells to (Some pl) Hto9) as (c' & Hc' & Hrel).
    destruct (Hrel _ Hq) as (l' & q' & -> & Hq' & s' & -> & _).
    exists l'. eexists. split; [exact Hc' |]. split; [exact Hq' |]. simpl.
    split; [exact (f_equal id Heq) |]. split; [exact (f_equal type Heq) |].
    split; [exact (f_equal team Heq) |]. split; reflexivity.
Qed.

End MovedPiece.

(** * Healing, and the caster of an ability *)

Section Healing.

Import AbilitySystem.

(** X28.  The heal of an ability on one piece.  A piece of the caster's
    team gets the value of the effect added to its hit points, up to its
    maximum, and the heal is reported when the hit points have gone up;
    a piece of the other team is left as it is.  Nothing else changes. *)
Theorem ability_heal_on_one_piece
    (caster : loc) (effect : AbilityEffect) (targetPos : Position) (board : Grid)
    (out out' : Out) (h h' : Heap) (tl : loc) (t c : PieceOf loc) (ts : PieceStats) :
  areaOfEffect effect = None ->
  readCell board targetPos h = Some (Some tl, h) ->
  piecesH h !! tl = Some t -> piecesH h !! caster = Some c ->
  statsH h !! stats t = Some ts ->
  executeHealEffect caster effect targetPos board out h = Some (out', h') ->
  let hp := Z.min (maxHp ts) (currentHp ts + default 0 (amount effect)) in
  rowsH h' = rowsH h /\ piecesH h' = piecesH h /\
  abilitiesH h' = abilitiesH h /\ effectArraysH h' = effectArraysH h /\
  effectsH h' = effectsH h /\
  (team t <> team c -> statsH h' = statsH h /\ out' = out) /\
  (team t = team c ->
     statsH h' = <[stats t := setCurrentHp ts hp]> (statsH h) /\
     out' = if 0 <? hp - currentHp ts
            then affect (say out (RecoveredHp (type t) (hp - currentHp ts))) tl
            else out).
Proof.
  intros Haoe Hcell Ht Hc Hts Hrun hp.
  unfold executeHealEffect, targetsOf in Hrun. rewrite Haoe in Hrun.
  apply bind_Some in Hrun as (targets & h0 & Htargets & Hrun).
  rewrite (bind_run _ _ _ _ _ Hcell) in Htargets. injection Htargets as <- <-.
  cbn [option_list foldM] in Hrun.
  apply bind_Some in Hrun as (out1 & h1 & Hstep & Hrun).
  apply ret_Some in Hrun as [= <- <-].
  rewrite (bind_run _ _ _ _ _ (load_run piecesL tl h t Ht)) in Hstep.
  rewrite (bind_run _ _ _ _ _ (load_run piecesL caster h c Hc)) in Hstep.
  destruct (decide (team t = team c)) as [Hteam | Hteam].
  - rewrite bool_decide_eq_false_2 in Hstep by (intros Hne; exact (Hne Hteam)).
    rewrite (bind_run _ _ _ _ _ (load_run statsL (stats t) h ts Hts)) in Hstep.
    cbv zeta in Hstep. fold hp in Hstep.
    apply (proj1 (store_bind_Some _ _ _ _ _ _)) in Hstep as (_ & Hstep).
    cbv beta in Hstep.
    run_load Hstep (setCurrentHp ts hp)
      ltac:(apply list_lookup_insert_eq; eapply lookup_lt_Some; exact Hts).
    cbn [currentHp setCurrentHp] in Hstep.
    destruct (0 <? hp - currentHp ts);
      apply ret_Some in Hstep as [= -> ->];
      (repeat (split; [reflexivity |])); (split; [intros Hne; contradiction |]);
      intros _; split; reflexivity.
  - rewrite bool_decide_eq_true_2 in Hstep by assumption.
    apply ret_Some in Hstep as [= -> ->].
    repeat (split; [reflexivity |]).
    split; [intros _; split; reflexivity | intros Heq; contradiction].
Qed.

End Healing.

Section Casters.

Import ChessRules GameStore.

Lemma sorted_split (l l1 l2 : list Z) (y : Z) :
  StronglySorted Z.lt l -> l = l1 ++ y :: l2 ->
  (forall y', In y' l1 -> y' < y) /\ (forall y', In y' l2 -> y < y').
Proof.
  intros Hsorted ->. induction l1 as [|a l1 IH]; simpl in *.
  - apply StronglySorted_inv in Hsorted as [_ Hall].
    split; [intros y' [] |]. intros y' Hin.
    rewrite List.Forall_forall in Hall. apply Hall. exact Hin.
  - apply StronglySorted_inv in Hsorted as [Hsorted Hall].
    destruct (IH Hsorted) as [Hbefore Hafter]. split; [| exact Hafter].
    intros y' [<- | Hin]; [| apply Hbefore; exact Hin].
    rewrite List.Forall_forall in Hall. apply Hall.
    apply in_or_app. right. left. reflexivity.
Qed.

Lemma indices_sorted : StronglySorted Z.lt indices.
Proof. unfold indices. repeat (constructor; [| repeat constructor; lia]). constructor. Qed.

(** The search along the row [y]: the first piece with the id, or what
    was found before. *)
Lemma findCaster_row pieceId board y (xs : list Z) (acc : loc + option loc) h r h' :
  foldM (fun found x =>
           match found with
           | inl l => ret (inl l)
           | inr prev =>
               c <- readCell board (mkPos x y) ;;
               match c with
               | Some l =>
                   p <- load piecesL l ;;
                   ret (if bool_decide (id p = pieceId) then inl l else inr prev)
               | None => ret (inr prev)
               end
           end) xs acc h = Some (r, h') ->
  h' = h /\
  match acc with
  | inl l => r = inl l
  | inr prev =>
      match r with
      | inl l =>
          exists xs1 x xs2,
            xs = xs1 ++ x :: xs2 /\ holdsId board h pieceId (mkPos x y) l /\
            forall x' l', In x' xs1 -> ~ holdsId board h pieceId (mkPos x' y) l'
      | inr prev' =>
          prev' = prev /\
          forall x' l', In x' xs -> ~ holdsId board h pieceId (mkPos x' y) l'
      end
  end.
Proof.
  revert acc h. induction xs as [|x xs IH]; intros acc h Hrun; simpl in Hrun.
  - apply ret_Some in Hrun as [= -> ->]. split; [reflexivity |].
    destruct acc as [l | prev]; [reflexivity |]. split; [reflexivity |].
    intros x' l' [].
  - apply bind_Some in Hrun as (acc' & h1 & Hstep & Hrun).
    destruct acc as [l | prev].
    + apply ret_Some in Hstep as [= -> ->]. exact (IH _ _ Hrun).
    + apply bind_Some in Hstep as (c & h2 & Hcell & Hstep).
      pose proof (readCell_inv _ _ _ _ _ Hcell) as [-> _].
      assert (Hacc : h1 = h /\
                ((exists l, c = Some l /\ acc' = inl l /\
                            holdsId board h pieceId (mkPos x y) l) \/
                 (acc' = inr prev /\
                  forall l', ~ holdsId board h pieceId (mkPos x y) l'))).
      { destruct c as [l|].
        - apply load_bind_Some in Hstep as (p & Hp & Hstep).
          apply ret_Some in Hstep as [= -> ->]. split; [reflexivity |].
          destruct (decide (id p = pieceId)) as [Hid | Hid].
          + left. exists l. rewrite bool_decide_eq_true_2 by assumption.
            split; [reflexivity |]. split; [reflexivity |].
            split; [exact Hcell | exists p; split; assumption].
          + right. rewrite bool_decide_eq_false_2 by assumption.
            split; [reflexivity |]. intros l' [Hcell' (p' & Hp' & Hid')].
            rewrite Hcell in Hcell'. injection Hcell' as <-.
            change (piecesH h !! l = Some p) in Hp. congruence.
        - apply ret_Some in Hstep as [= -> ->]. split; [reflexivity |]. right.
          split; [reflexivity |]. intros l' [Hcell' _]. congruence. }
      destruct Hacc as [-> [(l & -> & -> & Hholds) | [-> Hnone]]].
      * apply IH in Hrun as [-> ->]. split; [reflexivity |].
        exists [], x, xs. split; [reflexivity |]. split; [exact Hholds |].
        intros x' l' [].
      * apply IH in Hrun as [-> Hrest]. split; [reflexivity |].
        destruct r as [l | prev'].
        -- destruct Hrest as (xs1 & x0 & xs2 & -> & Hholds & Hbefore).
           exists (x :: xs1), x0, xs2. split; [reflexivity |].
           split; [exact Hholds |].
           intros x' l' [<- | Hin]; [apply Hnone | apply Hbefore; exact Hin].
        -- destruct Hrest as [-> Hrest]. split; [reflexivity |].
           intros x' l' [<- | Hin]; [apply Hnone | apply Hrest; exact Hin].
Qed.

(** The search over the rows [ys]: the piece of the last row that has
    one, or what was found before. *)
Lemma findCaster_rows pieceId board (ys : list Z) (caster0 : option loc) h r h' :
  foldM (fun caster y =>
           r <- foldM (fun found x =>
                         match found with
                         | inl l => ret (inl l)
                         | inr prev =>
                             c <- readCell board (mkPos x y) ;;
                             match c with
                             | Some l =>
                                 p <- load piecesL l ;;
                                 ret (if bool_decide (id p = pieceId)
                                      then inl l else inr prev)
                             | None => ret (inr prev)
                             end
                         end) indices (inr caster) ;;
           ret (match r with inl l => Some l | inr prev => prev end))
    ys caster0 h = Some (r, h') ->
  h' = h /\
  ((r = caster0 /\
    forall y x l, In y ys -> In x indices -> ~ holdsId board h pieceId (mkPos x y) l) \/
   (exists ys1 y ys2 xs1 x xs2 l,
      r = Some l /\ ys = ys1 ++ y :: ys2 /\ indices = xs1 ++ x :: xs2 /\
      holdsId board h pieceId (mkPos x y) l /\
      (forall x' l', In x' xs1 -> ~ holdsId board h pieceId (mkPos x' y) l') /\
      (forall y' x' l', In y' ys2 -> In x' indices ->
                        ~ holdsId board h pieceId (mkPos x' y') l'))).
Proof.
  revert caster0 h. induction ys as [|y ys IH]; intros caster0 h Hrun;
    cbn [foldM] in Hrun.
  - apply ret_Some in Hrun as [= -> ->]. split; [reflexivity |]. left.
    split; [reflexivity |]. intros y x l [].
  - apply bind_Some in Hrun as (c1 & h1 & Hstep & Hrun).
    apply bind_Some in Hstep as (found & h2 & Hrow & Hstep).
    apply ret_Some in Hstep as [= -> ->].
    apply findCaster_row in Hrow as [-> Hrow].
    apply IH in Hrun as [-> Hrest]. split; [reflexivity |].
    destruct Hrest as [[-> Hnone] | Hlater].
    + destruct found as [l | prev'].
      * destruct Hrow as (xs1 & x & xs2 & Hsplit & Hholds & Hbefore). right.
        exists [], y, ys, xs1, x, xs2, l. repeat (split; [trivial |]). exact Hnone.
      * destruct Hrow as [-> Hrow]. left. split; [reflexivity |].
        intros y' x l [<- | Hin] Hx; [apply Hrow; exact Hx | apply Hnone; assumption].
    + destruct Hlater as (ys1 & y0 & ys2 & xs1 & x & xs2 & l & -> & -> & Hrest).
      right. exists (y :: ys1), y0, ys2, xs1, x, xs2, l.
      split; [reflexivity |]. split; [reflexivity |]. exact Hrest.
Qed.

(** X29.  The piece that [useAbility] takes as the caster.  [findCaster]
    changes nothing.  When no piece on the board has the [id] it finds
    none; otherwise it returns a piece of the board with that [id]: the
    one in the last row that holds such a piece, and in that row the one
    in the first file. *)
Theorem findCaster_spec (pieceId : string) (board : Grid) (h h' : Heap)
    (r : option loc) :
  findCaster pieceId board h = Some (r, h') ->
  h' = h /\
  match r with
  | Some l =>
      exists pos,
        isValidPosition pos = true /\ holdsId board h pieceId pos l /\
        forall pos' l',
          isValidPosition pos' = true -> holdsId board h pieceId pos' l' ->
          py pos' < py pos \/ (py pos' = py pos /\ px pos <= px pos')
  | None =>
      forall pos l, isValidPosition pos = true -> ~ holdsId board h pieceId pos l
  end.
Proof.
  intros Hrun. unfold findCaster in Hrun.
  apply findCaster_rows in Hrun as [-> Hrun]. split; [reflexivity |].
  destruct Hrun as [[-> Hnone] | Hfound].
  - intros [x y] l Hvalid. apply isValidPosition_spec in Hvalid. simpl in Hvalid.
    apply Hnone; apply indices_spec; lia.
  - destruct Hfound as (ys1 & y & ys2 & xs1 & x & xs2 & l & -> & Hys & Hxs &
                        Hholds & Hbefore & Hlater).
    destruct (sorted_split _ _ _ _ indices_sorted Hys) as [Hys1 Hys2].
    destruct (sorted_split _ _ _ _ indices_sorted Hxs) as [Hxs1 Hxs2].
    exists (mkPos x y). split.
    { apply isValidPosition_spec. simpl.
      assert (In x indices) by (rewrite Hxs; apply in_or_app; right; left; reflexivity).
      assert (In y indices) by (rewrite Hys; apply in_or_app; right; left; reflexivity).
      split; apply indices_spec; assumption. }
    split; [exact Hholds |].
    intros [x' y'] l' Hvalid Hholds'. apply isValidPosition_spec in Hvalid.
    simpl in *.
    assert (Hx' : In x' indices) by (apply indices_spec; lia).
    assert (Hy' : In y' indices) by (apply indices_spec; lia).
    pose proof Hy' as Hy''. rewrite Hys in Hy''.
    apply in_app_or in Hy'' as [Hin | [<- | Hin]].
    + left. apply Hys1. exact Hin.
    + right. split; [reflexivity |].
      pose proof Hx' as Hx''. rewrite Hxs in Hx''.
      apply in_app_or in Hx'' as [Hin | [<- | Hin]].
      * exfalso. exact (Hbefore x' l' Hin Hholds').
      * lia.
      * apply Hxs2 in Hin. lia.
    + exfalso. exact (Hlater y' x' l' Hin Hx' Hholds').
Qed.

(** X30.  [useAbility] with the [id] of no piece of the team to play:
    when no piece on the board has the [id], or those that have it are
    of the other team, the store and the heap stay as they are. *)
Theorem useAbility_rejected_changes_nothing
    (pieceId abilityId' : string) (target : option Position)
    (state state' : GameStore) (h h' : Heap) :
  (forall pos l p,
      isValidPosition pos = true ->
      readCell (board state) pos h = Some (Some l, h) ->
      piecesH h !! l = Some p -> id p = pieceId -> team p <> currentTurn state) ->
  useAbility pieceId abilityId' target state h = Some (state', h') ->
  state' = state /\ h' = h.
Proof.
  intros Hother Hrun. unfold useAbility in Hrun.
  apply bind_Some in Hrun as (caster & h1 & Hfind & Hrun).
  unfold findCaster in Hfind.
  apply findCaster_rows in Hfind as [-> Hfind].
  destruct Hfind as [[-> _] | Hfound].
  - apply ret_Some in Hrun as [= -> ->]. split; reflexivity.
  - destruct Hfound as (ys1 & y & ys2 & xs1 & x & xs2 & l & -> & Hys & Hxs &
                        [Hcell (p & Hp & Hid)] & _).
    rewrite (bind_run _ _ _ _ _ (load_run piecesL l h p Hp)) in Hrun.
    rewrite bool_decide_eq_true_2 in Hrun.
    + apply ret_Some in Hrun as [= -> ->]. split; reflexivity.
    + apply (Hother (mkPos x y) l p); try assumption.
      apply isValidPosition_spec. simpl.
      assert (In x indices) by (rewrite Hxs; apply in_or_app; right; left; reflexivity).
      assert (In y indices) by (rewrite Hys; apply in_or_app; right; left; reflexivity).
      split; apply indices_spec; assumption.
Qed.

End Casters.

(** * The rules and the search on given grids *)

Ltac among := repeat first [left; reflexivity | right].

Section MoveInstances.

Import ChessRules ChessAI.

(** In [skirmish] the white queen may take the black rook on d7. *)
Lemma legal_moves_never_take_own_piece_witness :
  let queen := pieceAt QUEEN WHITE 3 4 120 in
  isValidPosition (mkPos 3 1) = true /\ mkPos 3 1 <> position queen /\
  forall q, cell skirmish (mkPos 3 1) = Some q -> team q <> team queen.
Proof.
  intros queen.
  apply (legal_moves_never_take_own_piece queen skirmish (mkPos 3 1)).
  - vm_compute. reflexivity.
  - vm_compute. reflexivity.
  - vm_compute. among.
Defined.

(** In [skirmish] the rook moves of the white queen reach d7, three
    squares up the open file. *)
Lemma sliding_moves_spec_witness :
  let queen := pieceAt QUEEN WHITE 3 4 120 in
  In (mkPos 3 1) (getRookMoves queen skirmish).
Proof.
  intros queen.
  apply (proj2 (proj1 (sliding_moves_spec queen skirmish (mkPos 3 1) eq_refl eq_refl))).
  exists 0, (-1). split; [lia |]. split; [lia |]. split; [reflexivity |].
  exists 3. split; [lia |]. split; [reflexivity |]. split; [reflexivity |].
  split; [vm_compute; reflexivity |].
  intros j Hj. assert (j = 1 \/ j = 2) as [-> | ->] by lia; vm_compute; reflexivity.
Defined.

(** In [skirmish] the white knight on g1 may jump on the black pawn on
    f3. *)
Lemma knight_moves_spec_witness :
  let knight := pieceAt KNIGHT WHITE 6 7 75 in
  In (mkPos 5 5) (getKnightMoves knight skirmish).
Proof.
  intros knight.
  apply (proj2 (knight_moves_spec knight skirmish (mkPos 5 5) eq_refl)).
  split; [reflexivity |]. split; [vm_compute; reflexivity |].
  right. split; reflexivity.
Defined.

(** In [skirmish] the white pawn on e2 may take the black pawn on f3. *)
Lemma pawn_moves_spec_witness :
  let pawn := pieceAt PAWN WHITE 4 6 50 in
  In (mkPos 5 5) (getPawnMoves pawn skirmish).
Proof.
  intros pawn.
  apply (proj2 (pawn_moves_spec pawn skirmish (mkPos 5 5) eq_refl)).
  split; [reflexivity |]. right. right.
  split; [right; reflexivity | vm_compute; reflexivity].
Defined.

(** On a grid with the white king and a white rook alone, Black is
    neither in check nor checkmated. *)
Lemma no_king_no_check_witness :
  let b := boardOf [pieceAt KING WHITE 4 7 150; pieceAt ROOK WHITE 7 7 100] in
  isKingInCheck BLACK b = false /\ isCheckmate BLACK b = false.
Proof.
  intros b. apply (no_king_no_check BLACK b eq_refl).
  intros pos Hpos. apply squares_spec in Hpos.
  apply negb_true_iff. revert pos Hpos.
  apply (proj1 (forallb_forall (fun pos => negb (isKingOf BLACK b pos)) squares)).
  vm_compute. reflexivity.
Defined.

(** In [skirmish] the square d7 is on a straight line from the white
    queen. *)
Lemma sliding_moves_on_lines_witness :
  let queen := pieceAt QUEEN WHITE 3 4 120 in
  isOnStraightLine (position queen) (mkPos 3 1) = true.
Proof.
  intros queen.
  apply (proj1 (sliding_moves_on_lines queen skirmish (mkPos 3 1) eq_refl)).
  vm_compute. among.
Defined.

(** The white queen takes the black rook in [skirmish]. *)
Lemma makeMove_keeps_grid_witness :
  let move := mkAIMove (mkPos 3 4) (mkPos 3 1) 0 (pieceAt QUEEN WHITE 3 4 120) in
  wellFormed (makeMove skirmish move) = true /\
  consistent (makeMove skirmish move) = true.
Proof.
  intros move.
  apply (makeMove_keeps_grid skirmish move); vm_compute; reflexivity.
Defined.

(** White castles on the king's side in [castlingReady]. *)
Lemma castling_moves_king_and_rook_witness :
  let king := pieceAt KING WHITE 4 7 150 in
  let b' := makeMove castlingReady (mkAIMove (mkPos 4 7) (mkPos 6 7) 0 king) in
  cell b' (mkPos 4 7) = None /\
  cell b' (mkPos 6 7) = Some (movedTo king (mkPos 6 7)) /\
  cell b' (mkPos 7 7) = None /\
  exists rook, cell castlingReady (mkPos 7 7) = Some rook /\
               cell b' (mkPos 5 7) = Some (movedTo rook (mkPos 5 7)).
Proof.
  intros king b'.
  destruct (castling_moves_king_and_rook castlingReady king 7 6
              eq_refl eq_refl eq_refl eq_refl (or_introl eq_refl))
    as (rook & Hrook & _ & _ & _ & Hcells).
  { vm_compute. among. }
  split; [exact (Hcells (mkPos 4 7)) |].
  split; [exact (Hcells (mkPos 6 7)) |].
  split; [exact (Hcells (mkPos 7 7)) |].
  exists rook. split; [exact Hrook | exact (Hcells (mkPos 5 7))].
Defined.

(** The two evaluations of [skirmish]. *)
Lemma evaluateBoard_zero_sum_witness :
  (eval_score (evaluateBoard (mkAI 3 BLACK) skirmish) ==
   - eval_score (evaluateBoard (mkAI 2 WHITE) skirmish))%Q /\
  isGameOver (evaluateBoard (mkAI 3 BLACK) skirmish) =
  isGameOver (evaluateBoard (mkAI 2 WHITE) skirmish) /\
  winner (evaluateBoard (mkAI 3 BLACK) skirmish) =
  winner (evaluateBoard (mkAI 2 WHITE) skirmish).
Proof.
  apply (evaluateBoard_zero_sum 2 3 skirmish); vm_compute; reflexivity.
Defined.

(** Black's reply in [skirmish], searched one ply deep. *)
Lemma getBestMove_returns_a_legal_move_witness :
  match getBestMove (mkAI 1 BLACK) skirmish [0; 0] (1 # 2, 0)%Q with
  | Some mv =>
      exists pos, isValidPosition pos = true /\ cell skirmish pos = Some (piece mv) /\
                  team (piece mv) = BLACK /\ isAlive (piece mv) = true /\
                  from mv = position (piece mv) /\
                  In (to mv) (getValidMoves (piece mv) skirmish)
  | None => False
  end.
Proof.
  destruct (getBestMove (mkAI 1 BLACK) skirmish [0; 0] (1 # 2, 0)%Q) as [mv|] eqn:Hrun.
  2:{ vm_compute in Hrun. discriminate Hrun. }
  exact (getBestMove_returns_a_legal_move (mkAI 1 BLACK) skirmish [0; 0] (1 # 2, 0)%Q mv
           eq_refl Hrun).
Defined.


End MoveInstances.

Section TargetInstances.

Import ChessRules AbilitySystem.

(** Shield Wall, cast by the white pawn on e2 in [skirmish]. *)
Lemma self_ability_targets_own_square_witness :
  let pawn := ChessAI.pieceAt PAWN WHITE 4 6 50 in
  let shield := mkAbility "pawn_charge" "Shield Wall" ACTIVE 20 5 None 0 SELF
                  [mkEffect buffEffect None (Some GameStore.shieldWall) None] 1 in
  getValidTargets pawn shield ChessAI.skirmish = [mkPos 4 6].
Proof.
  intros pawn shield.
  apply (self_ability_targets_own_square pawn shield ChessAI.skirmish);
    [reflexivity | reflexivity | reflexivity | simpl; lia].
Defined.

(** Holy Smite, cast by the white bishop on c1 in [skirmish] at the black
    pawn on f3. *)
Lemma valid_targets_spec_witness :
  let bishop := ChessAI.pieceAt BISHOP WHITE 2 7 70 in
  let smite := mkAbility "bishop_smite" "Holy Smite" ACTIVE 45 5 None 8 ENEMY
                 [mkEffect damageEffect (Some 60) None None] 4 in
  isValidPosition (mkPos 5 5) = true /\
  Z.abs (px (position bishop) - 5) <= range smite /\
  Z.abs (py (position bishop) - 5) <= range smite /\
  exists t, cell ChessAI.skirmish (mkPos 5 5) = Some t /\ team t <> team bishop /\
            isAlive t = true.
Proof.
  intros bishop smite.
  apply (valid_targets_spec bishop smite ChessAI.skirmish (mkPos 5 5) eq_refl).
  vm_compute. among.
Defined.

End TargetInstances.

(** * The abilities and the store on given games *)

(** The value that [t] computes to, handed to [k]. *)
Ltac got t k :=
  let v := eval vm_compute in t in
  lazymatch v with
  | Some (?x, _) => k x
  | Some ?x => k x
  end.

Ltac run_of :=
  match goal with
  | |- match ?m with _ => _ end =>
      let r := fresh "r" in
      let h' := fresh "h'" in
      let Hrun := fresh "Hrun" in
      destruct m as [[r h']|] eqn:Hrun; [| vm_compute in Hrun; discriminate Hrun]
  end.

Section AbilityInstances.

Import ChessRules AbilitySystem GameStore.

(** At the start of a game the pawn on a2 casts Shield Wall. *)
Lemma executeAbility_succeeds_iff_usable_witness :
  match atStart with
  | Some (state, h) =>
      match executeAbility 1 0 (mkPos 0 6) (board state) h with
      | Some (r, h') => success r = true
      | None => False
      end
  | None => False
  end.
Proof.
  unfold atStart. run_of.
  eapply eq_trans.
  - eapply (executeAbility_succeeds_iff_usable 1 0); [ .. | exact Hrun];
      solve [cbv; reflexivity].
  - vm_compute. reflexivity.
Defined.

(** The same cast leaves the pawn 80 of its 100 mana, and Shield Wall
    cooling down for 5 turns. *)
Lemma executeAbility_spends_mana_and_starts_cooldown_witness :
  match atStart with
  | Some (state, h) =>
      match executeAbility 1 0 (mkPos 0 6) (board state) h with
      | Some (r, h') =>
          currentCooldown <$> abilitiesH h' !! 0%nat = Some (Some 5) /\
          exists s', statsH h' !! 1%nat = Some s' /\ currentMana s' = 80
      | None => False
      end
  | None => False
  end.
Proof.
  unfold atStart. run_of.
  assert (Hsuccess : success r = true).
  { pose proof Hrun as Hc. vm_compute in Hc. injection Hc as <- _. reflexivity. }
  match type of Hrun with
  | executeAbility _ _ ?pos ?grid ?h = _ =>
      got (piecesH h !! 1%nat) ltac:(fun c =>
      got (statsH h !! stats c) ltac:(fun s =>
      got (abilitiesH h !! 0%nat) ltac:(fun a =>
        destruct (executeAbility_spends_mana_and_starts_cooldown 1 0 pos grid h h' r
                    c s a eq_refl eq_refl eq_refl Hrun Hsuccess)
          as (Hab & Hmana & _))))
  end.
  split; [rewrite Hab; reflexivity | exact Hmana].
Defined.

(** At the start of a game, a damage of 60 dealt by the bishop on c1 to
    the pawn on a7, of 50 hit points and 5 of defense: the pawn is left
    with no hit point and its square is cleared. *)
Lemma ability_damage_on_one_enemy_witness :
  match atStart with
  | Some (state, h) =>
      match executeDamageEffect 21 (mkEffect damageEffect (Some 60) None None)
              (mkPos 0 1) (board state) ([], []) h with
      | Some (out', h') =>
          currentHp <$> statsH h' !! 0%nat = Some 0 /\
          readCell (board state) (mkPos 0 1) h' = Some (None, h')
      | None => False
      end
  | None => False
  end.
Proof.
  unfold atStart. run_of.
  match type of Hrun with
  | executeDamageEffect _ ?effect ?pos ?grid ?out ?h = _ =>
      got (piecesH h !! 0%nat) ltac:(fun t =>
      got (piecesH h !! 21%nat) ltac:(fun c =>
      got (statsH h !! stats t) ltac:(fun ts =>
        destruct (ability_damage_on_one_enemy 21 effect pos grid out r h h' 0%nat
                    t c ts eq_refl eq_refl eq_refl eq_refl eq_refl
                    ltac:(cbv; discriminate) Hrun) as (Hstats & _ & Hdead))))
  end.
  split; [rewrite Hstats; reflexivity |].
  exact (proj1 (proj2 (Hdead eq_refl))).
Defined.

(** At the start of a game the knight on b1 is teleported to c3. *)
Lemma teleport_moves_the_caster_witness :
  match atStart with
  | Some (state, h) =>
      match executeTeleportEffect 19 (mkEffect teleportEffect None None None)
              (mkPos 2 5) (board state) ([], []) h with
      | Some (out', h') =>
          readCell (board state) (mkPos 2 5) h' = Some (Some 19%nat, h') /\
          readCell (board state) (mkPos 1 7) h' = Some (None, h')
      | None => False
      end
  | None => False
  end.
Proof.
  unfold atStart. run_of.
  match type of Hrun with
  | executeTeleportEffect _ ?effect ?pos ?grid ?out ?h = _ =>
      got (piecesH h !! 19%nat) ltac:(fun c =>
        destruct (teleport_moves_the_caster 19 effect pos grid out r h h' c eq_refl
                    ltac:(apply (bool_decide_unpack _); vm_compute; exact I) Hrun)
          as (_ & Hto & Hfrom & _))
  end.
  split; [exact Hto |]. apply Hfrom. cbv. discriminate.
Defined.

(** In [shielded] the Shield Wall of the pawn on a2 has 2 turns left
    after [processStatusEffects], and the pawn keeps it. *)
Lemma processStatusEffects_ticks_the_effects_witness :
  match shielded with
  | Some (state, h) =>
      match processStatusEffects 1 h with
      | Some (msgs, h') =>
          duration <$> effectsH h' !! 0%nat = Some 2 /\
          exists p', piecesH h' !! 1%nat = Some p' /\
                     effectArraysH h' !! statusEffects p' = Some [0%nat]
      | None => False
      end
  | None => False
  end.
Proof.
  unfold shielded. run_of.
  match type of Hrun with
  | processStatusEffects _ ?h = _ =>
      got (piecesH h !! 1%nat) ltac:(fun p =>
      got (effectArraysH h !! statusEffects p) ltac:(fun es =>
      got (effectsH h !! 0%nat) ltac:(fun eff =>
        destruct (processStatusEffects_ticks_the_effects 1 h h' r p es
                    eq_refl eq_refl
                    ltac:(apply (bool_decide_unpack _); vm_compute; exact I) Hrun)
          as (Hticks & _ & Hkept & _);
        pose proof (Hticks 0%nat eff (or_introl eq_refl) eq_refl) as Htick)))
  end.
  split; [rewrite Htick; reflexivity | exact Hkept].
Defined.

(** In [shielded] Shield Wall has 4 turns to wait after [reduceCooldowns]
    on the pawn on a2. *)
Lemma reduceCooldowns_counts_down_witness :
  match shielded with
  | Some (state, h) =>
      match reduceCooldowns 1 h with
      | Some (u, h') =>
          currentCooldown <$> abilitiesH h' !! 0%nat = Some (Some 4) /\
          piecesH h' = piecesH h /\ statsH h' = statsH h
      | None => False
      end
  | None => False
  end.
Proof.
  unfold shielded. run_of.
  match type of Hrun with
  | reduceCooldowns _ ?h = _ =>
      got (piecesH h !! 1%nat) ltac:(fun p =>
      got (abilitiesH h !! 0%nat) ltac:(fun ab =>
        destruct (reduceCooldowns_counts_down 1 h h' r p eq_refl
                    ltac:(apply (bool_decide_unpack _); vm_compute; exact I) Hrun)
          as (Hdown & _ & _ & Hpieces & Hstats & _);
        pose proof (Hdown 0%nat ab 5 (or_introl eq_refl) eq_refl eq_refl
                      ltac:(lia)) as Hfour))
  end.
  split; [rewrite Hfour; reflexivity |]. split; [exact Hpieces | exact Hstats].
Defined.

(** At the start of a game the pawn on a2 can use Shield Wall and not
    Field Medic, which asks for level 3. *)
Lemma available_abilities_spec_witness :
  match atStart with
  | Some (state, h) =>
      match getAvailableAbilities 1 h with
      | Some (l, h1) => h1 = h /\ In 0%nat l /\ ~ In 1%nat l
      | None => False
      end
  | None => False
  end.
Proof.
  unfold atStart. run_of.
  match type of Hrun with
  | getAvailableAbilities _ ?h = _ =>
      got (piecesH h !! 1%nat) ltac:(fun p =>
      got (statsH h !! stats p) ltac:(fun s =>
        destruct (available_abilities_spec 1 h h' r p s eq_refl eq_refl Hrun)
          as [Hheap Hlist]))
  end.
  split; [exact Hheap |]. split.
  - apply Hlist. split; [left; reflexivity |].
    eexists. split; [cbv; reflexivity |].
    split; [reflexivity |]. split; [simpl; lia |]. split; [simpl; lia |].
    intros c Hc. discriminate Hc.
  - intros Hin. apply Hlist in Hin as (_ & ab & Hab & _ & _ & Hlevel & _).
    cbv in Hab. injection Hab as <-. simpl in Hlevel. lia.
Defined.

End AbilityInstances.

Section StoreInstances.

Import ChessRules AbilitySystem GameStore.

(** White ends the first turn of a game. *)
Lemma endTurn_passes_the_turn_witness :
  match atStart with
  | Some (state, h) =>
      match endTurn state h with
      | Some (state', h') => currentTurn state' = BLACK /\ turnCount state' = 2
      | None => False
      end
  | None => False
  end.
Proof.
  unfold atStart. run_of.
  destruct (endTurn_passes_the_turn _ _ _ _ Hrun) as (_ & Hturn & Hcount & _).
  split; [exact Hturn | exact Hcount].
Defined.

(** At the start of a game the rook on a1 cannot go to a3. *)
Lemma movePiece_rejected_changes_nothing_witness :
  match atStart with
  | Some (state, h) => movePiece (mkPos 0 7) (mkPos 0 5) 0 state h = Some (state, h)
  | None => False
  end.
Proof.
  unfold atStart.
  match goal with
  | |- movePiece _ _ _ ?state ?h = _ =>
      got (derefBoard (board state) h) ltac:(fun b =>
      got (piecesH h !! 17%nat) ltac:(fun p =>
        apply (movePiece_rejected_changes_nothing (mkPos 0 7) (mkPos 0 5) 0 state h
                 (Some 17%nat) b
                 ltac:(vm_compute; reflexivity) ltac:(vm_compute; reflexivity));
        exists p; split; vm_compute; reflexivity))
  end.
Defined.

(** 1. e4. *)
Lemma movePiece_accepted_passes_the_turn_witness :
  match atStart with
  | Some (state, h) =>
      match movePiece (mkPos 4 6) (mkPos 4 4) 0 state h with
      | Some (state', h') =>
          currentTurn state' = BLACK /\ turnCount state' = 2 /\
          exists move, moveHistory state' = [move] /\ from move = mkPos 4 6 /\
                       to move = mkPos 4 4
      | None => False
      end
  | None => False
  end.
Proof.
  unfold atStart. run_of.
  match type of Hrun with
  | movePiece _ _ _ ?state ?h = _ =>
      got (derefBoard (board state) h) ltac:(fun b =>
      got (piecesH h !! 9%nat) ltac:(fun p =>
        destruct (movePiece_accepted_passes_the_turn (mkPos 4 6) (mkPos 4 4) 0
                    state r h h' 9%nat p b
                    ltac:(vm_compute; reflexivity) ltac:(vm_compute; reflexivity)
                    ltac:(vm_compute; reflexivity) ltac:(vm_compute; reflexivity) Hrun)
          as (Hturn & Hcount & _ & _ & _ & (move & Hmove & Hfrom & Hto & _) & _)))
  end.
  split; [exact Hturn |]. split; [exact Hcount |].
  exists move. split; [exact Hmove |]. split; [exact Hfrom | exact Hto].
Defined.

(** At the start of a game the pawn on a2 casts Shield Wall: it is still
    White's turn, the first. *)
Lemma useAbility_keeps_the_turn_witness :
  match atStart with
  | Some (state, h) =>
      match useAbility "white-pawn-0" "pawn_charge" None state h with
      | Some (state', h') => currentTurn state' = WHITE /\ turnCount state' = 1
      | None => False
      end
  | None => False
  end.
Proof.
  unfold atStart. run_of.
  destruct (useAbility_keeps_the_turn _ _ _ _ _ _ _ Hrun) as (Hturn & Hcount & _).
  split; [exact Hturn | exact Hcount].
Defined.

(** At the start of a game White selects the pawn on e2. *)
Lemma selectPiece_offers_legal_moves_witness :
  match atStart with
  | Some (state, h) =>
      match selectPiece (mkPos 4 6) state h with
      | Some (state', h') =>
          h' = h /\ board state' = board state /\
          highlightedSquares state' = validMoves state'
      | None => False
      end
  | None => False
  end.
Proof.
  unfold atStart. run_of.
  destruct (selectPiece_offers_legal_moves _ _ _ _ _ Hrun)
    as (Hheap & Hboard & _ & _ & _ & _ & _ & Hsquares & _).
  split; [exact Hheap |]. split; [exact Hboard | exact Hsquares].
Defined.

(** The pawn on a2 has 10 mana when White ends the turn, and 20 when
    Black has ended the next. *)
Lemma endTurn_regenerates_mana_witness :
  match after lowMana endTurn with
  | Some (state, h) =>
      match endTurn state h with
      | Some (state', h') =>
          exists l' q',
            readCell (board state') (mkPos 0 6) h' = Some (Some l', h') /\
            snapshotPiece l' h' = Some (q', h') /\ currentMana (stats q') = 20
      | None => False
      end
  | None => False
  end.
Proof.
  set (start := after lowMana endTurn). vm_compute in start. subst start.
  cbv beta iota. run_of.
  destruct (endTurn_regenerates_mana _ _ _ _ Hrun) as [_ Hcells].
  match type of Hrun with
  | endTurn ?state ?h = _ =>
      got (readCell (board state) (mkPos 0 6) h) ltac:(fun c =>
        lazymatch c with
        | Some ?l =>
            got (snapshotPiece l h) ltac:(fun q =>
              destruct (Hcells (mkPos 0 6) l q
                          ltac:(vm_compute; reflexivity) ltac:(vm_compute; reflexivity))
                as (l' & q' & Hcell & Hq & _ & _ & Hmana & _))
        end)
  end.
  exists l', q'. split; [exact Hcell |]. split; [exact Hq |].
  rewrite Hmana. vm_compute. reflexivity.
Defined.

(** In [queenAttacks] the queen goes from h5 to e5, where a pawn stands
    that the attack does not kill. *)
Lemma movePiece_moves_the_piece_witness :
  match queenAttacks with
  | Some (state, h) =>
      match movePiece (mkPos 7 3) (mkPos 4 3) 0 state h with
      | Some (state', h') =>
          readCell (board state') (mkPos 7 3) h' = Some (None, h') /\
          exists l' q',
            readCell (board state') (mkPos 4 3) h' = Some (Some l', h') /\
            snapshotPiece l' h' = Some (q', h') /\
            type q' = QUEEN /\ team q' = WHITE /\
            position q' = mkPos 4 3 /\ hasMoved q' = true
      | None => False
      end
  | None => False
  end.
Proof.
  unfold queenAttacks. run_of.
  match type of Hrun with
  | movePiece _ _ _ ?state ?h = _ =>
      got (derefBoard (board state) h) ltac:(fun b =>
      got (piecesH h !! 84%nat) ltac:(fun p =>
      got (statsH h !! stats p) ltac:(fun s =>
        destruct (movePiece_moves_the_piece (mkPos 7 3) (mkPos 4 3) 0
                    state r h h' 84%nat p s b
                    ltac:(vm_compute; reflexivity) ltac:(vm_compute; reflexivity)
                    ltac:(vm_compute; reflexivity) ltac:(vm_compute; reflexivity)
                    ltac:(vm_compute; reflexivity) ltac:(cbv; discriminate) Hrun)
          as (Hfrom & l' & q' & Hto & Hq & _ & Htype & Hteam & Hpos & Hmoved))))
  end.
  split; [exact Hfrom |]. exists l', q'.
  split; [exact Hto |]. split; [exact Hq |]. split; [exact Htype |].
  split; [exact Hteam |]. split; [exact Hpos | exact Hmoved].
Defined.

End StoreInstances.

(** * Healing and the caster on given games *)

Section CasterInstances.

Import ChessRules AbilitySystem GameStore.

(** The pawn on a2, down to 20 hit points, is healed of 25 by the pawn on
    b2. *)
Lemma ability_heal_on_one_piece_witness :
  match after atStart (fun st => s <- load statsL 1 ;;
                                 store statsL 1 (setCurrentHp s 20) ;;; ret st) with
  | Some (state, h) =>
      match executeHealEffect 3 (mkEffect healEffect (Some 25) None None)
              (mkPos 0 6) (board state) ([], []) h with
      | Some (out', h') =>
          currentHp <$> statsH h' !! 1%nat = Some 45 /\
          out' = ([RecoveredHp PAWN 25], [1%nat]) /\ piecesH h' = piecesH h
      | None => False
      end
  | None => False
  end.
Proof.
  match goal with
  | |- match ?m with _ => _ end => set (start := m)
  end.
  vm_compute in start. subst start. cbv beta iota. run_of.
  match type of Hrun with
  | executeHealEffect _ ?effect ?pos ?grid ?out ?h = _ =>
      got (piecesH h !! 1%nat) ltac:(fun t =>
      got (piecesH h !! 3%nat) ltac:(fun c =>
      got (statsH h !! stats t) ltac:(fun ts =>
        destruct (ability_heal_on_one_piece 3 effect pos grid out r h h' 1%nat
                    t c ts eq_refl eq_refl eq_refl eq_refl eq_refl Hrun)
          as (_ & Hpieces & _ & _ & _ & _ & Hally))))
  end.
  destruct (Hally eq_refl) as [Hstats Hout].
  split; [rewrite Hstats; reflexivity |]. split; [exact Hout | exact Hpieces].
Defined.

(** At the start of a game the piece named white-pawn-0 is the pawn on
    a2. *)
Lemma findCaster_spec_witness :
  match atStart with
  | Some (state, h) =>
      match findCaster "white-pawn-0" (board state) h with
      | Some (r, h') =>
          h' = h /\ r = Some 1%nat /\
          exists pos, isValidPosition pos = true /\
                      holdsId (board state) h "white-pawn-0" pos 1
      | None => False
      end
  | None => False
  end.
Proof.
  unfold atStart. run_of.
  assert (Hr : r = Some 1%nat).
  { pose proof Hrun as Hc. vm_compute in Hc. injection Hc as <- _. reflexivity. }
  pose proof (findCaster_spec _ _ _ _ _ Hrun) as [Hheap Hfound].
  rewrite Hr in Hfound. destruct Hfound as (pos & Hvalid & Hholds & _).
  split; [exact Hheap |]. split; [exact Hr |].
  exists pos. split; [exact Hvalid | exact Hholds].
Defined.

(** At the start of a game, White to play, Shield Wall is asked for the
    black pawn on a7. *)
Lemma useAbility_rejected_changes_nothing_witness :
  match atStart with
  | Some (state, h) =>
      match useAbility "black-pawn-0" "pawn_charge" None state h with
      | Some (state', h') => state' = state /\ h' = h
      | None => False
      end
  | None => False
  end.
Proof.
  unfold atStart. run_of.
  apply (useAbility_rejected_changes_nothing _ _ _ _ _ _ _) with (2 := Hrun).
  intros pos l p Hvalid. apply squares_spec in Hvalid.
  revert pos Hvalid l p.
  match goal with
  | |- forall pos, In pos squares -> @?P pos =>
      apply (proj1 (List.Forall_forall P squares))
  end.
  cbv [squares indices flat_map map app].
  repeat (constructor;
          [intros l p Hcell Hp Hid; vm_compute in Hcell;
           first [discriminate Hcell
                 | injection Hcell as <-; vm_compute in Hp; injection Hp as <-;
                   first [discriminate Hid | cbv; discriminate]] |]).
  constructor.
Defined.

End CasterInstances.
